(** * The component framework of the GCAM driver

    A model of [cassandra/components.py] and of the main program of
    [cassandra/gcam/gcam_driver.py]: the capability table, the component
    objects with their parameter and result dictionaries, the bodies
    [run_component] of the components, the wrapper that runs a body under
    the component's condition variable, the blocking [fetch], and the
    driver that starts one thread per component and joins them all.

    Python objects live in a store: dictionaries are referenced by
    location, components by index in the order of their creation, so that
    two attributes naming one dictionary really share it.  Calls to [print]
    and [stdout.write] are left out. *)

From Stdlib Require Import ZArith Lia Ascii.
From stdpp Require Import base option list gmap strings pretty.

Open Scope Z_scope.
Open Scope string_scope.

(** ** Python values, dictionaries and exceptions *)

Inductive pyval :=
| VStr (s : string)
| VInt (z : Z)
| VBool (b : bool)
| VNone.

Abbreviation dict := (gmap string pyval).

Inductive exn :=
| KeyError (key : string)
| RuntimeError (msg : string)
| IOError (msg : string)
| TypeError (msg : string)
| ValueError (msg : string)
| IndexError (msg : string)
| AttributeError (attr : string)
| NotImplementedError (msg : string).

#[global] Instance pyval_eq_dec : EqDecision pyval.
Proof. solve_decision. Defined.

#[global] Instance exn_eq_dec : EqDecision exn.
Proof. solve_decision. Defined.

(** Truth value of a python object, as [if], [not] and [or] see it. *)
Definition truthy (v : pyval) : bool :=
  match v with
  | VStr s => negb (String.eqb s EmptyString)
  | VInt z => negb (Z.eqb z 0)
  | VBool b => b
  | VNone => false
  end.

(** ** Objects *)

Abbreviation loc := nat (only parsing).   (* a dictionary object *)
Abbreviation cid := nat (only parsing).   (* a component object *)
Abbreviation tid := nat (only parsing).   (* a thread; thread [c] runs component [c] *)

Inductive class :=
| ComponentBase
| GlobalParamsComponent
| GcamComponent
| HydroComponent
| HistoricalHydroComponent
| WaterDisaggregationComponent
| NetcdfDemoComponent.

#[global] Instance class_eq_dec : EqDecision class.
Proof. solve_decision. Defined.

Definition class_name (k : class) : string :=
  match k with
  | ComponentBase => "ComponentBase"
  | GlobalParamsComponent => "GlobalParamsComponent"
  | GcamComponent => "GcamComponent"
  | HydroComponent => "HydroComponent"
  | HistoricalHydroComponent => "HistoricalHydroComponent"
  | WaterDisaggregationComponent => "WaterDisaggregationComponent"
  | NetcdfDemoComponent => "NetcdfDemoComponent"
  end.

(** [str(self.__class__)] *)
Definition class_repr (k : class) : string :=
  "<class 'components." +:+ class_name k +:+ "'>".

(** [threading.Condition()]: a re-entrant lock, with its owner and the
    number of times the owner took it, and the threads suspended in
    [wait()]. *)
Record condition := Condition {
  owner : option (tid * nat);
  waiting : list tid
}.

Definition new_condition : condition := Condition None [].

Record component := Component {
  klass : class;
  status : Z;               (* 0- not yet run, 1- complete, 2- error *)
  results : loc;
  params : loc;
  cond : condition;
  clobber : option bool     (* absent until [finalize_parsing] *)
}.

Definition set_status (z : Z) (x : component) : component :=
  Component (klass x) z (results x) (params x) (cond x) (clobber x).
Definition set_results (l : loc) (x : component) : component :=
  Component (klass x) (status x) l (params x) (cond x) (clobber x).
Definition set_cond (cv : condition) (x : component) : component :=
  Component (klass x) (status x) (results x) (params x) cv (clobber x).
Definition set_clobber (b : bool) (x : component) : component :=
  Component (klass x) (status x) (results x) (params x) (cond x) (Some b).

(** The file system: the paths that exist, each with its lines. *)
Abbreviation fsys := (gmap string (list string)).

Record mem := Mem {
  dicts : list dict;             (* the dictionary objects *)
  comps : list component;        (* the component objects *)
  cap_tbl : gmap string cid;     (* the capability table all components share *)
  global_params : option cid;    (* util.global_params *)
  workdirs : gmap cid string;    (* self.workdir, where a body has assigned it *)
  fs : fsys;
  cwd : string;                  (* os.getcwd() *)
  launched : list (list string)  (* the commands run as subprocesses so far *)
}.

Definition with_dicts (ds : list dict) (m : mem) : mem :=
  Mem ds (comps m) (cap_tbl m) (global_params m) (workdirs m) (fs m) (cwd m)
    (launched m).
Definition with_comps (cs : list component) (m : mem) : mem :=
  Mem (dicts m) cs (cap_tbl m) (global_params m) (workdirs m) (fs m) (cwd m)
    (launched m).
Definition with_cap_tbl (t : gmap string cid) (m : mem) : mem :=
  Mem (dicts m) (comps m) t (global_params m) (workdirs m) (fs m) (cwd m)
    (launched m).
Definition with_global_params (c : cid) (m : mem) : mem :=
  Mem (dicts m) (comps m) (cap_tbl m) (Some c) (workdirs m) (fs m) (cwd m)
    (launched m).
Definition with_workdirs (w : gmap cid string) (m : mem) : mem :=
  Mem (dicts m) (comps m) (cap_tbl m) (global_params m) w (fs m) (cwd m)
    (launched m).
Definition with_fs (f : fsys) (m : mem) : mem :=
  Mem (dicts m) (comps m) (cap_tbl m) (global_params m) (workdirs m) f (cwd m)
    (launched m).
Definition with_launched (l : list (list string)) (m : mem) : mem :=
  Mem (dicts m) (comps m) (cap_tbl m) (global_params m) (workdirs m) (fs m)
    (cwd m) l.

Definition empty_mem (f : fsys) (d : string) : mem :=
  Mem [] [] ∅ None ∅ f d [].

Definition update_comp (c : cid) (f : component → component) (m : mem) : mem :=
  match comps m !! c with
  | Some x => with_comps (<[c := f x]> (comps m)) m
  | None => m
  end.

(** The dictionary an attribute refers to. *)
Definition deref (m : mem) (l : loc) : dict := default ∅ (dicts m !! l).

Definition results_of (m : mem) (c : cid) : option dict :=
  x ← comps m !! c; dicts m !! results x.
Definition params_of (m : mem) (c : cid) : option dict :=
  x ← comps m !! c; dicts m !! params x.
Definition status_of (m : mem) (c : cid) : option Z :=
  status <$> comps m !! c.

(** The dictionary object at [l] replaced by [r]. *)
Definition put_dict (l : loc) (r : dict) (m : mem) : mem :=
  with_dicts (<[l := r]> (dicts m)) m.

(** [d[key] = v] on the dictionary object at [l]. *)
Definition dict_store (l : loc) (key : string) (v : pyval) (m : mem) : mem :=
  put_dict l (<[key := v]> (deref m l)) m.

(** ** Construction of the components *)

(** [ComponentBase.__init__]: a new object with status 0, a results
    dictionary holding [changed = 1], an empty params dictionary and a new
    condition variable.  The capability table is the shared one. *)
Definition ComponentBase_init (k : class) (m : mem) : cid * mem :=
  let self := length (comps m) in
  let r := length (dicts m) in
  let p := S r in
  let x := Component k 0 r p new_condition None in
  (self, with_comps (comps m ++ [x])
           (with_dicts (dicts m ++ [ {["changed" := VInt 1]} ; ∅ ]) m)).

(** The capability each subclass enters itself under. *)
Definition capability (k : class) : option string :=
  match k with
  | ComponentBase => None
  | GlobalParamsComponent => Some "general"
  | GcamComponent => Some "gcam-core"
  | HydroComponent => Some "gcam-hydro"
  | HistoricalHydroComponent => Some "historical-hydro"
  | WaterDisaggregationComponent => Some "water-disaggregation"
  | NetcdfDemoComponent => Some "netcdf-demo"
  end.

(** [cap_tbl[name] = self] *)
Definition register (name : string) (self : cid) (m : mem) : mem :=
  with_cap_tbl (<[name := self]> (cap_tbl m)) m.

(** [GlobalParamsComponent.__init__]: [self.results = self.params], a
    reference copy. *)
Definition GlobalParamsComponent_init (m : mem) : cid * mem :=
  let '(self, m1) := ComponentBase_init GlobalParamsComponent m in
  let m2 := update_comp self (fun x => set_results (params x) x) m1 in
  let m3 := register "general" self m2 in
  (self, with_global_params self m3).

(** The [__init__] of the other subclasses: the base initialisation, then
    the entry in the capability table. *)
Definition Subclass_init (k : class) (m : mem) : cid * mem :=
  let '(self, m1) := ComponentBase_init k m in
  match capability k with
  | Some name => (self, register name self m1)
  | None => (self, m1)
  end.

Definition GcamComponent_init := Subclass_init GcamComponent.
Definition HydroComponent_init := Subclass_init HydroComponent.
Definition HistoricalHydroComponent_init := Subclass_init HistoricalHydroComponent.
Definition WaterDisaggregationComponent_init :=
  Subclass_init WaterDisaggregationComponent.
Definition NetcdfDemoComponent_init := Subclass_init NetcdfDemoComponent.

(** The constructor call [K(capability_table)]. *)
Definition construct (k : class) (m : mem) : cid * mem :=
  match k with
  | ComponentBase => ComponentBase_init ComponentBase m
  | GlobalParamsComponent => GlobalParamsComponent_init m
  | _ => Subclass_init k m
  end.

(** [addparam]: [self.params[key] = value] *)
Definition addparam (self : cid) (key value : string) (m : mem) : mem :=
  match comps m !! self with
  | Some x => dict_store (params x) key (VStr value) m
  | None => m
  end.

(** ** What the bodies use from outside this file

    The module [util] of the repository and the functions of the python
    library the components call.  The model is parametric in them. *)
Record externals := Externals {
  (* module util *)
  util_abspath : string → option string → string;   (* filename, defaultpath *)
  util_parseTFstring : string → bool;
  util_allexist : list string → fsys → bool;
  util_mkdir_if_noexist : string → fsys → fsys;
  (* python library *)
  os_path_dirname : string → string;
  os_path_join : string → string → string;
  str_lstrip : string → string;
  dbxmlfpat : string → option string;      (* group 1 of a match, if any *)
  dbenabledpat : string → option string;
  py_int : string → option Z;
  subprocess_call : list string → string → fsys → fsys * Z   (* args, cwd *)
}.

(** [finalize_parsing]: clobber defaults to [True]; a [clobber] parameter
    overrides it. *)
Definition finalize_parsing (E : externals) (self : cid) (m : mem) : exn + mem :=
  match default ∅ (params_of m self) !! "clobber" with
  | None => inr (update_comp self (set_clobber true) m)
  | Some (VStr s) => inr (update_comp self (set_clobber (util_parseTFstring E s)) m)
  | Some _ => inl (TypeError "parseTFstring")
  end.

(** ** The bodies of the components as programs

    A body is a tree of the operations it performs on its own object, on
    the file system and on the capability table, and of the calls of
    [fetch] on other components, the only place where it can block. *)
Inductive op : Type → Type :=
| GetParams : op dict                           (* contents of self.params *)
| GetResults : op dict                          (* contents of self.results *)
| SetResult (key : string) (v : pyval) : op unit  (* self.results[key] = v *)
| ReadDict (l : loc) : op dict                  (* contents of a fetched dict *)
| GetClobber : op (option bool)                 (* self.clobber *)
| SetWorkdir (d : string) : op unit             (* self.workdir = d *)
| GetCapTbl : op (gmap string cid)              (* contents of self.cap_tbl *)
| Getcwd : op string                            (* os.getcwd() *)
| PathExists (p : string) : op bool             (* os.path.exists(p) *)
| AllExist (ps : list string) : op bool         (* util.allexist(ps) *)
| ReadLines (p : string) : op (option (list string))  (* open(p, "r") *)
| OpenWrite (p : string) : op unit              (* open(p, "w") *)
| Unlink (p : string) : op unit                 (* os.unlink(p) *)
| MkdirIfNoexist (p : string) : op unit         (* util.mkdir_if_noexist(p) *)
| Call (args : list string) (dir : string) : op Z.  (* subprocess, cwd=dir *)

Inductive work (A : Type) : Type :=
| Ret (a : A)
| Raise (e : exn)
| Do {X : Type} (o : op X) (k : X → work A)
| Fetch (d : cid) (k : exn + loc → work A).   (* d.fetch(), raising or returning *)

Arguments Ret {A} a.
Arguments Raise {A} e.
Arguments Do {A X} o k.
Arguments Fetch {A} d k.

Fixpoint work_bind {A B : Type} (f : A → work B) (w : work A) : work B :=
  match w with
  | Ret a => f a
  | Raise e => Raise e
  | Do o k => Do o (fun x => work_bind f (k x))
  | Fetch d k => Fetch d (fun r => work_bind f (k r))
  end.

#[global] Instance work_mret : MRet work := @Ret.
#[global] Instance work_mbind : MBind work := @work_bind.

Definition perform {X : Type} (o : op X) : work X := Do o Ret.

(** The effect of one operation of the body of [self]. *)
Definition interp_op (E : externals) (self : cid) {X : Type} (o : op X) (m : mem)
  : X * mem :=
  match o in op X return X * mem with
  | GetParams => (default ∅ (params_of m self), m)
  | GetResults => (default ∅ (results_of m self), m)
  | SetResult key v =>
      (tt, match comps m !! self with
           | Some x => dict_store (results x) key v m
           | None => m
           end)
  | ReadDict l => (deref m l, m)
  | GetClobber => (x ← comps m !! self; clobber x, m)
  | SetWorkdir d => (tt, with_workdirs (<[self := d]> (workdirs m)) m)
  | GetCapTbl => (cap_tbl m, m)
  | Getcwd => (cwd m, m)
  | PathExists p => (bool_decide (is_Some (fs m !! p)), m)
  | AllExist ps => (util_allexist E ps (fs m), m)
  | ReadLines p => (fs m !! p, m)
  | OpenWrite p => (tt, with_fs (<[p := []]> (fs m)) m)
  | Unlink p => (tt, with_fs (delete p (fs m)) m)
  | MkdirIfNoexist p => (tt, with_fs (util_mkdir_if_noexist E p (fs m)) m)
  | Call args dir =>
      let '(f, rc) := subprocess_call E args dir (fs m) in
      (rc, with_launched (launched m ++ [args]) (with_fs f m))
  end.

(** *** Small pieces the bodies share *)

Definition as_str (v : pyval) : work string :=
  match v with
  | VStr s => Ret s
  | _ => Raise (TypeError "expected str")
  end.

(** [str(v)], as the formatting of a message needs it. *)
Definition py_str (v : pyval) : string :=
  match v with
  | VStr s => s
  | VInt z => pretty z
  | VBool true => "True"
  | VBool false => "False"
  | VNone => "None"
  end.

(** [d[key]] *)
Definition subscript (d : dict) (key : string) : work pyval :=
  match d !! key with
  | Some v => Ret v
  | None => Raise (KeyError key)
  end.

(** [self.params[key]] *)
Definition param (key : string) : work pyval :=
  p ← perform GetParams; subscript p key.

(** [self.results[key]] *)
Definition result (key : string) : work pyval :=
  r ← perform GetResults; subscript r key.

(** [key in self.results] *)
Definition in_results (key : string) : work bool :=
  r ← perform GetResults; Ret (bool_decide (is_Some (r !! key))).

(** [self.clobber] *)
Definition get_clobber : work bool :=
  c ← perform GetClobber;
  match c with
  | Some b => Ret b
  | None => Raise (AttributeError "clobber")
  end.

(** [tbl[name]]: the lookup of a capability. *)
Definition resolve (tbl : gmap string cid) (name : string) : exn + cid :=
  match tbl !! name with
  | Some c => inr c
  | None => inl (KeyError name)
  end.

(** [comp.fetch()] inside a body that does not catch what it raises. *)
Definition fetch_from (d : cid) : work loc :=
  Fetch d (fun r => match r with inl e => Raise e | inr l => Ret l end).

(** [self.cap_tbl[name].fetch()] *)
Definition fetch_capability (name : string) : work loc :=
  tbl ← perform GetCapTbl;
  match resolve tbl name with
  | inl e => Raise e
  | inr d => fetch_from d
  end.

(** [s[-1] != '/'], which fails on the empty string. *)
Definition lacks_final_slash (s : string) : work bool :=
  match last (String.list_ascii_of_string s) with
  | Some a => Ret (negb (Ascii.eqb a "/"%char))
  | None => Raise (IndexError "string index out of range")
  end.

(** [if not b: raise e] *)
Definition ensure (b : bool) (e : exn) : work unit :=
  if b then Ret tt else Raise e.

(** [int(v)] *)
Definition to_int (E : externals) (v : pyval) : work Z :=
  match v with
  | VStr s => match py_int E s with
              | Some z => Ret z
              | None => Raise (ValueError "invalid literal for int()")
              end
  | VInt z => Ret z
  | VBool b => Ret (if b then 1 else 0)%Z
  | VNone => Raise (TypeError "int() argument")
  end.

(** ** The bodies [run_component] *)

Section Bodies.
Context (E : externals).

(** [util.abspath(v)] and [util.abspath(v, d)] on values read from a
    dictionary. *)
Definition abspath (v : pyval) (defaultpath : option string) : work string :=
  s ← as_str v; Ret (util_abspath E s defaultpath).

(** [ComponentBase.run_component] *)
Definition ComponentBase_run_component : work Z :=
  Raise (NotImplementedError "ComponentBase is not a runnable class.").

(** [GlobalParamsComponent.run_component] *)
Definition GlobalParamsComponent_run_component : work Z :=
  mi ← result "ModelInterface";
  mi ← abspath mi None;
  _ ← perform (SetResult "ModelInterface" (VStr mi));
  db ← result "DBXMLlib";
  db ← abspath db None;
  _ ← perform (SetResult "DBXMLlib" (VStr db));
  has ← in_results "inputdir";
  inputdir ← (if has : bool then result "inputdir" else Ret (VStr "./input-data"));
  here ← perform Getcwd;
  inputdir ← abspath inputdir (Some here);
  _ ← perform (SetResult "inputdir" (VStr inputdir));
  has ← in_results "rgnconfig";
  rgnconfig ← (if has : bool then result "rgnconfig" else Ret (VStr "rgn14"));
  base ← result "inputdir";
  base ← as_str base;
  rgnconfig ← abspath rgnconfig (Some base);
  _ ← perform (SetResult "rgnconfig" (VStr rgnconfig));
  Ret 0%Z.

(** The first loop over the lines of the GCAM configuration: the file
    name of the first line that matches, and the lines not yet read. *)
Fixpoint scan_dbxmlfile (lines : list string) : option string * list string :=
  match lines with
  | [] => (None, [])
  | line :: rest =>
      match dbxmlfpat E (str_lstrip E line) with
      | Some f => (Some f, rest)
      | None => scan_dbxmlfile rest
      end
  end.

(** The second loop, over the lines the first one left: does the first
    line that matches switch the database output off? *)
Fixpoint scan_dbenabled_off (lines : list string) : bool :=
  match lines with
  | [] => false
  | line :: rest =>
      match dbenabledpat E (str_lstrip E line) with
      | Some v => negb (String.eqb v "1")
      | None => scan_dbenabled_off rest
      end
  end.

(** The run of GCAM itself, once the checks are passed. *)
Definition gcam_call (exe cfg logcfg wd : string) (logfile : option pyval) : work Z :=
  let args := [exe; "-C" +:+ cfg; "-L" +:+ logcfg] in
  match logfile with
  | None | Some VNone => perform (Call args wd)
  | Some lf =>
      lf ← as_str lf;
      _ ← perform (OpenWrite lf);
      perform (Call args wd)
  end.

(** What [GcamComponent.run_component] has at hand when it comes to look
    for an existing database. *)
Record gcam_ctx := GcamCtx {
  g_exe : string; g_cfg : string; g_logcfg : string; g_workdir : string;
  g_logfile : option pyval;
  g_rest : list string;       (* the lines of the configuration not yet read *)
  g_dbxmlfile : string
}.

(** [GcamComponent.run_component], up to the assignment of
    [self.results["dbxml"]]. *)
Definition GcamComponent_prepare : work gcam_ctx :=
  exe ← param "exe";
  cfg ← param "config";
  logcfg ← param "logconfig";
  p ← perform GetParams;
  let logfile := p !! "logfile" in
  exe ← as_str exe;
  let wd := os_path_dirname E exe in
  _ ← perform (SetWorkdir wd);
  let msgpfx := "GcamComponent: " in
  ex ← perform (PathExists exe);
  _ ← ensure ex (IOError (msgpfx +:+ "File " +:+ exe +:+ " does not exist!"));
  cfg ← as_str cfg;
  ex ← perform (PathExists cfg);
  _ ← ensure ex (IOError (msgpfx +:+ "File " +:+ cfg +:+ " does not exist!"));
  logcfg ← as_str logcfg;
  ex ← perform (PathExists logcfg);
  _ ← ensure ex (IOError (msgpfx +:+ "File " +:+ logcfg +:+ " does not exist!"));
  lines ← perform (ReadLines cfg);
  match lines with
  | None => Raise (IOError ("No such file or directory: " +:+ cfg))
  | Some lines =>
      let '(found, rest) := scan_dbxmlfile lines in
      match found with
      | None => Raise (TypeError "join() argument must be str, not NoneType")
      | Some f =>
          let dbxmlfile := os_path_join E wd f in
          _ ← perform (SetResult "dbxml" (VStr dbxmlfile));
          Ret (GcamCtx exe cfg logcfg wd logfile rest dbxmlfile)
      end
  end.

(** The run of GCAM: the second loop over the configuration, then the
    subprocess. *)
Definition gcam_run (c : gcam_ctx) : work Z :=
  _ ← ensure (negb (scan_dbenabled_off (g_rest c)))
        (RuntimeError ("GcamComponent: " +:+
           "Config file has dbxml input turned off.  Running GCAM would be futile."));
  gcam_call (g_exe c) (g_cfg c) (g_logcfg c) (g_workdir c) (g_logfile c).

(** The test for an existing database and what follows it. *)
Definition gcam_decide (c : gcam_ctx) : work Z :=
  ex ← perform (PathExists (g_dbxmlfile c));
  if ex : bool then
    clob ← get_clobber;
    if clob : bool then
      _ ← perform (Unlink (g_dbxmlfile c));
      gcam_run c
    else
      _ ← perform (SetResult "changed" (VInt 0));
      Ret 0%Z
  else gcam_run c.

(** [GcamComponent.run_component] *)
Definition GcamComponent_run_component : work Z :=
  c ← GcamComponent_prepare; gcam_decide c.

(** [key in self.cap_tbl] *)
Definition in_cap_tbl (name : string) : work bool :=
  tbl ← perform GetCapTbl; Ret (bool_decide (is_Some (tbl !! name))).

(** The eleven output files of the hydrology run, in the order of
    [alloutfiles]. *)
Record hydro_files := HydroFiles {
  qoutfile : string; foutfile : string; cqfile : string; cflxfile : string;
  basinqfile : string; cbasinqfile : string; rgnqfile : string;
  crgnqfile : string; basinqtblfile : string; rgnqtblfile : string;
  petoutfile : string
}.

Definition hydro_outputs (outputdir gcm scenario runid : string) : hydro_files :=
  let tag := gcm +:+ "_" +:+ scenario +:+ "_" +:+ runid in
  let qoutbase := outputdir +:+ "Avg_Runoff_235_" +:+ tag in
  let foutbase := outputdir +:+ "Avg_ChFlow_235_" +:+ tag in
  let boutbase := outputdir +:+ "basin_runoff_235_" +:+ tag in
  let routbase := outputdir +:+ "rgn_runoff_235_" +:+ tag in
  let petoutbase := outputdir +:+ "Avg_PET_235_" +:+ tag in
  {| qoutfile := qoutbase +:+ ".mat"; foutfile := foutbase +:+ ".mat";
     cqfile := qoutbase +:+ ".dat"; cflxfile := foutbase +:+ ".dat";
     basinqfile := boutbase +:+ ".mat"; cbasinqfile := boutbase +:+ ".dat";
     rgnqfile := routbase +:+ ".mat"; crgnqfile := routbase +:+ ".dat";
     basinqtblfile := boutbase +:+ ".csv"; rgnqtblfile := routbase +:+ ".csv";
     petoutfile := petoutbase +:+ ".mat" |}.

Definition alloutfiles (o : hydro_files) : list string :=
  [qoutfile o; foutfile o; cqfile o; cflxfile o; basinqfile o; cbasinqfile o;
   rgnqfile o; crgnqfile o; basinqtblfile o; rgnqtblfile o; petoutfile o].

(** The assignments of the file names to [self.results], in the order of
    the source. *)
Definition hydro_set_results (o : hydro_files) (runid : pyval) : work unit :=
  _ ← perform (SetResult "qoutfile" (VStr (qoutfile o)));
  _ ← perform (SetResult "foutfile" (VStr (foutfile o)));
  _ ← perform (SetResult "cqfile" (VStr (cqfile o)));
  _ ← perform (SetResult "cflxfile" (VStr (cflxfile o)));
  _ ← perform (SetResult "basinqfile" (VStr (basinqfile o)));
  _ ← perform (SetResult "cbasinqfile" (VStr (cbasinqfile o)));
  _ ← perform (SetResult "rgnqfile" (VStr (rgnqfile o)));
  _ ← perform (SetResult "crgnqfile" (VStr (crgnqfile o)));
  _ ← perform (SetResult "basinqtbl" (VStr (basinqtblfile o)));
  _ ← perform (SetResult "rgnqtbl" (VStr (rgnqtblfile o)));
  _ ← perform (SetResult "petoutfile" (VStr (petoutfile o)));
  perform (SetResult "runid" runid).

(** The command handed to matlab (the text of the f-string of the
    source). *)
Definition hydro_command (prefile tempfile dtrfile : string) (initstorage : pyval)
    (gridrgn : string) (startmonth : Z) (o : hydro_files) : string :=
  "run_future_hydro(" +:+ prefile +:+ ", " +:+ tempfile +:+ ", " +:+ dtrfile
  +:+ ", " +:+ py_str initstorage +:+ ", " +:+ gridrgn +:+ ", "
  +:+ pretty startmonth +:+ ", " +:+ qoutfile o +:+ ", " +:+ foutfile o
  +:+ ", " +:+ petoutfile o +:+ ", " +:+ basinqfile o +:+ ", " +:+ rgnqfile o.

(** What [HydroComponent.run_component] has at hand when it comes to look
    for existing results. *)
Record hydro_ctx := HydroCtx {
  h_workdir : string; h_logfile : string;
  h_prefile : string; h_tempfile : string; h_dtrfile : string;
  h_initstorage : pyval; h_startmonth : Z;
  h_out : hydro_files
}.

(** The hydrology run itself: the part of the body after the test for
    existing results. *)
Definition hydro_run (c : hydro_ctx) : work Z :=
  g ← fetch_capability "general";
  genparams ← perform (ReadDict g);
  rgnconfig ← subscript genparams "rgnconfig";
  rgnconfig ← as_str rgnconfig;
  let gridrgn := util_abspath E "grid2rgn_nonag.csv" (Some rgnconfig) in
  _ ← perform (OpenWrite (h_logfile c));
  let arglist := ["matlab"; "-nodisplay"; "-nosplash"; "-nodesktop";
                  "-singleCompThread"; "-r";
                  hydro_command (h_prefile c) (h_tempfile c) (h_dtrfile c)
                    (h_initstorage c) gridrgn (h_startmonth c) (h_out c)] in
  rc ← perform (Call arglist (h_workdir c));
  ok ← perform (AllExist (alloutfiles (h_out c)));
  if ok : bool then Ret rc else Ret 1%Z.

(** [HydroComponent.run_component], up to the assignments of the output
    file names to [self.results]. *)
Definition HydroComponent_prepare : work hydro_ctx :=
  wd ← param "workdir"; wd ← abspath wd None;
  inputdir ← param "inputdir"; inputdir ← abspath inputdir None;
  outputdir ← param "outputdir"; outputdir ← abspath outputdir None;
  gcm ← param "gcm";
  scenario ← param "scenario";
  runid ← param "runid";
  logfile ← param "logfile"; logfile ← abspath logfile None;
  p ← perform GetParams;
  startmonth ← match p !! "startmonth" with
               | Some v => to_int E v
               | None => Ret 1%Z
               end;
  _ ← perform (MkdirIfNoexist outputdir);
  hist ← in_cap_tbl "historical-hydro";
  initstorage ←
    (if hist : bool then
       h ← fetch_capability "historical-hydro";
       hist_rslts ← perform (ReadDict h);
       initstorage ← subscript hist_rslts "chstorfile";
       v ← subscript hist_rslts "foutfile";
       _ ← perform (SetResult "hist-fout" v);
       v ← subscript hist_rslts "qoutfile";
       _ ← perform (SetResult "hist-qout" v);
       Ret initstorage
     else
       f ← param "init-storage-file";
       f ← abspath f None;
       _ ← perform (SetResult "hist-fout" (VStr "/dev/null"));
       _ ← perform (SetResult "hist-qout" (VStr "/dev/null"));
       Ret (VStr f));
  b ← lacks_final_slash inputdir;
  let inputdir := if b : bool then inputdir +:+ "/" else inputdir in
  b ← lacks_final_slash outputdir;
  let outputdir := if b : bool then outputdir +:+ "/" else outputdir in
  gcm ← as_str gcm;
  scenario ← as_str scenario;
  runid_s ← as_str runid;
  let tag := gcm +:+ "_" +:+ scenario +:+ "_" +:+ runid_s +:+ ".mat" in
  let prefile := inputdir +:+ "pr_Amon_" +:+ tag in
  let tempfile := inputdir +:+ "tas_Amon_" +:+ tag in
  let dtrfile := inputdir +:+ "dtr_Amon_" +:+ tag in
  let msgpfx := "HydroComponent:  " in
  ex ← perform (PathExists prefile);
  _ ← ensure ex (IOError (msgpfx +:+ "missing input file: " +:+ prefile));
  ex ← perform (PathExists tempfile);
  _ ← ensure ex (IOError (msgpfx +:+ "missing input file: " +:+ tempfile));
  ex ← perform (PathExists dtrfile);
  _ ← ensure ex (IOError (msgpfx +:+ "missing input file: " +:+ dtrfile));
  let o := hydro_outputs outputdir gcm scenario runid_s in
  _ ← hydro_set_results o runid;
  Ret (HydroCtx wd logfile prefile tempfile dtrfile initstorage startmonth o).

(** The test for existing results and what follows it. *)
Definition hydro_decide (c : hydro_ctx) : work Z :=
  clob ← get_clobber;
  ok ← (if clob : bool then Ret false
        else perform (AllExist (alloutfiles (h_out c))));
  if ok : bool then
    _ ← perform (SetResult "changed" (VInt 0));
    Ret 0%Z
  else hydro_run c.

(** [HydroComponent.run_component] *)
Definition HydroComponent_run_component : work Z :=
  c ← HydroComponent_prepare; hydro_decide c.

End Bodies.

(** The body that [run_component] dispatches to for the classes modelled
    here; the bodies of the other classes are given from outside. *)
Definition run_component (E : externals) (others : class → work Z) (k : class)
  : work Z :=
  match k with
  | ComponentBase => ComponentBase_run_component
  | GlobalParamsComponent => GlobalParamsComponent_run_component E
  | GcamComponent => GcamComponent_run_component E
  | HydroComponent => HydroComponent_run_component E
  | _ => others k
  end.

(** ** The condition variable *)

(** Taking the lock: free, or held by the same thread (it is re-entrant). *)
Definition acquire (t : tid) (cv : condition) : option condition :=
  match owner cv with
  | None => Some (Condition (Some (t, 1%nat)) (waiting cv))
  | Some (t', n) =>
      if decide (t' = t) then Some (Condition (Some (t, S n)) (waiting cv))
      else None
  end.

(** Giving it back, which only the owner can do. *)
Definition release (t : tid) (cv : condition) : option condition :=
  match owner cv with
  | Some (t', S n) =>
      if decide (t' = t)
      then Some (Condition (match n with O => None | S _ => Some (t, n) end)
                   (waiting cv))
      else None
  | _ => None
  end.

(** [wait()]: the owner gives the lock up whole and joins the waiters; the
    number of times it held the lock is kept for its return. *)
Definition begin_wait (t : tid) (cv : condition) : option (nat * condition) :=
  match owner cv with
  | Some (t', n) =>
      if decide (t' = t) then Some (n, Condition None (waiting cv ++ [t]))
      else None
  | None => None
  end.

(** The return of [wait()]: the lock is taken again, as often as before. *)
Definition end_wait (t : tid) (n : nat) (cv : condition) : option condition :=
  match owner cv with
  | None => Some (Condition (Some (t, n)) (waiting cv))
  | Some _ => None
  end.

(** ** Threads *)

(** Where a thread stands inside [fetch]. *)
Inductive fpc :=
| FEnter               (* at [with self.condition] *)
| FLocked              (* inside, about to test [self.status == 0] *)
| FMustWait            (* has seen status 0, about to call [wait()] *)
| FWaiting (n : nat)   (* suspended in [wait()] *)
| FWoken (n : nat)     (* notified, has to take the lock again *)
| FResumed             (* [wait()] has returned, at the end of the block *)
| FLeft.               (* past the block, about to test [self.status != 1] *)

(** Where the thread of a component stands. *)
Inductive tstate :=
| TNew                                  (* not started *)
| TEnter                                (* at [with self.condition] of the wrapper *)
| TBody (w : work Z)                    (* inside [run_component] *)
| TFetch (d : cid) (pc : fpc) (k : exn + loc → work Z)   (* inside [d.fetch()] *)
| TFinally (e : option exn)             (* status set, at [notify_all()] *)
| TExit (e : option exn)                (* at the end of the with block *)
| TDone (e : option exn).               (* ended; [e] is what it raised *)

(** The main program: the three loops over [component_list] and the end. *)
Inductive mstate :=
| Starting (i : nat)
| Joining (i : nat)
| Checking (i : nat) (fail : nat)
| Finished (fail : nat).

Record sys := Sys {
  shared : mem;
  threads : list tstate;
  driver : mstate
}.

Definition put (t : tid) (ts : tstate) (m : mem) (s : sys) : sys :=
  Sys m (<[t := ts]> (threads s)) (driver s).

Definition put_cond (d : cid) (cv : condition) (m : mem) : mem :=
  update_comp d (set_cond cv) m.

(** What [fetch] does after the with block. *)
Definition fetch_outcome (x : component) : exn + loc :=
  if decide (status x = 1) then inr (results x)
  else inl (RuntimeError (class_repr (klass x) +:+
                            ": wait() returned with non-success status!")).

(** One step of thread [t] inside [d.fetch()]. *)
Definition fetch_step (t : tid) (d : cid) (pc : fpc) (k : exn + loc → work Z)
    (s : sys) : option sys :=
  x ← comps (shared s) !! d;
  match pc with
  | FEnter =>
      cv ← acquire t (cond x);
      Some (put t (TFetch d FLocked k) (put_cond d cv (shared s)) s)
  | FLocked =>
      if decide (status x = 0) then
        Some (put t (TFetch d FMustWait k) (shared s) s)
      else
        cv ← release t (cond x);
        Some (put t (TFetch d FLeft k) (put_cond d cv (shared s)) s)
  | FMustWait =>
      '(n, cv) ← begin_wait t (cond x);
      Some (put t (TFetch d (FWaiting n) k) (put_cond d cv (shared s)) s)
  | FWaiting _ => None
  | FWoken n =>
      cv ← end_wait t n (cond x);
      Some (put t (TFetch d FResumed k) (put_cond d cv (shared s)) s)
  | FResumed =>
      cv ← release t (cond x);
      Some (put t (TFetch d FLeft k) (put_cond d cv (shared s)) s)
  | FLeft => Some (put t (TBody (k (fetch_outcome x))) (shared s) s)
  end.

(** A waiter that [notify_all] releases. *)
Definition wake (ts : tstate) : tstate :=
  match ts with
  | TFetch d (FWaiting n) k => TFetch d (FWoken n) k
  | _ => ts
  end.

Definition wake_all (ws : list tid) (ths : list tstate) : list tstate :=
  foldr (λ t acc, alter wake t acc) ths ws.

Section Threads.
Context (E : externals) (body : cid → work Z).

(** One step of the thread of component [t]: [run_component_wrapper], with
    the body it runs and the fetches the body makes. *)
Definition thread_step (t : tid) (s : sys) : option sys :=
  ts ← threads s !! t;
  x ← comps (shared s) !! t;
  match ts with
  | TNew => None
  | TEnter =>
      cv ← acquire t (cond x);
      Some (put t (TBody (body t)) (put_cond t cv (shared s)) s)
  | TBody (Ret rv) =>
      if decide (rv = 0) then
        Some (put t (TFinally None) (update_comp t (set_status 1) (shared s)) s)
      else
        Some (put t (TBody (Raise (RuntimeError
                (class_repr (klass x) +:+ ":  run_component returned error code "
                 +:+ pretty rv)))) (shared s) s)
  | TBody (Raise e) =>
      Some (put t (TFinally (Some e)) (update_comp t (set_status 2) (shared s)) s)
  | TBody (Do o k) =>
      let '(r, m) := interp_op E t o (shared s) in
      Some (put t (TBody (k r)) m s)
  | TBody (Fetch d k) => Some (put t (TFetch d FEnter k) (shared s) s)
  | TFetch d pc k => fetch_step t d pc k s
  | TFinally e =>
      match owner (cond x) with
      | Some (t', _) =>
          if decide (t' = t) then
            Some (Sys (put_cond t (Condition (owner (cond x)) []) (shared s))
                    (<[t := TExit e]> (wake_all (waiting (cond x)) (threads s)))
                    (driver s))
          else None
      | None => None
      end
  | TExit e =>
      cv ← release t (cond x);
      Some (put t (TDone e) (put_cond t cv (shared s)) s)
  | TDone _ => None
  end.

(** One step of the main program.  [gcam_parse] appends every component it
    creates to [component_list], so the list is the components in the order
    of their creation, and thread [i] is the one [component.run()] starts
    for the i-th of them. *)
Definition main_step (s : sys) : option sys :=
  let n := length (comps (shared s)) in
  match driver s with
  | Starting i =>
      if decide (i < n)%nat then
        match threads s !! i with
        | Some TNew => Some (Sys (shared s) (<[i := TEnter]> (threads s)) (Starting (S i)))
        | _ => None
        end
      else Some (Sys (shared s) (threads s) (Joining 0))
  | Joining i =>
      if decide (i < n)%nat then
        match threads s !! i with
        | Some (TDone _) => Some (Sys (shared s) (threads s) (Joining (S i)))
        | _ => None
        end
      else Some (Sys (shared s) (threads s) (Checking 0 0))
  | Checking i fail =>
      match comps (shared s) !! i with
      | Some x =>
          Some (Sys (shared s) (threads s)
                  (Checking (S i) (if decide (status x = 1) then fail else S fail)))
      | None => Some (Sys (shared s) (threads s) (Finished fail))
      end
  | Finished _ => None
  end.

Inductive actor :=
| Main
| Thread (t : tid).

Definition step (a : actor) (s : sys) : option sys :=
  match a with
  | Main => main_step s
  | Thread t => thread_step t s
  end.

(** The run of a schedule: who moves, in turn. *)
Fixpoint run (sched : list actor) (s : sys) : option sys :=
  match sched with
  | [] => Some s
  | a :: rest => s' ← step a s; run rest s'
  end.

End Threads.

(** The state the main program starts from, after parsing. *)
Definition boot (m : mem) : sys :=
  Sys m (replicate (length (comps m)) TNew) (Starting 0).

(** Components as [__init__] leaves them: status 0, the condition free. *)
Definition pristine (x : component) : bool :=
  match owner (cond x), waiting (cond x) with
  | None, [] => Z.eqb (status x) 0
  | _, _ => false
  end.

Definition all_pristine (m : mem) : bool := forallb pristine (comps m).

(** ** Parsing: [gcam_parse]

    The configuration file arrives here as its section headers and its
    key-value lines, already matched; comments and blank lines are gone. *)
Inductive cfgline :=
| Header (section : string)
| KeyValue (key val : string).

Definition ascii_lower (a : ascii) : ascii :=
  let n := nat_of_ascii a in
  if (65 <=? n)%nat && (n <=? 90)%nat then ascii_of_nat (n + 32) else a.

Fixpoint str_lower (s : string) : string :=
  match s with
  | EmptyString => EmptyString
  | String a rest => String (ascii_lower a) (str_lower rest)
  end.

(** The classes a section header can name. *)
Definition class_of_name (s : string) : option class :=
  list_find (λ k, class_name k = s)
    [ComponentBase; GlobalParamsComponent; GcamComponent; HydroComponent;
     HistoricalHydroComponent; WaterDisaggregationComponent;
     NetcdfDemoComponent] ≫= λ p, Some p.2.

(** The loop over the lines: the component under construction, the list
    of the components created so far, and the store. *)
Fixpoint parse_lines (lines : list cfgline) (component : option cid)
    (component_list : list cid) (m : mem) : exn + (list cid * mem) :=
  match lines with
  | [] => inr (component_list, m)
  | Header section :: rest =>
      if String.eqb (str_lower section) "global" then
        let '(c, m') := GlobalParamsComponent_init m in
        parse_lines rest (Some c) (component_list ++ [c]) m'
      else
        match class_of_name section with
        | Some k =>
            let '(c, m') := construct k m in
            parse_lines rest (Some c) (component_list ++ [c]) m'
        | None => inl (RuntimeError ("name '" +:+ section +:+ "' is not defined"))
        end
  | KeyValue key val :: rest =>
      match component with
      | None =>
          inl (RuntimeError
                 "Malformed config file:  doesn't open with a section header.")
      | Some c => parse_lines rest component component_list (addparam c key val m)
      end
  end.

Fixpoint finalize_all (E : externals) (component_list : list cid) (m : mem)
  : exn + mem :=
  match component_list with
  | [] => inr m
  | c :: rest =>
      match finalize_parsing E c m with
      | inl e => inl e
      | inr m' => finalize_all E rest m'
      end
  end.

Definition gcam_parse (E : externals) (lines : list cfgline) (m : mem)
  : exn + (list cid * mem) :=
  match parse_lines lines None [] m with
  | inl e => inl e
  | inr (component_list, m') =>
      match finalize_all E component_list m' with
      | inl e => inl e
      | inr m'' => inr (component_list, m'')
      end
  end.

(** ** A body run by itself

    What the thread of [self] does with a piece of work when nothing else
    moves: every operation in turn; a fetch returns or raises at once when
    its component has finished, and blocks for good otherwise. *)
Inductive outcome (A : Type) :=
| Returned (a : A) (m : mem)
| Raised (e : exn) (m : mem)
| Blocks (d : cid) (m : mem).

Arguments Returned {A} a m.
Arguments Raised {A} e m.
Arguments Blocks {A} d m.

Definition final {A : Type} (o : outcome A) : mem :=
  match o with
  | Returned _ m | Raised _ m | Blocks _ m => m
  end.

Fixpoint exec (E : externals) (self : cid) {A : Type} (w : work A) (m : mem)
  : outcome A :=
  match w with
  | Ret a => Returned a m
  | Raise e => Raised e m
  | Do o k => let '(r, m') := interp_op E self o m in exec E self (k r) m'
  | Fetch d k =>
      match comps m !! d with
      | Some x =>
          if decide (status x = 0) then Blocks d m
          else exec E self (k (fetch_outcome x)) m
      | None => Blocks d m
      end
  end.

(** ** Examples: stand-ins for the outside, and two configurations *)

Definition strip_prefix (pre s : string) : option string :=
  if String.prefix pre s
  then Some (String.substring (String.length pre)
               (String.length s - String.length pre) s)
  else None.

Definition strip_suffix (suf s : string) : option string :=
  let n := (String.length s - String.length suf)%nat in
  if String.eqb (String.substring n (String.length suf) s) suf
  then Some (String.substring 0 n s)
  else None.

(** The text between an opening and the closing [</Value>] of a line that
    ends with it. *)
Definition value_of (name line : string) : option string :=
  let q := String (ascii_of_nat 34) EmptyString in
  strip_prefix ("<Value name=" +:+ q +:+ name +:+ q +:+ ">") line
    ≫= strip_suffix "</Value>".

Definition demo_externals : externals := {|
  util_abspath f d :=
    if String.prefix "/" f then f
    else match d with
         | Some d => d +:+ "/" +:+ f
         | None => "/work/" +:+ f
         end;
  util_parseTFstring s := String.eqb (str_lower s) "true";
  util_allexist ps f := forallb (λ p, bool_decide (is_Some (f !! p))) ps;
  util_mkdir_if_noexist p f :=
    match f !! p with
    | Some _ => f
    | None => <[p := []]> f
    end;
  os_path_dirname p := "/opt/gcam";
  os_path_join a b := a +:+ "/" +:+ b;
  str_lstrip s := s;
  dbxmlfpat := value_of "xmldb-location";
  dbenabledpat := value_of "write-xml-db";
  py_int s := if String.eqb s "1" then Some 1 else None;
  subprocess_call args dir f := (f, 0)
|}.

(** The bodies of the classes that are not modelled do nothing and
    succeed. *)
Definition demo_others (k : class) : work Z := Ret 0.

(** A file system with a GCAM installation whose database exists. *)
Definition demo_fs : fsys :=
  let q := String (ascii_of_nat 34) EmptyString in
  {[ "/opt/gcam/gcam.exe" := [];
     "/opt/gcam/config.xml" :=
       ["<Value name=" +:+ q +:+ "xmldb-location" +:+ q +:+ ">db.dbxml</Value>";
        "<Value name=" +:+ q +:+ "write-xml-db" +:+ q +:+ ">1</Value>"];
     "/opt/gcam/log.xml" := [];
     "/opt/gcam/db.dbxml" := [] ]}.

(** A configuration with the global section and one GCAM section that
    keeps existing output. *)
Definition demo_config : list cfgline :=
  [ Header "Global";
    KeyValue "ModelInterface" "/opt/mi.jar";
    KeyValue "DBXMLlib" "lib";
    Header "GcamComponent";
    KeyValue "exe" "/opt/gcam/gcam.exe";
    KeyValue "config" "/opt/gcam/config.xml";
    KeyValue "logconfig" "/opt/gcam/log.xml";
    KeyValue "clobber" "False" ].

(** A configuration whose GCAM section names an executable that is not
    there. *)
Definition broken_config : list cfgline :=
  [ Header "Global";
    KeyValue "ModelInterface" "/opt/mi.jar";
    KeyValue "DBXMLlib" "lib";
    Header "GcamComponent";
    KeyValue "exe" "/opt/gcam/missing.exe";
    KeyValue "config" "/opt/gcam/config.xml";
    KeyValue "logconfig" "/opt/gcam/log.xml" ].

Definition parsed (lines : list cfgline) : mem :=
  match gcam_parse demo_externals lines (empty_mem demo_fs "/work") with
  | inr (_, m) => m
  | inl _ => empty_mem demo_fs "/work"
  end.

Definition demo_mem : mem := parsed demo_config.
Definition broken_mem : mem := parsed broken_config.

(** The bodies of the components of a store, by class. *)
Definition body_of (E : externals) (others : class → work Z) (m : mem) (c : cid)
  : work Z :=
  match comps m !! c with
  | Some x => run_component E others (klass x)
  | None => Raise (RuntimeError "no such component")
  end.

(** ** What the general parameters are expected to hold after their run

    The dictionary [r] with [ModelInterface] and [DBXMLlib] made absolute,
    and with [inputdir] and [rgnconfig] made absolute after their defaults
    are filled in: [inputdir] relative to the working directory,
    [rgnconfig] relative to the new [inputdir]. *)
Definition str_or (v : option pyval) (dflt : string) : string :=
  match v with
  | Some (VStr s) => s
  | _ => dflt
  end.

Definition with_defaults (E : externals) (here mi db : string) (r : dict) : dict :=
  let inputdir := util_abspath E (str_or (r !! "inputdir") "./input-data") (Some here) in
  let rgnconfig := util_abspath E (str_or (r !! "rgnconfig") "rgn14") (Some inputdir) in
  <["rgnconfig" := VStr rgnconfig]>
    (<["inputdir" := VStr inputdir]>
       (<["DBXMLlib" := VStr (util_abspath E db None)]>
          (<["ModelInterface" := VStr (util_abspath E mi None)]> r))).

(** A parameter that is absent or a string, as the parser leaves it. *)
Definition str_or_absent (v : option pyval) : bool :=
  match v with
  | None | Some (VStr _) => true
  | Some _ => false
  end.

(** ** Notions the statements use *)

(** The results attribute of component [c] is the dictionary object [l],
    which holds [r]. *)
Definition own (m : mem) (c : cid) (l : loc) (r : dict) : Prop :=
  results <$> comps m !! c = Some l ∧ dicts m !! l = Some r.

(** [self.results["changed"]] *)
Definition changed_flag (m : mem) (c : cid) : option pyval :=
  r ← results_of m c; r !! "changed".

(** The key of [self.results] that an operation assigns, if any. *)
Definition assigns {X : Type} (o : op X) : option string :=
  match o with
  | SetResult key _ => Some key
  | _ => None
  end.

(** Does the operation start a subprocess? *)
Definition launches {X : Type} (o : op X) : bool :=
  match o with
  | Call _ _ => true
  | _ => false
  end.

(** A piece of work all of whose operations satisfy [P]. *)
Inductive only (P : ∀ X : Type, op X → Prop) {A : Type} : work A → Prop :=
| only_Ret a : only P (Ret a)
| only_Raise e : only P (Raise e)
| only_Do {X : Type} (o : op X) k :
    P X o → (∀ x, only P (k x)) → only P (Do o k)
| only_Fetch d k : (∀ r, only P (k r)) → only P (Fetch d k).

(** No assignment to [self.results[key]] occurs in the work. *)
Definition keeps (key : string) {A : Type} : work A → Prop :=
  only (λ X o, assigns o ≠ Some key).

(** No subprocess is started by the work. *)
Definition quiet {A : Type} : work A → Prop :=
  only (λ X o, launches o = false).

(** ** What holds in every state the program can reach *)

(** The status that goes with where the thread of a component stands. *)
Definition status_at (ts : tstate) : Z :=
  match ts with
  | TFinally None | TExit None | TDone None => 1
  | TFinally (Some _) | TExit (Some _) | TDone (Some _) => 2
  | _ => 0
  end.

(** Inside the with block of [fetch], the lock held. *)
Definition in_block (pc : fpc) : bool :=
  match pc with
  | FLocked | FMustWait | FResumed => true
  | _ => false
  end.

(** In [wait()], the lock given up. *)
Definition parked (pc : fpc) : bool :=
  match pc with
  | FWaiting _ | FWoken _ => true
  | _ => false
  end.

(** How many times thread [t], standing at [ts], holds the lock of the
    condition of component [d]: once for the with block of its own
    wrapper, once more inside the with block of a fetch; nothing of the
    lock of [d] while it waits on [d]. *)
Definition holds (t : tid) (d : cid) (ts : tstate) : nat :=
  match ts with
  | TBody _ | TFinally _ | TExit _ => if decide (t = d) then 1 else 0
  | TFetch d' pc _ =>
      if decide (d' = d) then
        if parked pc then 0
        else ((if decide (t = d) then 1 else 0) + (if in_block pc then 1 else 0))%nat
      else if decide (t = d) then 1 else 0
  | _ => 0
  end.

Definition owner_count (o : option (tid * nat)) (t : tid) : nat :=
  match o with
  | Some (t', n) => if decide (t' = t) then n else 0%nat
  | None => 0%nat
  end.

(** The count a thread has to restore when [wait()] on [d] returns. *)
Definition saved (t : tid) (d : cid) : nat := if decide (t = d) then 2 else 1.

(** The thread of a component has not yet called [notify_all]. *)
Definition before_notify (ts : tstate) : Prop :=
  match ts with
  | TExit _ | TDone _ => False
  | _ => True
  end.

Definition fetch_ok (s : sys) (t : tid) (d : cid) (pc : fpc) : Prop :=
  match pc with
  | FEnter => True
  | FLocked => is_Some (comps (shared s) !! d)
  | FMustWait => ∃ x, comps (shared s) !! d = Some x ∧ status x = 0
  | FWaiting n =>
      n = saved t d ∧ ∃ ts, threads s !! d = Some ts ∧ before_notify ts
  | FWoken n =>
      n = saved t d ∧ ∃ x, comps (shared s) !! d = Some x ∧ status x ≠ 0
  | FResumed | FLeft => ∃ x, comps (shared s) !! d = Some x ∧ status x ≠ 0
  end.

(** The number of components that did not succeed. *)
Definition count_failed (l : list component) : nat :=
  length (filter (λ x, status x ≠ 1) l).

Definition all_done (s : sys) : Prop :=
  ∀ t ts, threads s !! t = Some ts → ∃ e, ts = TDone e.

Definition driver_ok (s : sys) : Prop :=
  match driver s with
  | Starting i => ∀ t ts, threads s !! t = Some ts → (ts = TNew ↔ (i ≤ t)%nat)
  | Joining i =>
      (∀ t ts, threads s !! t = Some ts → ts ≠ TNew) ∧
      (∀ t ts, (t < i)%nat → threads s !! t = Some ts → ∃ e, ts = TDone e)
  | Checking i fail =>
      all_done s ∧ fail = count_failed (take i (comps (shared s)))
  | Finished fail => all_done s ∧ fail = count_failed (comps (shared s))
  end.

Record inv (s : sys) : Prop := Inv {
  inv_len : length (threads s) = length (comps (shared s));
  inv_status : ∀ c x ts,
    comps (shared s) !! c = Some x → threads s !! c = Some ts →
    status x = status_at ts;
  inv_lock : ∀ d x t ts,
    comps (shared s) !! d = Some x → threads s !! t = Some ts →
    holds t d ts = owner_count (owner (cond x)) t;
  inv_owner : ∀ d x t n,
    comps (shared s) !! d = Some x → owner (cond x) = Some (t, n) →
    (0 < n)%nat ∧ (t < length (threads s))%nat;
  inv_wait : ∀ d x t,
    comps (shared s) !! d = Some x →
    (t ∈ waiting (cond x) ↔ ∃ n k, threads s !! t = Some (TFetch d (FWaiting n) k));
  inv_fetch : ∀ t d pc k,
    threads s !! t = Some (TFetch d pc k) → fetch_ok s t d pc;
  inv_driver : driver_ok s
}.

(** ** The steps of a thread, case by case

    The same steps as [thread_step], each with what it changes. *)
Section Steps.
Context (E : externals) (body : cid → work Z).

Inductive tstep (t : tid) (s : sys) : sys → Prop :=
| step_enter x cv :
    threads s !! t = Some TEnter → comps (shared s) !! t = Some x →
    acquire t (cond x) = Some cv →
    tstep t s (put t (TBody (body t)) (put_cond t cv (shared s)) s)
| step_success x :
    threads s !! t = Some (TBody (Ret 0)) → comps (shared s) !! t = Some x →
    tstep t s (put t (TFinally None) (update_comp t (set_status 1) (shared s)) s)
| step_error_code x rv :
    threads s !! t = Some (TBody (Ret rv)) → comps (shared s) !! t = Some x →
    rv ≠ 0 →
    tstep t s (put t (TBody (Raise (RuntimeError
                 (class_repr (klass x) +:+ ":  run_component returned error code "
                  +:+ pretty rv)))) (shared s) s)
| step_failure x e :
    threads s !! t = Some (TBody (Raise e)) → comps (shared s) !! t = Some x →
    tstep t s (put t (TFinally (Some e)) (update_comp t (set_status 2) (shared s)) s)
| step_op {X : Type} x (o : op X) k :
    threads s !! t = Some (TBody (Do o k)) → comps (shared s) !! t = Some x →
    tstep t s (put t (TBody (k (interp_op E t o (shared s)).1))
                 (interp_op E t o (shared s)).2 s)
| step_call x d k :
    threads s !! t = Some (TBody (Fetch d k)) → comps (shared s) !! t = Some x →
    tstep t s (put t (TFetch d FEnter k) (shared s) s)
| step_lock d k x cv :
    threads s !! t = Some (TFetch d FEnter k) → comps (shared s) !! d = Some x →
    acquire t (cond x) = Some cv →
    tstep t s (put t (TFetch d FLocked k) (put_cond d cv (shared s)) s)
| step_pending d k x :
    threads s !! t = Some (TFetch d FLocked k) → comps (shared s) !! d = Some x →
    status x = 0 →
    tstep t s (put t (TFetch d FMustWait k) (shared s) s)
| step_ready d k x cv :
    threads s !! t = Some (TFetch d FLocked k) → comps (shared s) !! d = Some x →
    status x ≠ 0 → release t (cond x) = Some cv →
    tstep t s (put t (TFetch d FLeft k) (put_cond d cv (shared s)) s)
| step_wait d k x n cv :
    threads s !! t = Some (TFetch d FMustWait k) → comps (shared s) !! d = Some x →
    begin_wait t (cond x) = Some (n, cv) →
    tstep t s (put t (TFetch d (FWaiting n) k) (put_cond d cv (shared s)) s)
| step_relock d k x n cv :
    threads s !! t = Some (TFetch d (FWoken n) k) → comps (shared s) !! d = Some x →
    end_wait t n (cond x) = Some cv →
    tstep t s (put t (TFetch d FResumed k) (put_cond d cv (shared s)) s)
| step_unlock d k x cv :
    threads s !! t = Some (TFetch d FResumed k) → comps (shared s) !! d = Some x →
    release t (cond x) = Some cv →
    tstep t s (put t (TFetch d FLeft k) (put_cond d cv (shared s)) s)
| step_outcome d k x :
    threads s !! t = Some (TFetch d FLeft k) → comps (shared s) !! d = Some x →
    tstep t s (put t (TBody (k (fetch_outcome x))) (shared s) s)
| step_notify x e n :
    threads s !! t = Some (TFinally e) → comps (shared s) !! t = Some x →
    owner (cond x) = Some (t, n) →
    tstep t s (Sys (put_cond t (Condition (owner (cond x)) []) (shared s))
                 (<[t := TExit e]> (wake_all (waiting (cond x)) (threads s)))
                 (driver s))
| step_exit x e cv :
    threads s !! t = Some (TExit e) → comps (shared s) !! t = Some x →
    release t (cond x) = Some cv →
    tstep t s (put t (TDone e) (put_cond t cv (shared s)) s).

End Steps.

(** No two components share their results dictionary. *)
Definition distinct_results (m : mem) : bool :=
  bool_decide (NoDup (results <$> comps m)).

(** A file system with the inputs of a hydrology run. *)
Definition hydro_fs : fsys :=
  {[ "/in/pr_Amon_G_S_R.mat" := [];
     "/in/tas_Amon_G_S_R.mat" := [];
     "/in/dtr_Amon_G_S_R.mat" := [] ]}.

Definition hydro_section : list cfgline :=
  [ Header "HydroComponent";
    KeyValue "workdir" "/w";
    KeyValue "inputdir" "/in";
    KeyValue "outputdir" "/out";
    KeyValue "gcm" "G";
    KeyValue "scenario" "S";
    KeyValue "runid" "R";
    KeyValue "logfile" "/log";
    KeyValue "init-storage-file" "/init" ].

(** The global section and two hydrology sections, both of which need the
    general parameters. *)
Definition hydro_config : list cfgline :=
  [ Header "Global";
    KeyValue "ModelInterface" "/opt/mi.jar";
    KeyValue "DBXMLlib" "lib" ] ++ hydro_section ++ hydro_section.

(** The same with a global section that lacks [DBXMLlib], and with one
    that lacks [ModelInterface]. *)
Definition no_dbxmllib_config : list cfgline :=
  [ Header "Global"; KeyValue "ModelInterface" "/opt/mi.jar" ] ++ hydro_section.

Definition no_modelinterface_config : list cfgline :=
  [ Header "Global"; KeyValue "DBXMLlib" "lib" ] ++ hydro_section.

Definition parsed_on (f : fsys) (lines : list cfgline) : mem :=
  match gcam_parse demo_externals lines (empty_mem f "/work") with
  | inr (_, m) => m
  | inl _ => empty_mem f "/work"
  end.

Definition hydro_mem : mem := parsed_on hydro_fs hydro_config.
Definition no_dbxmllib_mem : mem := parsed_on hydro_fs no_dbxmllib_config.
Definition no_modelinterface_mem : mem := parsed_on hydro_fs no_modelinterface_config.

(** The program of an example: the bodies by class. *)
Definition demo_body (m : mem) : nat → work Z := body_of demo_externals demo_others m.

(** The state a schedule leads to, from the state after parsing. *)
Definition state_after (m : mem) (sched : list actor) : sys :=
  default (boot m) (run demo_externals (demo_body m) sched (boot m)).

(** A bound on the steps the main program has left once all threads have
    ended. *)
Definition main_left (s : sys) : nat :=
  let n := length (comps (shared s)) in
  match driver s with
  | Starting i => (2 * n + 4)%nat
  | Joining i => ((n - i) + n + 3)%nat
  | Checking i _ => ((n - i) + 1)%nat
  | Finished _ => 0%nat
  end.

(** A store with one GCAM component, and the store after a second one is
    built on it. *)
Definition one_gcam : mem := (GcamComponent_init (empty_mem ∅ "/")).2.
Definition two_gcam : mem := (GcamComponent_init one_gcam).2.

(** A store with the component of the general parameters alone. *)
Definition general_alone : mem := (GlobalParamsComponent_init (empty_mem ∅ "/")).2.

(** What holds of a store while the configuration is read: the component
    list is the components in the order of their creation, every component
    is as [__init__] left it, the dictionaries of the components exist,
    and no two components have the same results dictionary. *)
Record parsing (component_list : list cid) (m : mem) : Prop := Parsing {
  parsing_list : component_list = seq 0 (length (comps m));
  parsing_pristine : Forall (λ x, pristine x = true) (comps m);
  parsing_bound : Forall (λ x, (results x < length (dicts m))%nat) (comps m);
  parsing_distinct : NoDup (results <$> comps m)
}.

(** ** Schedules of the examples *)

(** The component at an index and the continuation of a thread inside
    [fetch], for reading them off a state. *)
Definition no_component : component :=
  Component ComponentBase 0 0 0 new_condition None.
Definition comp_at (s : sys) (c : cid) : component :=
  default no_component (comps (shared s) !! c).
Definition cont_at (s : sys) (t : tid) : exn + loc → work Z :=
  match threads s !! t with
  | Some (TFetch _ _ k) => k
  | _ => λ _, Ret 0
  end.

(** [demo_mem]: both threads started, the GCAM body run to its return. *)
Definition gcam_returns : list actor :=
  [Main; Main] ++ replicate 14 (Thread 1).

(** [broken_mem]: both threads started, the GCAM body run to its error;
    and on to the end of the thread; and the whole run. *)
Definition gcam_raises : list actor :=
  [Main; Main] ++ replicate 7 (Thread 1).
Definition gcam_thread_ends : list actor :=
  gcam_raises ++ replicate 3 (Thread 1).
Definition broken_run : list actor :=
  gcam_thread_ends ++ replicate 14 (Thread 0) ++ replicate 7 Main.

(** [hydro_mem]: the two hydrology threads run until they wait on the
    general parameters, the thread of these run up to its [notify_all];
    and on until the first caller has left the with block of [fetch]. *)
Definition two_waiting : list actor :=
  [Main; Main; Main] ++ replicate 35 (Thread 1) ++ replicate 35 (Thread 2)
    ++ replicate 12 (Thread 0).
Definition caller_leaves : list actor :=
  two_waiting ++ replicate 2 (Thread 0) ++ replicate 2 (Thread 1).

(** The general parameters fail for want of [DBXMLlib], or of
    [ModelInterface]; then the hydrology thread runs to its end. *)
Definition general_fails (steps : nat) : list actor :=
  [Main; Main] ++ replicate steps (Thread 0).
Definition then_hydro (steps : nat) : list actor :=
  general_fails steps ++ replicate 38 (Thread 1).

(** ** What the parser is expected to leave

    The key-value lines of each section as a dictionary, in the order of
    the sections; a later line for a key replaces an earlier one. *)
Fixpoint section_params (lines : list cfgline) (acc : list dict) : list dict :=
  match lines with
  | [] => acc
  | Header _ :: rest => section_params rest (acc ++ [∅])
  | KeyValue key val :: rest =>
      section_params rest (alter (insert key (VStr val)) (pred (length acc)) acc)
  end.

(** Component [c] is the last one created whose class enters itself under
    [name]. *)
Definition provides (m : mem) (name : string) (c : cid) : Prop :=
  (∃ x, comps m !! c = Some x ∧ capability (klass x) = Some name) ∧
  ∀ c' x', (c < c')%nat → comps m !! c' = Some x' →
           capability (klass x') ≠ Some name.

(** The value [finalize_parsing] gives [self.clobber] for a parameter
    dictionary. *)
Definition clobber_of (E : externals) (p : dict) : bool :=
  match p !! "clobber" with
  | Some (VStr s) => util_parseTFstring E s
  | _ => true
  end.

(** The store while the lines are read, against the dictionaries [acc] of
    the sections read so far: where the dictionaries of the components
    are, what they hold, and what the capability table holds. *)
Record parsed_layout (component : option cid) (m : mem) (acc : list dict)
  : Prop := ParsedLayout {
  layout_sections : length acc = length (comps m);
  layout_current :
    component = match length (comps m) with O => None | S n => Some n end;
  layout_dicts : length (dicts m) = (2 * length (comps m))%nat;
  layout_locs : ∀ c x, comps m !! c = Some x →
    params x = S (2 * c) ∧
    results x = if decide (klass x = GlobalParamsComponent) then S (2 * c)
                else (2 * c)%nat;
  layout_params : ∀ c, (c < length (comps m))%nat →
    dicts m !! S (2 * c) = acc !! c;
  layout_strings : ∀ c p key v, acc !! c = Some p → p !! key = Some v →
    ∃ s, v = VStr s;
  layout_results : ∀ c x, comps m !! c = Some x →
    klass x ≠ GlobalParamsComponent →
    dicts m !! (2 * c)%nat = Some {[ "changed" := VInt 1 ]};
  layout_cap_tbl : ∀ name c, cap_tbl m !! name = Some c ↔ provides m name c
}.

(** ** Threads that cannot move

    The threads listed are all inside a fetch on one of the list, each
    suspended in [wait()], or at the lock of a component whose own thread
    is inside a fetch on another. *)
Definition stuck_at (s : sys) (ws : list tid) (t : tid) : bool :=
  match threads s !! t with
  | Some (TFetch d (FWaiting _) _) => bool_decide (d ∈ ws)
  | Some (TFetch d FEnter _) =>
      bool_decide (d ∈ ws) &&
      match threads s !! d with
      | Some (TFetch d' _ _) => bool_decide (d' ≠ d)
      | _ => false
      end
  | _ => false
  end.

Definition stuck (s : sys) (ws : list tid) : bool := forallb (stuck_at s ws) ws.

Definition stuck_threads (s : sys) (ws : list tid) : Prop :=
  ∀ t, t ∈ ws →
    ∃ d pc k, threads s !! t = Some (TFetch d pc k) ∧ d ∈ ws ∧
      ((∃ n, pc = FWaiting n) ∨
       (pc = FEnter ∧
        ∃ d' pc' k', threads s !! d = Some (TFetch d' pc' k') ∧ d' ≠ d)).

(** A thread that is past the lock it needs: in its body, at the end of
    its wrapper, or inside or past the with block of a fetch. *)
Definition past_lock (ts : tstate) : bool :=
  match ts with
  | TBody _ | TFinally _ | TExit _ => true
  | TFetch _ pc _ => in_block pc || match pc with FLeft => true | _ => false end
  | _ => false
  end.

(** The component whose lock thread [t] is about to take. *)
Definition lock_wanted (t : tid) (ts : tstate) : option cid :=
  match ts with
  | TEnter => Some t
  | TFetch d FEnter _ | TFetch d (FWoken _) _ => Some d
  | _ => None
  end.

(** Two components whose bodies fetch from each other. *)
Definition crossed (c : cid) : work Z := _ ← fetch_from (1 - c)%nat; Ret 0.
Definition crossed_sched : list actor :=
  [Main; Main] ++ replicate 5 (Thread 0) ++ replicate 2 (Thread 1).
Definition crossed_state : sys :=
  default (boot two_gcam) (run demo_externals crossed crossed_sched (boot two_gcam)).

(** ** A thread that runs while the others rest *)

(** A thread that is not started, or at the entry of its wrapper, or has
    ended: it holds no lock and is in no fetch. *)
Definition idle (ts : tstate) : bool :=
  match ts with
  | TNew | TEnter | TDone _ => true
  | _ => false
  end.

Fixpoint idle_but (c : tid) (i : nat) (l : list tstate) : bool :=
  match l with
  | [] => true
  | ts :: l' => (Nat.eqb i c || idle ts) && idle_but c (S i) l'
  end.

(** Every thread but that of [c] is idle. *)
Definition alone (s : sys) (c : tid) : bool := idle_but c 0 (threads s).

Definition others_idle (s : sys) (c : tid) : Prop :=
  ∀ t ts, t ≠ c → threads s !! t = Some ts → idle ts = true.

(** [demo_mem] with both threads started and the GCAM thread in its
    body. *)
Definition gcam_enters : list actor := [Main; Main; Thread 1].

(** What is left of a piece of work that has come to its end. *)
Definition settled {A : Type} (o : outcome A) : option (work A) :=
  match o with
  | Returned a _ => Some (Ret a)
  | Raised e _ => Some (Raise e)
  | Blocks _ _ => None
  end.

(** The status the wrapper sets for what the body did, and what the
    wrapper lets out of the thread. *)
Definition wrapper_status (o : outcome Z) : Z :=
  match o with
  | Returned rv _ => if decide (rv = 0) then 1 else 2
  | _ => 2
  end.

Definition wrapper_raises (k : class) (o : outcome Z) : option exn :=
  match o with
  | Returned rv _ =>
      if decide (rv = 0) then None
      else Some (RuntimeError (class_repr k +:+
                   ":  run_component returned error code " +:+ pretty rv))
  | Raised e _ => Some e
  | Blocks _ _ => None
  end.

(** ** The components run one after another

    [run_component_wrapper] of component [c] with nothing else moving: the
    lock taken, the body run by itself, the status set, the lock given
    back.  There is no result when the body waits for a component that has
    not finished. *)
Definition wrapper_in_turn (E : externals) (w : work Z) (c : cid) (m : mem)
  : option mem :=
  let out := exec E c w (put_cond c (Condition (Some (c, 1%nat)) []) m) in
  match settled out with
  | Some _ =>
      Some (put_cond c (Condition None [])
              (update_comp c (set_status (wrapper_status out)) (final out)))
  | None => None
  end.

(** The wrappers of the components [cs], each on the store the one before
    has left. *)
Fixpoint in_turn (E : externals) (body : cid → work Z) (cs : list cid) (m : mem)
  : option mem :=
  match cs with
  | [] => Some m
  | c :: cs' => m' ← wrapper_in_turn E (body c) c m; in_turn E body cs' m'
  end.

(** [demo_mem] after its two components have run in turn. *)
Definition demo_in_turn : mem :=
  default demo_mem
    (in_turn demo_externals (demo_body demo_mem)
       (seq 0 (length (comps demo_mem))) demo_mem).

(** ** The GCAM run in terms of its parameters *)

(** The file system after [open(logfile, "w")], when there is a log
    file. *)
Definition with_logfile (lf : option pyval) (f : fsys) : fsys :=
  match lf with
  | Some (VStr p) => <[p := []]> f
  | _ => f
  end.

(** The first of the three files GCAM needs that is not there. *)
Definition first_missing (f : fsys) (files : list string) : option string :=
  find (λ p, negb (bool_decide (is_Some (f !! p)))) files.

(** The arguments GCAM is started with. *)
Definition gcam_args (ctx : gcam_ctx) : list string :=
  [g_exe ctx; "-C" +:+ g_cfg ctx; "-L" +:+ g_logcfg ctx].

(** What is left of the GCAM run once it has decided to run: refused
    when the configuration switches the database off, started
    otherwise. *)
Definition gcam_refused : exn :=
  RuntimeError ("GcamComponent: " +:+
    "Config file has dbxml input turned off.  Running GCAM would be futile.").

(** A GCAM installation without a database, whose configuration has the
    line that switches the database off before the line that names it;
    and one whose configuration names no database. *)
Definition early_off_fs : fsys :=
  let q := String (ascii_of_nat 34) EmptyString in
  {[ "/opt/gcam/gcam.exe" := [];
     "/opt/gcam/config.xml" :=
       ["<Value name=" +:+ q +:+ "write-xml-db" +:+ q +:+ ">0</Value>";
        "<Value name=" +:+ q +:+ "xmldb-location" +:+ q +:+ ">db.dbxml</Value>"];
     "/opt/gcam/log.xml" := [] ]}.

Definition no_location_fs : fsys :=
  let q := String (ascii_of_nat 34) EmptyString in
  {[ "/opt/gcam/gcam.exe" := [];
     "/opt/gcam/config.xml" :=
       ["<Value name=" +:+ q +:+ "write-xml-db" +:+ q +:+ ">1</Value>"];
     "/opt/gcam/log.xml" := [] ]}.

Definition early_off_mem : mem := parsed_on early_off_fs demo_config.
Definition no_location_mem : mem := parsed_on no_location_fs demo_config.

(** ** The hydrology run in terms of its parameters *)

(** A directory name with the final slash the components add when it is
    not there. *)
Definition with_slash (s : string) : string :=
  match last (String.list_ascii_of_string s) with
  | Some a => if Ascii.eqb a "/"%char then s else s +:+ "/"
  | None => s
  end.

(** The three input files of a hydrology run. *)
Definition hydro_inputs (inputdir gcm scenario runid : string) : list string :=
  let tag := gcm +:+ "_" +:+ scenario +:+ "_" +:+ runid +:+ ".mat" in
  [inputdir +:+ "pr_Amon_" +:+ tag; inputdir +:+ "tas_Amon_" +:+ tag;
   inputdir +:+ "dtr_Amon_" +:+ tag].

(** The entries the hydrology run makes in its results for its output
    files, in the order of the source. *)
Definition hydro_results (o : hydro_files) (runid : pyval) (r : dict) : dict :=
  <["runid" := runid]>
  (<["petoutfile" := VStr (petoutfile o)]>
  (<["rgnqtbl" := VStr (rgnqtblfile o)]>
  (<["basinqtbl" := VStr (basinqtblfile o)]>
  (<["crgnqfile" := VStr (crgnqfile o)]>
  (<["rgnqfile" := VStr (rgnqfile o)]>
  (<["cbasinqfile" := VStr (cbasinqfile o)]>
  (<["basinqfile" := VStr (basinqfile o)]>
  (<["cflxfile" := VStr (cflxfile o)]>
  (<["cqfile" := VStr (cqfile o)]>
  (<["foutfile" := VStr (foutfile o)]>
  (<["qoutfile" := VStr (qoutfile o)]> r))))))))))).

(** A hydrology section that keeps existing output, alone in its
    configuration, on a file system where all its output is there. *)
Definition hydro_cached_fs : fsys :=
  foldr (λ p f, <[p := []]> f) hydro_fs
    (alloutfiles (hydro_outputs "/out/" "G" "S" "R")).

Definition hydro_cached_config : list cfgline :=
  hydro_section ++ [KeyValue "clobber" "False"].

Definition hydro_cached_mem : mem := parsed_on hydro_cached_fs hydro_cached_config.
Definition hydro_alone_mem : mem := parsed_on hydro_fs hydro_section.

(** ** The historical hydrology run

    [HistoricalHydroComponent.run_component].  Its call of [util.abspath]
    with three arguments is a parameter of its own. *)

(** The six output files of the historical run. *)
Record hist_files := HistFiles {
  hh_qoutfile : string; hh_foutfile : string; hh_petoutfile : string;
  hh_chstorfile : string; hh_basinqtblfile : string; hh_rgnqtblfile : string
}.

Definition hist_outputs (outputdir gcm scenario runid : string) : hist_files :=
  let tag := gcm +:+ "_" +:+ scenario +:+ "_" +:+ runid in
  {| hh_qoutfile := outputdir +:+ "Avg_Runoff_235_" +:+ tag +:+ ".mat";
     hh_petoutfile := outputdir +:+ "Avg_PET_235_" +:+ tag +:+ ".mat";
     hh_basinqtblfile := outputdir +:+ "basin_runoff_235_" +:+ tag +:+ ".csv";
     hh_rgnqtblfile := outputdir +:+ "rgn_runoff_235_" +:+ tag +:+ ".csv";
     hh_foutfile := outputdir +:+ "Avg_ChFlow_235_" +:+ tag +:+ ".mat";
     hh_chstorfile := outputdir +:+ "InitChStor_" +:+ tag +:+ ".mat" |}.

(** [alloutfiles], in the order of the source. *)
Definition hist_alloutfiles (o : hist_files) : list string :=
  [hh_qoutfile o; hh_foutfile o; hh_petoutfile o; hh_chstorfile o;
   hh_basinqtblfile o; hh_rgnqtblfile o].

Definition hist_set_results (o : hist_files) : work unit :=
  _ ← perform (SetResult "qoutfile" (VStr (hh_qoutfile o)));
  _ ← perform (SetResult "foutfile" (VStr (hh_foutfile o)));
  _ ← perform (SetResult "chstorfile" (VStr (hh_chstorfile o)));
  _ ← perform (SetResult "basinqtbl" (VStr (hh_basinqtblfile o)));
  _ ← perform (SetResult "rgnqtbl" (VStr (hh_rgnqtblfile o)));
  perform (SetResult "petoutfile" (VStr (hh_petoutfile o))).

(** The command handed to matlab: the format string of the source with
    its arguments filled in; the starting month in it is the constant 1. *)
Definition hist_command (prefile tempfile dtrfile gridrgn : string)
    (o : hist_files) : string :=
  "run_historical_hydro('" +:+ prefile +:+ "', '" +:+ tempfile +:+ "', '"
  +:+ dtrfile +:+ "', '" +:+ gridrgn +:+ "', " +:+ pretty 1%Z +:+ ", '"
  +:+ hh_chstorfile o +:+ "', '" +:+ hh_qoutfile o +:+ "','" +:+ hh_foutfile o
  +:+ "', '" +:+ hh_petoutfile o +:+ "', '" +:+ hh_basinqtblfile o +:+ "', '"
  +:+ hh_rgnqtblfile o +:+ "', '/dev/null');exit".

Record hist_ctx := HistCtx {
  hc_workdir : string; hc_logfile : string;
  hc_prefile : string; hc_tempfile : string; hc_dtrfile : string;
  hc_startmonth : Z;
  hc_out : hist_files
}.

Section Historical.
Context (E : externals).
(** [util.abspath(filename, defaultpath, tag)] *)
Context (util_abspath3 : string → string → string → string).

(** The part of the body after the test for existing results. *)
Definition hist_run (c : hist_ctx) : work Z :=
  g ← fetch_capability "general";
  genparams ← perform (ReadDict g);
  rgnconfig ← subscript genparams "rgnconfig";
  rgnconfig ← as_str rgnconfig;
  let gridrgn :=
    util_abspath3 "grid2rgn_nonag.csv" rgnconfig "HistoricalHydroComponent" in
  _ ← perform (OpenWrite (hc_logfile c));
  let arglist := ["matlab"; "-nodisplay"; "-nosplash"; "-nodesktop";
                  "-singleCompThread"; "-r";
                  hist_command (hc_prefile c) (hc_tempfile c) (hc_dtrfile c)
                    gridrgn (hc_out c)] in
  rc ← perform (Call arglist (hc_workdir c));
  ok ← perform (AllExist (hist_alloutfiles (hc_out c)));
  if ok : bool then Ret rc else Ret 1%Z.

(** The body up to the assignments of the output file names to
    [self.results]. *)
Definition HistoricalHydroComponent_prepare : work hist_ctx :=
  wd ← param "workdir"; wd ← abspath E wd None;
  inputdir ← param "inputdir"; inputdir ← abspath E inputdir None;
  outputdir ← param "outputdir"; outputdir ← abspath E outputdir None;
  gcm ← param "gcm";
  let scenario := "historical" in
  runid ← param "runid";
  logfile ← param "logfile"; logfile ← abspath E logfile None;
  p ← perform GetParams;
  startmonth ← match p !! "startmonth" with
               | Some v => to_int E v
               | None => Ret 1%Z
               end;
  _ ← perform (MkdirIfNoexist outputdir);
  b ← lacks_final_slash inputdir;
  let inputdir := if b : bool then inputdir +:+ "/" else inputdir in
  b ← lacks_final_slash outputdir;
  let outputdir := if b : bool then outputdir +:+ "/" else outputdir in
  gcm ← as_str gcm;
  runid ← as_str runid;
  let tag := gcm +:+ "_" +:+ scenario +:+ "_" +:+ runid +:+ ".mat" in
  let prefile := inputdir +:+ "pr_Amon_" +:+ tag in
  let tempfile := inputdir +:+ "tas_Amon_" +:+ tag in
  let dtrfile := inputdir +:+ "dtr_Amon_" +:+ tag in
  let msgpfx := "HistoricalHydroComponent:  " in
  ex ← perform (PathExists prefile);
  _ ← ensure ex (IOError (msgpfx +:+ "missing input file: " +:+ prefile));
  ex ← perform (PathExists tempfile);
  _ ← ensure ex (IOError (msgpfx +:+ "missing input file: " +:+ tempfile));
  ex ← perform (PathExists dtrfile);
  _ ← ensure ex (IOError (msgpfx +:+ "missing input file: " +:+ dtrfile));
  let o := hist_outputs outputdir gcm scenario runid in
  _ ← hist_set_results o;
  Ret (HistCtx wd logfile prefile tempfile dtrfile startmonth o).

(** The test for existing results and what follows it. *)
Definition hist_decide (c : hist_ctx) : work Z :=
  clob ← get_clobber;
  ok ← (if clob : bool then Ret false
        else perform (AllExist (hist_alloutfiles (hc_out c))));
  if ok : bool then
    _ ← perform (SetResult "changed" (VInt 0));
    Ret 0%Z
  else hist_run c.

(** [HistoricalHydroComponent.run_component] *)
Definition HistoricalHydroComponent_run_component : work Z :=
  c ← HistoricalHydroComponent_prepare; hist_decide c.
End Historical.

(** A historical hydrology section that keeps existing output, on a file
    system where all its output is there. *)
Definition hist_section : list cfgline :=
  [ Header "HistoricalHydroComponent";
    KeyValue "workdir" "/w";
    KeyValue "inputdir" "/in";
    KeyValue "outputdir" "/out";
    KeyValue "gcm" "G";
    KeyValue "runid" "R";
    KeyValue "logfile" "/log";
    KeyValue "clobber" "False" ].

Definition hist_cached_fs : fsys :=
  foldr (λ p f, <[p := []]> f)
    {[ "/in/pr_Amon_G_historical_R.mat" := [];
       "/in/tas_Amon_G_historical_R.mat" := [];
       "/in/dtr_Amon_G_historical_R.mat" := [] ]}
    (hist_alloutfiles (hist_outputs "/out/" "G" "historical" "R")).

Definition hist_cached_mem : mem := parsed_on hist_cached_fs hist_section.

(** The call of [util.abspath] with a tag, for the examples. *)
Definition demo_abspath3 (f d tag : string) : string :=
  util_abspath demo_externals f (Some d).

(** A historical section followed by a hydrology section, on a file system
    with the input of both and the output of the historical run; and the
    store once the historical run has ended well there. *)
Definition history_config : list cfgline := hist_section ++ hydro_section.

Definition history_fs : fsys := hist_cached_fs ∪ hydro_fs.

Definition history_done_mem : mem :=
  update_comp 0 (set_status 1)
    (final (exec demo_externals 0
              (HistoricalHydroComponent_run_component demo_externals demo_abspath3)
              (parsed_on history_fs history_config))).

(** * Properties *)

(** ** The store *)

Lemma put_dict_twice l r1 r2 m : put_dict l r2 (put_dict l r1 m) = put_dict l r2 m.
Proof. unfold put_dict, with_dicts. cbn. by rewrite list_insert_insert_eq. Qed.

Lemma own_results_of m c l r : own m c l r → results_of m c = Some r.
Proof.
  intros [Hc Hr]. unfold results_of.
  destruct (comps m !! c) as [x|]; [|done]. cbn in *. by simplify_eq.
Qed.

Lemma own_put_dict m c l r r' : own m c l r → own (put_dict l r' m) c l r'.
Proof.
  intros [Hc Hr]. split; [done|]. cbn.
  apply list_lookup_insert_eq. by eapply lookup_lt_Some.
Qed.

Lemma update_comp_lookup c f m x :
  comps m !! c = Some x → comps (update_comp c f m) !! c = Some (f x).
Proof.
  intros Hc. unfold update_comp. rewrite Hc. cbn.
  apply list_lookup_insert_eq. by eapply lookup_lt_Some.
Qed.

Lemma update_comp_lookup_ne c d f m :
  c ≠ d → comps (update_comp c f m) !! d = comps m !! d.
Proof.
  intros Hne. unfold update_comp. destruct (comps m !! c); [|done]. cbn.
  by apply list_lookup_insert_ne.
Qed.

Lemma update_comp_length c f m :
  length (comps (update_comp c f m)) = length (comps m).
Proof.
  unfold update_comp. destruct (comps m !! c); [|done]. cbn. apply length_insert.
Qed.

Lemma update_comp_dicts c f m : dicts (update_comp c f m) = dicts m.
Proof. unfold update_comp. by destruct (comps m !! c). Qed.

(** ** Construction and the capability table *)

Lemma construct_fst k m : (construct k m).1 = length (comps m).
Proof. by destruct k. Qed.

Lemma construct_cap_tbl k m :
  cap_tbl (construct k m).2 =
  match capability k with
  | Some name => <[name := length (comps m)]> (cap_tbl m)
  | None => cap_tbl m
  end.
Proof.
  destruct k; cbn; try reflexivity.
  unfold update_comp. cbn.
  rewrite lookup_app_r by lia. by rewrite Nat.sub_diag.
Qed.

Lemma construct_comps_old k m c :
  (c < length (comps m))%nat → comps (construct k m).2 !! c = comps m !! c.
Proof.
  intros Hc. destruct k; cbn; rewrite ?lookup_app_l; try done.
  unfold update_comp; cbn. rewrite lookup_app_r by lia. rewrite Nat.sub_diag. cbn.
  rewrite list_lookup_insert_ne by lia. by rewrite lookup_app_l.
Qed.

Lemma construct_new k m :
  comps (construct k m).2 !! length (comps m) =
  Some (Component k 0
          (if decide (k = GlobalParamsComponent) then S (length (dicts m))
           else length (dicts m))
          (S (length (dicts m))) new_condition None).
Proof.
  destruct k; cbn; rewrite ?lookup_app_r by lia; rewrite ?Nat.sub_diag; try done.
  unfold update_comp; cbn. rewrite lookup_app_r by lia. rewrite Nat.sub_diag. cbn.
  rewrite list_lookup_insert_eq; [done|]. rewrite length_app. cbn. lia.
Qed.

Lemma construct_dicts k m :
  dicts (construct k m).2 = (dicts m ++ [ {["changed" := VInt 1]} ; ∅ ])%list.
Proof.
  destruct k; cbn; try done.
  unfold update_comp; cbn. rewrite lookup_app_r by lia. by rewrite Nat.sub_diag.
Qed.

(** ** Bodies run by themselves *)

Lemma exec_bind E self {A B} (w : work A) (f : A → work B) m :
  exec E self (w ≫= f) m =
  match exec E self w m with
  | Returned a m' => exec E self (f a) m'
  | Raised e m' => Raised e m'
  | Blocks d m' => Blocks d m'
  end.
Proof.
  revert m. induction w as [a|e|X o k IH|d k IH]; intros m; cbn; try done.
  - destruct (interp_op E self o m) as [r m']. apply IH.
  - destruct (comps m !! d) as [x|]; [|done]. case_decide; [done|]. apply IH.
Qed.

Lemma exec_perform E c {X} (o : op X) m :
  exec E c (perform o) m =
  Returned (interp_op E c o m).1 (interp_op E c o m).2.
Proof. unfold perform. cbn. by destruct (interp_op E c o m). Qed.

Lemma exec_get_results E c m l r :
  own m c l r → exec E c (perform GetResults) m = Returned r m.
Proof. intros Hown. rewrite exec_perform. cbn. by rewrite (own_results_of _ _ _ _ Hown). Qed.

Lemma exec_set E c key v m l r :
  own m c l r →
  exec E c (perform (SetResult key v)) m =
  Returned tt (put_dict l (<[key := v]> r) m).
Proof.
  intros [Hc Hr]. rewrite exec_perform. cbn.
  destruct (comps m !! c) as [x|]; [|done]. cbn in Hc. simplify_eq.
  unfold dict_store, deref. by rewrite Hr.
Qed.

Lemma exec_subscript E c {d : dict} {key v} m :
  d !! key = Some v → exec E c (subscript d key) m = Returned v m.
Proof. intros Hv. unfold subscript. by rewrite Hv. Qed.

Lemma exec_result E c key m l r v :
  own m c l r → r !! key = Some v → exec E c (result key) m = Returned v m.
Proof.
  intros Hown Hv. unfold result.
  rewrite exec_bind, (exec_get_results _ _ _ _ _ Hown). by apply exec_subscript.
Qed.

Lemma exec_in_results E c key m l r :
  own m c l r →
  exec E c (in_results key) m = Returned (bool_decide (is_Some (r !! key))) m.
Proof.
  intros Hown. unfold in_results.
  by rewrite exec_bind, (exec_get_results _ _ _ _ _ Hown).
Qed.

Lemma exec_abspath E c s d m :
  exec E c (abspath E (VStr s) d) m = Returned (util_abspath E s d) m.
Proof. done. Qed.

Lemma exec_as_str E c s m : exec E c (as_str (VStr s)) m = Returned s m.
Proof. done. Qed.

Lemma exec_getcwd E c m : exec E c (perform Getcwd) m = Returned (cwd m) m.
Proof. done. Qed.

Lemma exec_or_default E c key dflt m l r :
  own m c l r → str_or_absent (r !! key) = true →
  exec E c (if bool_decide (is_Some (r !! key)) then result key
            else Ret (VStr dflt)) m
  = Returned (VStr (str_or (r !! key) dflt)) m.
Proof.
  intros Hown Hs. destruct (r !! key) as [[s| | |]|] eqn:Hk; try discriminate.
  - rewrite bool_decide_eq_true_2 by eauto. by eapply exec_result.
  - by rewrite bool_decide_eq_false_2 by (by intros [? ?]).
Qed.

Ltac step H := rewrite exec_bind, H; cbn beta iota.

(** The run of the general parameters rewrites the dictionary its results
    refer to. *)
Lemma GlobalParams_run E c m l r mi db :
  own m c l r →
  r !! "ModelInterface" = Some (VStr mi) → r !! "DBXMLlib" = Some (VStr db) →
  str_or_absent (r !! "inputdir") = true → str_or_absent (r !! "rgnconfig") = true →
  exec E c (GlobalParamsComponent_run_component E) m =
  Returned 0 (put_dict l (with_defaults E (cwd m) mi db r) m).
Proof.
  intros Hown Hmi Hdb Hin Hrg.
  unfold GlobalParamsComponent_run_component, with_defaults.
  step (exec_result E c _ _ _ _ _ Hown Hmi).
  step exec_abspath.
  step (exec_set E c "ModelInterface" (VStr (util_abspath E mi None)) _ _ _ Hown).
  eapply own_put_dict in Hown as Hown1.
  erewrite exec_bind, (exec_result E c _ _ _ _ _ Hown1);
    [|by rewrite lookup_insert_ne]. cbn beta iota.
  step exec_abspath.
  step (exec_set E c "DBXMLlib" (VStr (util_abspath E db None)) _ _ _ Hown1).
  rewrite put_dict_twice. clear Hown1.
  eapply own_put_dict in Hown as Hown2.
  step (exec_in_results E c "inputdir" _ _ _ Hown2).
  erewrite exec_bind, (exec_or_default E c "inputdir" _ _ _ _ Hown2);
    [|by rewrite !lookup_insert_ne]. cbn beta iota.
  rewrite !lookup_insert_ne by done.
  step exec_getcwd. step exec_abspath.
  change (cwd (put_dict _ _ m)) with (cwd m).
  step (exec_set E c "inputdir"
          (VStr (util_abspath E (str_or (r !! "inputdir") "./input-data") (Some (cwd m))))
          _ _ _ Hown2).
  rewrite put_dict_twice. clear Hown2.
  eapply own_put_dict in Hown as Hown3.
  step (exec_in_results E c "rgnconfig" _ _ _ Hown3).
  erewrite exec_bind, (exec_or_default E c "rgnconfig" _ _ _ _ Hown3);
    [|by rewrite !lookup_insert_ne]. cbn beta iota.
  rewrite !(lookup_insert_ne _ _ "rgnconfig") by done.
  erewrite exec_bind, (exec_result E c "inputdir" _ _ _ _ Hown3);
    [|apply lookup_insert_eq]. cbn beta iota.
  step exec_as_str. step exec_abspath.
  step (exec_set E c "rgnconfig"
          (VStr (util_abspath E (str_or (r !! "rgnconfig") "rgn14")
                   (Some (util_abspath E (str_or (r !! "inputdir") "./input-data")
                            (Some (cwd m))))))
          _ _ _ Hown3).
  by rewrite put_dict_twice.
Qed.

(** [addparam] on a component whose results are its params shows in the
    results. *)
Lemma addparam_shared m c x r key value :
  comps m !! c = Some x → results x = params x → dicts m !! params x = Some r →
  own (addparam c key value m) c (results x) (<[key := VStr value]> r) ∧
  params_of (addparam c key value m) c = Some (<[key := VStr value]> r) ∧
  comps (addparam c key value m) = comps m.
Proof.
  intros Hc Hrp Hr. unfold addparam. rewrite Hc.
  unfold dict_store, deref. rewrite Hr. cbn.
  assert (params x < length (dicts m))%nat by by eapply lookup_lt_Some.
  split; [|split; [|done]].
  - split; cbn; [by rewrite Hc|]. rewrite Hrp. by apply list_lookup_insert_eq.
  - unfold params_of. cbn. rewrite Hc. cbn. by apply list_lookup_insert_eq.
Qed.

(** ** Work that leaves a key, or the subprocesses, alone *)

Lemma only_bind P {A B} (w : work A) (f : A → work B) :
  only P w → (∀ a, only P (f a)) → only P (w ≫= f).
Proof.
  intros Hw Hf. induction Hw as [a|e|X o k Ho Hk IH|d k Hk IH]; cbn.
  - apply Hf.
  - constructor.
  - constructor; [done|]. apply IH.
  - constructor. apply IH.
Qed.

Lemma only_perform (P : ∀ X : Type, op X → Prop) {X} (o : op X) :
  P X o → only P (perform o).
Proof. intros Ho. constructor; [done|]. constructor. Qed.

Lemma exec_only E c (P : ∀ X : Type, op X → Prop) (R : mem → mem → Prop) :
  (∀ m, R m m) → (∀ m1 m2 m3, R m1 m2 → R m2 m3 → R m1 m3) →
  (∀ X (o : op X) m, P X o → R m (interp_op E c o m).2) →
  ∀ A (w : work A) m, only P w → R m (final (exec E c w m)).
Proof.
  intros Hrefl Htrans Hop A w m Hw. revert m.
  induction Hw as [a|e|X o k Ho Hk IH|d k Hk IH]; intros m; cbn; try done.
  - specialize (Hop X o m Ho). destruct (interp_op E c o m) as [r m'].
    eapply Htrans; [apply Hop|apply IH].
  - destruct (comps m !! d) as [x|]; [|apply Hrefl].
    case_decide; [apply Hrefl|apply IH].
Qed.

(** No operation of a body touches the component objects. *)
Lemma interp_op_comps E c {X} (o : op X) m : comps (interp_op E c o m).2 = comps m.
Proof.
  destruct o; cbn; try done.
  - by destruct (comps m !! c).
  - by destruct (subprocess_call E args dir (fs m)).
Qed.

(** An operation leaves the dictionary of the results in place; only an
    assignment changes what it holds, and only at its key. *)
Lemma interp_op_own E c {X} (o : op X) m l r :
  own m c l r →
  ∃ r', own (interp_op E c o m).2 c l r' ∧
        ∀ key, assigns o ≠ Some key → r' !! key = r !! key.
Proof.
  intros Hown. destruct o; cbn;
    try (exists r; split; [exact Hown|done]).
  - destruct Hown as [Hc Hr]. destruct (comps m !! c) as [x|] eqn:Hx; [|done].
    cbn in Hc. simplify_eq. unfold dict_store, deref. rewrite Hr. cbn.
    exists (<[key := v]> r). split.
    + apply (own_put_dict _ _ _ r). split; [by rewrite Hx|done].
    + intros key' Hne. apply lookup_insert_ne. congruence.
  - destruct (subprocess_call E args dir (fs m)) as [f rc]. cbn.
    exists r. split; [exact Hown|done].
Qed.

Lemma exec_own E c {A} (w : work A) m l r :
  own m c l r → ∃ r', own (final (exec E c w m)) c l r'.
Proof.
  intros Hown.
  apply (exec_only E c (λ _ _, True) (λ m m', (∃ r, own m c l r) → ∃ r', own m' c l r'))
    with (w := w) (m := m); eauto.
  - intros X o m0 _ [r0 H0].
    destruct (interp_op_own E c o m0 l r0 H0) as (r' & H' & _). eauto.
  - clear. induction w; constructor; auto.
Qed.

Lemma exec_keeps E c key {A} (w : work A) m l r :
  keeps key w → own m c l r →
  ∃ r', own (final (exec E c w m)) c l r' ∧ r' !! key = r !! key.
Proof.
  intros Hw Hown.
  apply (exec_only E c (λ X o, assigns o ≠ Some key)
           (λ m m', ∀ r, own m c l r → ∃ r', own m' c l r' ∧ r' !! key = r !! key))
    with (w := w) (m := m); eauto.
  - intros m1 m2 m3 H12 H23 r1 H1.
    destruct (H12 r1 H1) as (r2 & H2 & E2).
    destruct (H23 r2 H2) as (r3 & H3 & E3). exists r3. split; [done|congruence].
  - intros X o m0 Ho r0 H0.
    destruct (interp_op_own E c o m0 l r0 H0) as (r' & H' & Hk). eauto.
Qed.

Lemma exec_quiet E c {A} (w : work A) m :
  quiet w → launched (final (exec E c w m)) = launched m.
Proof.
  intros Hw.
  apply (exec_only E c (λ X o, launches o = false)
           (λ m m', launched m' = launched m)) with (w := w) (m := m);
    [done|congruence| |done].
  intros X o m0 Ho. destruct o; cbn; try done.
  by destruct (comps m0 !! c).
Qed.

Lemma exec_comps E c {A} (w : work A) m : comps (final (exec E c w m)) = comps m.
Proof.
  apply (exec_only E c (λ _ _, True) (λ m m', comps m' = comps m))
    with (w := w) (m := m); [done|congruence| |].
  - intros X o m0 _. apply interp_op_comps.
  - clear. induction w; constructor; auto.
Qed.

Lemma exec_clobber E c {A} (w : work A) m :
  comps (final (exec E c w m)) !! c ≫= clobber = comps m !! c ≫= clobber.
Proof. by rewrite exec_comps. Qed.

Ltac head_of t :=
  lazymatch t with
  | ?f _ => head_of f
  | _ => t
  end.

Ltac only_step :=
  lazymatch goal with
  | |- only _ (mbind _ _) => apply only_bind
  | |- only _ (Ret _) => constructor
  | |- only _ (mret _) => constructor
  | |- only _ (Raise _) => constructor
  | |- only _ (Do _ _) => constructor; [cbn; congruence|]
  | |- only _ (Fetch _ _) => constructor
  | |- only _ (perform _) => apply only_perform; cbn; congruence
  | |- ∀ _, _ => intro
  | |- only _ (match ?x with _ => _ end) => destruct x
  | |- only _ ?w => let h := head_of w in unfold h
  end.

Ltac solve_only := unfold keeps, quiet; repeat only_step.

Lemma Gcam_prepare_keeps E : keeps "changed" (GcamComponent_prepare E).
Proof. solve_only. Qed.

Lemma Gcam_prepare_quiet E : quiet (GcamComponent_prepare E).
Proof. solve_only. Qed.

Lemma gcam_run_keeps E ctx key : keeps key (gcam_run E ctx).
Proof. solve_only. Qed.

Lemma Hydro_prepare_keeps E : keeps "changed" (HydroComponent_prepare E).
Proof. solve_only. Qed.

Lemma Hydro_prepare_quiet E : quiet (HydroComponent_prepare E).
Proof. solve_only. Qed.

Lemma hydro_run_keeps E ctx key : keeps key (hydro_run E ctx).
Proof. solve_only. Qed.

Lemma changed_flag_own m c l r : own m c l r → changed_flag m c = r !! "changed".
Proof. intros Hown. unfold changed_flag. by rewrite (own_results_of _ _ _ _ Hown). Qed.

Lemma exec_get_clobber E c m :
  exec E c get_clobber m =
  match comps m !! c ≫= clobber with
  | Some b => Returned b m
  | None => Raised (AttributeError "clobber") m
  end.
Proof.
  unfold get_clobber. rewrite exec_bind, exec_perform. cbn.
  by destruct (comps m !! c ≫= clobber).
Qed.

(** GCAM marks its results as unchanged exactly when it comes to look for
    the database, finds it, and clobber is off; it then returns 0 without
    having started anything. *)
Lemma Gcam_changed E c m l r :
  own m c l r → r !! "changed" = Some (VInt 1) →
  let out := exec E c (GcamComponent_run_component E) m in
  (changed_flag (final out) c = Some (VInt 0) ↔
     ∃ ctx m1, exec E c (GcamComponent_prepare E) m = Returned ctx m1 ∧
               is_Some (fs m1 !! g_dbxmlfile ctx) ∧
               comps m !! c ≫= clobber = Some false) ∧
  (changed_flag (final out) c = Some (VInt 0) →
     ∃ m', out = Returned 0 m' ∧ launched m' = launched m).
Proof.
  intros Hown Hch. cbn zeta. unfold GcamComponent_run_component.
  rewrite exec_bind.
  destruct (exec_keeps E c "changed" _ m l r (Gcam_prepare_keeps E) Hown)
    as (r1 & Hown1 & Hch1).
  pose proof (exec_quiet E c _ m (Gcam_prepare_quiet E)) as Hq.
  pose proof (exec_clobber E c (GcamComponent_prepare E) m) as Hcl.
  rewrite Hch in Hch1.
  destruct (exec E c (GcamComponent_prepare E) m) as [ctx m1|e m1|d m1] eqn:Hp;
    cbn [final] in *.
  2,3: rewrite (changed_flag_own _ _ _ _ Hown1), Hch1;
       split; [split; [done|by intros (? & ? & ? & _)]|done].
  unfold gcam_decide. rewrite exec_bind, exec_perform. cbn [interp_op fst snd].
  destruct (fs m1 !! g_dbxmlfile ctx) as [content|] eqn:Hdb.
  - rewrite bool_decide_eq_true_2 by eauto.
    rewrite exec_bind, exec_get_clobber, Hcl.
    destruct (comps m !! c ≫= clobber) as [[|]|] eqn:Hc; cbn [final].
    + rewrite exec_bind, exec_perform. cbn [interp_op fst snd].
      assert (own (with_fs (delete (g_dbxmlfile ctx) (fs m1)) m1) c l r1) as Hown2
        by exact Hown1.
      destruct (exec_keeps E c "changed" _ _ l r1 (gcam_run_keeps E ctx _) Hown2)
        as (r2 & Hown3 & Hch3).
      rewrite (changed_flag_own _ _ _ _ Hown3), Hch3, Hch1.
      split; [split; [done|by intros (? & ? & ? & _ & ?)]|done].
    + rewrite exec_bind, (exec_set E c _ _ _ _ _ Hown1). cbn [exec final].
      rewrite (changed_flag_own _ _ _ _ (own_put_dict _ _ _ _ _ Hown1)).
      rewrite lookup_insert_eq.
      split; [split; [intros _; eauto 6|done]|].
      intros _. eexists. split; [done|]. exact Hq.
    + rewrite (changed_flag_own _ _ _ _ Hown1), Hch1.
      split; [split; [done|by intros (? & ? & ? & _ & ?)]|done].
  - rewrite bool_decide_eq_false_2 by (by intros [? ?]).
    destruct (exec_keeps E c "changed" _ _ l r1 (gcam_run_keeps E ctx _) Hown1)
      as (r2 & Hown3 & Hch3).
    rewrite (changed_flag_own _ _ _ _ Hown3), Hch3, Hch1.
    split; [split; [done|]|done].
    intros (ctx' & m' & Heq & [? Hs] & _). simplify_eq.
Qed.

(** The hydrology run marks its results as unchanged exactly when it comes
    to look for its outputs with clobber off and finds them all; it then
    returns 0 without having started anything. *)
Lemma Hydro_changed E c m l r :
  own m c l r → r !! "changed" = Some (VInt 1) →
  let out := exec E c (HydroComponent_run_component E) m in
  (changed_flag (final out) c = Some (VInt 0) ↔
     ∃ ctx m1, exec E c (HydroComponent_prepare E) m = Returned ctx m1 ∧
               comps m !! c ≫= clobber = Some false ∧
               util_allexist E (alloutfiles (h_out ctx)) (fs m1) = true) ∧
  (changed_flag (final out) c = Some (VInt 0) →
     ∃ m', out = Returned 0 m' ∧ launched m' = launched m).
Proof.
  intros Hown Hch. cbn zeta. unfold HydroComponent_run_component.
  rewrite exec_bind.
  destruct (exec_keeps E c "changed" _ m l r (Hydro_prepare_keeps E) Hown)
    as (r1 & Hown1 & Hch1).
  pose proof (exec_quiet E c _ m (Hydro_prepare_quiet E)) as Hq.
  pose proof (exec_clobber E c (HydroComponent_prepare E) m) as Hcl.
  rewrite Hch in Hch1.
  destruct (exec E c (HydroComponent_prepare E) m) as [ctx m1|e m1|d m1] eqn:Hp;
    cbn [final] in *.
  2,3: rewrite (changed_flag_own _ _ _ _ Hown1), Hch1;
       split; [split; [done|by intros (? & ? & ? & _)]|done].
  unfold hydro_decide. rewrite exec_bind, exec_get_clobber, Hcl.
  destruct (comps m !! c ≫= clobber) as [[|]|] eqn:Hc; cbn [final].
  - rewrite exec_bind. cbn [exec].
    destruct (exec_keeps E c "changed" _ _ l r1 (hydro_run_keeps E ctx _) Hown1)
      as (r2 & Hown3 & Hch3).
    rewrite (changed_flag_own _ _ _ _ Hown3), Hch3, Hch1.
    split; [split; [done|by intros (? & ? & ? & ? & _)]|done].
  - rewrite exec_bind, exec_perform. cbn [interp_op fst snd].
    destruct (util_allexist E (alloutfiles (h_out ctx)) (fs m1)) eqn:Hall.
    + rewrite exec_bind, (exec_set E c _ _ _ _ _ Hown1). cbn [exec final].
      rewrite (changed_flag_own _ _ _ _ (own_put_dict _ _ _ _ _ Hown1)).
      rewrite lookup_insert_eq.
      split; [split; [intros _; eauto 6|done]|].
      intros _. eexists. split; [done|]. exact Hq.
    + destruct (exec_keeps E c "changed" _ _ l r1 (hydro_run_keeps E ctx _) Hown1)
        as (r2 & Hown3 & Hch3).
      rewrite (changed_flag_own _ _ _ _ Hown3), Hch3, Hch1.
      split; [split; [done|]|done].
      intros (ctx' & m' & Heq & _ & Hs). simplify_eq. congruence.
  - rewrite (changed_flag_own _ _ _ _ Hown1), Hch1.
    split; [split; [done|by intros (? & ? & ? & ? & _)]|done].
Qed.

(** ** The threads: what every reachable state satisfies *)

Lemma pristine_spec x :
  pristine x = true → status x = 0 ∧ owner (cond x) = None ∧ waiting (cond x) = [].
Proof.
  unfold pristine. destruct (owner (cond x)); [done|].
  destruct (waiting (cond x)); [|done]. intros H%Z.eqb_eq. done.
Qed.

Lemma pristine_lookup m c x : all_pristine m = true → comps m !! c = Some x → pristine x = true.
Proof.
  unfold all_pristine. rewrite forallb_forall. intros H Hc. apply H.
  apply list_elem_of_In. by eapply list_elem_of_lookup_2.
Qed.

Lemma inv_boot m : all_pristine m = true → inv (boot m).
Proof.
  intros Hf. split; cbn.
  - apply length_replicate.
  - intros c x ts Hc [-> _]%lookup_replicate.
    by destruct (pristine_spec x (pristine_lookup _ _ _ Hf Hc)) as (-> & _).
  - intros d x t ts Hd [-> _]%lookup_replicate.
    destruct (pristine_spec x (pristine_lookup _ _ _ Hf Hd)) as (_ & -> & _). done.
  - intros d x t n Hd Ho.
    destruct (pristine_spec x (pristine_lookup _ _ _ Hf Hd)) as (_ & Hn & _). congruence.
  - intros d x t Hd.
    destruct (pristine_spec x (pristine_lookup _ _ _ Hf Hd)) as (_ & _ & ->).
    split; [by intros ?%elem_of_nil|]. by intros (n & k & [? _]%lookup_replicate).
  - by intros t d pc k [? _]%lookup_replicate.
  - unfold driver_ok. cbn. intros t ts [-> _]%lookup_replicate. split; [lia|done].
Qed.

Lemma lookup_update_comp c d f m :
  comps (update_comp d f m) !! c =
  if decide (c = d) then f <$> comps m !! c else comps m !! c.
Proof.
  unfold update_comp. case_decide as Hcd.
  - subst. destruct (comps m !! d) as [x|] eqn:Hx; cbn; [|by rewrite Hx].
    rewrite list_lookup_insert_eq; [done|]. by eapply lookup_lt_Some.
  - destruct (comps m !! d); [|done]. cbn. by rewrite list_lookup_insert_ne.
Qed.

Lemma lookup_put_cond c d cv m :
  comps (put_cond d cv m) !! c =
  if decide (c = d) then set_cond cv <$> comps m !! c else comps m !! c.
Proof. apply lookup_update_comp. Qed.

Lemma length_wake_all ws ths : length (wake_all ws ths) = length ths.
Proof.
  induction ws as [|w ws IH]; [done|].
  change (wake_all (w :: ws) ths) with (alter wake w (wake_all ws ths)).
  by rewrite length_alter.
Qed.

Lemma wake_wake ts : wake (wake ts) = wake ts.
Proof. by destruct ts as [| | |d [] k| | |]. Qed.

Lemma lookup_wake_all ws ths t :
  wake_all ws ths !! t =
  if decide (t ∈ ws) then wake <$> ths !! t else ths !! t.
Proof.
  induction ws as [|w ws IH].
  - cbn. rewrite decide_False; [done|]. apply not_elem_of_nil.
  - change (wake_all (w :: ws) ths) with (alter wake w (wake_all ws ths)).
    destruct (decide (w = t)) as [->|Hne].
    + rewrite list_lookup_alter_eq, IH.
      destruct (ths !! t); cbn; repeat case_decide; cbn; rewrite ?wake_wake;
        try done; exfalso; rewrite elem_of_cons in *; tauto.
    + rewrite list_lookup_alter_ne by done. rewrite IH.
      repeat case_decide; try done; exfalso; rewrite elem_of_cons in *;
        intuition congruence.
Qed.

Lemma lookup_put t ts ts' m s t' :
  threads s !! t = Some ts →
  threads (put t ts' m s) !! t' =
  if decide (t' = t) then Some ts' else threads s !! t'.
Proof.
  intros Ht. cbn. case_decide as Hd.
  - subst. apply list_lookup_insert_eq. by eapply lookup_lt_Some.
  - by apply list_lookup_insert_ne.
Qed.

Lemma lookup_notify t ts ts' ws (ths : list tstate) t' :
  ths !! t = Some ts →
  <[t := ts']> (wake_all ws ths) !! t' =
  if decide (t' = t) then Some ts'
  else if decide (t' ∈ ws) then wake <$> ths !! t' else ths !! t'.
Proof.
  intros Ht. case_decide as Hd.
  - subst. apply list_lookup_insert_eq. rewrite length_wake_all.
    by eapply lookup_lt_Some.
  - rewrite list_lookup_insert_ne by done. apply lookup_wake_all.
Qed.

Lemma status_at_wake ts : status_at (wake ts) = status_at ts.
Proof. by destruct ts as [| | |d [] k| | |]. Qed.

(** Rewrites the lookups of the state after a step into lookups of the
    state before it. *)
Ltac after_step :=
  cbn [shared threads driver] in *;
  repeat match goal with
  | H : context [threads (put _ _ _ _) !! _] |- _ =>
      erewrite lookup_put in H by eassumption
  | |- context [threads (put _ _ _ _) !! _] =>
      erewrite lookup_put by eassumption
  | H : context [<[_ := _]> (wake_all _ _) !! _] |- _ =>
      erewrite lookup_notify in H by eassumption
  | |- context [<[_ := _]> (wake_all _ _) !! _] =>
      erewrite lookup_notify by eassumption
  | H : context [shared (put _ _ _ _)] |- _ => cbn [put shared] in H
  | |- context [shared (put _ _ _ _)] => cbn [put shared]
  | H : context [driver (put _ _ _ _)] |- _ => cbn [put driver] in H
  | |- context [driver (put _ _ _ _)] => cbn [put driver]
  | H : context [comps (put_cond _ _ _) !! _] |- _ => rewrite lookup_put_cond in H
  | |- context [comps (put_cond _ _ _) !! _] => rewrite lookup_put_cond
  | H : context [comps (update_comp _ _ _) !! _] |- _ => rewrite lookup_update_comp in H
  | |- context [comps (update_comp _ _ _) !! _] => rewrite lookup_update_comp
  | H : context [comps (interp_op _ _ _ _).2] |- _ => rewrite interp_op_comps in H
  | |- context [comps (interp_op _ _ _ _).2] => rewrite interp_op_comps
  end.

Ltac split_fmap :=
  repeat match goal with
  | H : _ <$> _ = Some _ |- _ => apply fmap_Some in H as (? & ? & ->)
  end.

Lemma holds_wake t d ts : holds t d (wake ts) = holds t d ts.
Proof. by destruct ts as [| | |d' [] k| | |]. Qed.

Ltac open_lock :=
  unfold acquire, release, begin_wait, end_wait in *;
  repeat match goal with
  | H : context [match owner (cond ?x) with _ => _ end] |- _ =>
      destruct (owner (cond x)) as [[? [|[|?]]]|] eqn:?
  end;
  repeat case_decide; simplify_eq.

(** Brings in what the lock invariant says of every component and thread
    at hand. *)
Ltac use_lock Hl :=
  repeat match goal with
  | Hc : comps (shared ?s0) !! ?d = Some ?x,
    Ht : threads ?s0 !! ?t = Some ?ts |- _ =>
      lazymatch goal with
      | _ : holds t d ts = owner_count (owner (cond x)) t |- _ => fail
      | _ => pose proof (Hl d x t ts Hc Ht)
      end
  end.

Ltac crush_lock :=
  unfold holds, owner_count, saved in *; open_lock; cbn in *;
  repeat case_decide; simplify_eq; try lia; try done.

Lemma wake_not_waiting ts d n k : wake ts ≠ TFetch d (FWaiting n) k.
Proof. by destruct ts as [| | |d' [] k'| | |]. Qed.

Ltac rw_lookups :=
  repeat match goal with
  | H : comps (shared _) !! _ = Some _ |- _ => rewrite H
  | H : threads _ !! _ = Some _ |- _ => rewrite H
  end.

Section Invariant.
Context (E : externals) (body : nat → work Z).

Lemma thread_step_tstep t s s' :
  thread_step E body t s = Some s' → tstep E body t s s'.
Proof.
  unfold thread_step. intros H.
  destruct (threads s !! t) as [ts|] eqn:Hts; [|done].
  destruct (comps (shared s) !! t) as [x|] eqn:Hx; [|done]. cbn in H.
  destruct ts as [| |w|d pc k|e|e|e]; try done.
  - destruct (acquire t (cond x)) as [cv|] eqn:Ha; [|done]. cbn in H.
    simplify_eq. by eapply step_enter.
  - destruct w as [rv|e|X o k|d k].
    + case_decide; simplify_eq; [by eapply step_success|by eapply step_error_code].
    + simplify_eq. by eapply step_failure.
    + destruct (interp_op E t o (shared s)) as [r m] eqn:Ho. simplify_eq.
      pose proof (step_op E body t s x o k Hts Hx) as Hs. by rewrite Ho in Hs.
    + simplify_eq. by eapply step_call.
  - unfold fetch_step in H.
    destruct (comps (shared s) !! d) as [y|] eqn:Hy; [|done]. cbn in H.
    destruct pc as [| | |n|n| |].
    + destruct (acquire t (cond y)) as [cv|] eqn:Ha; [|done]. cbn in H.
      simplify_eq. by eapply step_lock.
    + case_decide.
      * simplify_eq. by eapply step_pending.
      * destruct (release t (cond y)) as [cv|] eqn:Ha; [|done]. cbn in H.
        simplify_eq. by eapply step_ready.
    + destruct (begin_wait t (cond y)) as [[n cv]|] eqn:Ha; [|done]. cbn in H.
      simplify_eq. by eapply step_wait.
    + done.
    + destruct (end_wait t n (cond y)) as [cv|] eqn:Ha; [|done]. cbn in H.
      simplify_eq. by eapply step_relock.
    + destruct (release t (cond y)) as [cv|] eqn:Ha; [|done]. cbn in H.
      simplify_eq. by eapply step_unlock.
    + simplify_eq. by eapply step_outcome.
  - destruct (owner (cond x)) as [[t' n]|] eqn:Ho; [|done].
    case_decide; [|done]. simplify_eq.
    pose proof (step_notify E body t s x e n Hts Hx Ho) as Hs. by rewrite Ho in Hs.
  - destruct (release t (cond x)) as [cv|] eqn:Ha; [|done]. cbn in H.
    simplify_eq. by eapply step_exit.
Qed.

Lemma tstep_len t s s' :
  tstep E body t s s' → inv s → length (threads s') = length (comps (shared s')).
Proof.
  intros Hs Hi. pose proof (inv_len s Hi) as Hl.
  destruct Hs; cbn;
    rewrite ?length_insert, ?length_wake_all, ?interp_op_comps;
    unfold put_cond; rewrite ?update_comp_length; done.
Qed.

Lemma tstep_status t s s' :
  tstep E body t s s' → inv s →
  ∀ c x ts, comps (shared s') !! c = Some x → threads s' !! c = Some ts →
            status x = status_at ts.
Proof.
  intros Hs Hi c x' ts' Hc Ht. pose proof (inv_status s Hi) as Hst.
  destruct Hs; after_step;
    repeat case_decide; split_fmap; simplify_eq; cbn in *;
    rewrite ?status_at_wake;
    try done; try (by eapply Hst); try (by erewrite Hst by eassumption).
Qed.

Lemma tstep_lock t s s' :
  tstep E body t s s' → inv s →
  ∀ d x t' ts, comps (shared s') !! d = Some x → threads s' !! t' = Some ts →
               holds t' d ts = owner_count (owner (cond x)) t'.
Proof.
  intros Hs Hi d x' t' ts' Hc Ht. pose proof (inv_lock s Hi) as Hl.
  pose proof (inv_fetch s Hi) as Hf.
  destruct Hs; after_step;
    repeat case_decide; split_fmap; simplify_eq; cbn [cond set_cond set_status] in *;
    rewrite ?holds_wake;
    try (by eapply Hl).
  all: try (match goal with
            | Hw : threads _ !! _ = Some (TFetch _ (FWoken _) _) |- _ =>
                destruct (Hf _ _ _ _ Hw) as [? _]
            end).
  all: use_lock Hl; crush_lock.
Qed.

Lemma tstep_threads_length t s s' :
  tstep E body t s s' → length (threads s') = length (threads s).
Proof. destruct 1; cbn; by rewrite ?length_insert, ?length_wake_all. Qed.

Lemma tstep_owner t s s' :
  tstep E body t s s' → inv s →
  ∀ d x t' n, comps (shared s') !! d = Some x → owner (cond x) = Some (t', n) →
              (0 < n)%nat ∧ (t' < length (threads s'))%nat.
Proof.
  intros Hs Hi d x' t' n' Hc Ho. rewrite (tstep_threads_length _ _ _ Hs).
  pose proof (inv_owner s Hi) as Hw. pose proof (inv_fetch s Hi) as Hf.
  destruct Hs; after_step;
    repeat case_decide; split_fmap; simplify_eq; cbn [cond set_cond set_status] in *;
    try (by eapply Hw).
  all: try (match goal with
            | Hk : threads _ !! _ = Some (TFetch _ (FWoken _) _) |- _ =>
                destruct (Hf _ _ _ _ Hk) as [? _]
            end).
  all: repeat match goal with
       | Hc : comps (shared ?s0) !! ?d = Some ?x |- _ =>
           lazymatch goal with
           | _ : ∀ t n, owner (cond x) = Some (t, n) → _ |- _ => fail
           | _ => pose proof (λ t n, Hw d x t n Hc)
           end
       end.
  all: repeat match goal with
       | Ht : threads _ !! _ = Some _ |- _ => apply lookup_lt_Some in Ht
       end.
  all: unfold saved in *; open_lock; cbn in *; simplify_eq;
       repeat match goal with
       | H : ∀ t n, Some _ = Some (t, n) → _ |- _ =>
           specialize (H _ _ eq_refl)
       end; try lia; try done.
Qed.

Lemma tstep_wait t s s' :
  tstep E body t s s' → inv s →
  ∀ d x t', comps (shared s') !! d = Some x →
    (t' ∈ waiting (cond x) ↔
     ∃ n k, threads s' !! t' = Some (TFetch d (FWaiting n) k)).
Proof.
  intros Hs Hi d x' t' Hc. pose proof (inv_wait s Hi) as Hw.
  destruct Hs; after_step;
    repeat case_decide; split_fmap; simplify_eq; cbn [cond set_cond set_status] in *.
  all: open_lock; cbn [waiting] in *.
  all: try (by apply Hw).
  all: try (rewrite Hw by eassumption;
            split; intros (? & ? & ?); simplify_eq; fail).
  all: try (rewrite elem_of_app, list_elem_of_singleton, Hw by eassumption;
            split; [intros [?|?]; [done|simplify_eq]|intros (? & ? & ?); eauto]; fail).
  all: try (rewrite elem_of_app, list_elem_of_singleton; split; eauto; fail).
  all: try (rewrite elem_of_nil; split; [done|]; intros (? & ? & ?); simplify_eq; fail).
  - rewrite elem_of_nil. split; [done|]. intros (? & ? & Hk).
    apply fmap_Some in Hk as (? & _ & Hk). symmetry in Hk.
    by apply wake_not_waiting in Hk.
  - rewrite elem_of_nil. split; [done|]. intros Hk.
    by apply (Hw _ _ _ H0) in Hk.
  - apply (Hw _ _ _ H0) in H4 as (n1 & k1 & Hk1).
    rewrite (Hw _ _ _ Hc).
    split.
    + intros (n2 & k2 & Hq). congruence.
    + intros (n2 & k2 & Hq). apply fmap_Some in Hq as (ts0 & Hts0 & Heq).
      symmetry in Heq. by apply wake_not_waiting in Heq.
Qed.

(** What a step does to a component: nothing but its condition, and its
    status when its own body ends. *)
Lemma tstep_comp t s s' c x :
  tstep E body t s s' → comps (shared s) !! c = Some x →
  ∃ x', comps (shared s') !! c = Some x' ∧
    klass x' = klass x ∧ results x' = results x ∧ params x' = params x ∧
    clobber x' = clobber x ∧
    (status x' = status x ∨
     (c = t ∧ status x' ≠ 0 ∧ ∃ w, threads s !! t = Some (TBody w))).
Proof.
  intros Hs Hc.
  destruct Hs; after_step; repeat case_decide; simplify_eq;
    rw_lookups; cbn; eexists; (split; [done|]); cbn; eauto 10.
Qed.

(** What a step of [t] does to another thread: nothing, unless [t] notifies
    and the other waits on it. *)
Lemma tstep_other t s s' t' ts :
  tstep E body t s s' → inv s → t' ≠ t → threads s !! t' = Some ts →
  threads s' !! t' = Some ts ∨
  ∃ n k e, ts = TFetch t (FWaiting n) k ∧
           threads s' !! t' = Some (TFetch t (FWoken n) k) ∧
           threads s !! t = Some (TFinally e).
Proof.
  intros Hs Hi Hne Ht. pose proof (inv_wait s Hi) as Hw.
  destruct Hs; after_step; repeat case_decide; simplify_eq; eauto.
  match goal with
  | Hin : _ ∈ waiting (cond _) |- _ =>
      eapply Hw in Hin as (n1 & k1 & Hk); [|eassumption]
  end.
  right. rewrite Ht in *. simplify_eq. cbn. eauto 10.
Qed.

(** After the notification nobody waits on the component any more. *)
Lemma tstep_notified t s s' e :
  tstep E body t s s' → inv s → threads s !! t = Some (TFinally e) →
  ∀ t' n k, threads s' !! t' ≠ Some (TFetch t (FWaiting n) k).
Proof.
  intros Hs Hi Ht t' n1 k1 Hk. pose proof (inv_wait s Hi) as Hw.
  destruct Hs; simplify_eq. after_step.
  repeat case_decide; simplify_eq.
  - apply fmap_Some in Hk as (ts0 & _ & Heq). symmetry in Heq.
    by apply wake_not_waiting in Heq.
  - match goal with
    | Hnin : _ ∉ waiting (cond _) |- _ => apply Hnin
    end.
    eapply Hw; eauto.
Qed.

(** What a step does to the thread that takes it. *)
Lemma tstep_self t s s' :
  tstep E body t s s' →
  ∃ ts ts', threads s !! t = Some ts ∧ threads s' !! t = Some ts' ∧
            ts ≠ TNew ∧ ts' ≠ TNew ∧ (∀ e, ts ≠ TDone e) ∧
            (before_notify ts →
             before_notify ts' ∨ ∃ e, ts = TFinally e ∧ ts' = TExit e).
Proof.
  intros Hs.
  destruct Hs; after_step; rewrite decide_True by done;
    do 2 eexists; (split; [eassumption|]); (split; [done|]);
    repeat split; try done; cbn; eauto.
Qed.

Lemma nonzero_kept t s s' d x :
  tstep E body t s s' → comps (shared s) !! d = Some x → status x ≠ 0 →
  ∃ x', comps (shared s') !! d = Some x' ∧ status x' ≠ 0.
Proof.
  intros Hs Hd Hx.
  destruct (tstep_comp _ _ _ _ _ Hs Hd) as (x' & Hd' & _ & _ & _ & _ & [Heq|(_ & Hn & _)]);
    exists x'; split; try done. congruence.
Qed.

Lemma tstep_fetch t s s' :
  tstep E body t s s' → inv s →
  ∀ t' d pc k, threads s' !! t' = Some (TFetch d pc k) → fetch_ok s' t' d pc.
Proof.
  intros Hs Hi t' d pc k' Ht. pose proof (inv_fetch s Hi) as Hf.
  pose proof (inv_lock s Hi) as Hl. pose proof (inv_status s Hi) as Hst.
  pose proof (inv_len s Hi) as Hlen.
  destruct (decide (t' = t)) as [->|Hne].
  - (* the thread that moved *)
    destruct Hs; after_step; rewrite decide_True in Ht by done; simplify_eq; cbn.
    + done.
    + rewrite lookup_put_cond, decide_True by done. rw_lookups. by eexists.
    + eauto.
    + rewrite lookup_put_cond, decide_True by done. rw_lookups. cbn. eauto.
    + (* entering the wait *)
      destruct (Hf _ _ _ _ H) as (x0 & Hx0 & Hz). simplify_eq.
      use_lock Hl. split; [crush_lock|].
      destruct (decide (d = t)) as [->|Hdt].
      * rewrite list_lookup_insert_eq by by eapply lookup_lt_Some. by eexists.
      * rewrite list_lookup_insert_ne by done.
        destruct (lookup_lt_is_Some_2 (threads s) d) as [tsd Htsd].
        { rewrite Hlen. by eapply lookup_lt_Some. }
        exists tsd. split; [done|].
        specialize (Hst _ _ _ H0 Htsd). rewrite Hz in Hst.
        by destruct tsd as [| | | |[]|[]|[]].
    + destruct (Hf _ _ _ _ H) as (_ & x0 & Hx0 & Hz). simplify_eq.
      rewrite lookup_put_cond, decide_True by done. rw_lookups. cbn. eauto.
    + destruct (Hf _ _ _ _ H) as (x0 & Hx0 & Hz). simplify_eq.
      rewrite lookup_put_cond, decide_True by done. rw_lookups. cbn. eauto.
  - (* another thread *)
    destruct (lookup_lt_is_Some_2 (threads s) t') as [ts Hts].
    { rewrite <- (tstep_threads_length _ _ _ Hs). by eapply lookup_lt_Some. }
    destruct (tstep_other _ _ _ _ _ Hs Hi Hne Hts)
      as [Hsame|(n & k & e & -> & Hwoken & Hfin)].
    + rewrite Hsame in Ht. injection Ht as ->.
      specialize (Hf _ _ _ _ Hts).
      destruct pc as [| | |n|n| |]; cbn in *.
      * done.
      * destruct Hf as [x Hx].
        destruct (tstep_comp _ _ _ _ _ Hs Hx) as (x' & Hx' & _). eauto.
      * destruct Hf as (x & Hx & Hz).
        destruct (tstep_comp _ _ _ _ _ Hs Hx)
          as (x' & Hx' & _ & _ & _ & _ & [Heq|(-> & _ & w & Hw)]).
        { exists x'. split; [done|congruence]. }
        exfalso. use_lock Hl. crush_lock.
      * destruct Hf as (Hn & tsd & Htsd & Hb). split; [done|].
        destruct (decide (d = t)) as [->|Hdt].
        -- destruct (tstep_self _ _ _ Hs) as (ts0 & ts1 & H0 & H1 & _ & _ & _ & Hbn).
           rewrite Htsd in H0. injection H0 as <-.
           destruct (Hbn Hb) as [?|(e & -> & ->)]; [eauto|].
           by destruct (tstep_notified _ _ _ _ Hs Hi Htsd _ _ _ Hsame).
        -- destruct (tstep_other _ _ _ _ _ Hs Hi Hdt Htsd)
             as [?|(? & ? & ? & -> & ? & _)]; eauto.
      * destruct Hf as (Hn & x & Hx & Hz). split; [done|].
        by eapply nonzero_kept.
      * destruct Hf as (x & Hx & Hz). by eapply nonzero_kept.
      * destruct Hf as (x & Hx & Hz). by eapply nonzero_kept.
    + rewrite Hwoken in Ht. injection Ht as <- <- <-.
      destruct (Hf _ _ _ _ Hts) as (Hn & _). cbn. split; [done|].
      destruct (lookup_lt_is_Some_2 (comps (shared s)) t) as [x Hx].
      { rewrite <- Hlen. by eapply lookup_lt_Some. }
      eapply nonzero_kept; [done..|].
      rewrite (Hst _ _ _ Hx Hfin). by destruct e.
Qed.

(** Every thread after a step comes from a thread before it: the same, or
    one that was running and still is not new. *)
Lemma tstep_back t s s' t' ts' :
  tstep E body t s s' → inv s → threads s' !! t' = Some ts' →
  ∃ ts, threads s !! t' = Some ts ∧
        (ts' = ts ∨ (ts ≠ TNew ∧ ts' ≠ TNew ∧ ∀ e, ts ≠ TDone e)).
Proof.
  intros Hs Hi Ht.
  destruct (decide (t' = t)) as [->|Hne].
  - destruct (tstep_self _ _ _ Hs) as (ts0 & ts1 & H0 & H1 & ? & ? & ? & _).
    simplify_eq. eauto 10.
  - destruct (lookup_lt_is_Some_2 (threads s) t') as [ts Hts].
    { rewrite <- (tstep_threads_length _ _ _ Hs). by eapply lookup_lt_Some. }
    exists ts. split; [done|].
    destruct (tstep_other _ _ _ _ _ Hs Hi Hne Hts)
      as [Hsame|(n & k & e & -> & Hwoken & Hfin)].
    + left. congruence.
    + right. rewrite Hwoken in Ht. by simplify_eq.
Qed.

Lemma tstep_driver t s s' : tstep E body t s s' → driver s' = driver s.
Proof. by destruct 1. Qed.

Lemma tstep_driver_ok t s s' :
  tstep E body t s s' → inv s → driver_ok s'.
Proof.
  intros Hs Hi. pose proof (inv_driver s Hi) as Hd.
  unfold driver_ok in *. rewrite (tstep_driver _ _ _ Hs).
  destruct (driver s) as [i|i|i f|f].
  - intros t' ts' Ht.
    destruct (tstep_back _ _ _ _ _ Hs Hi Ht) as (ts & Hts & [->|(H1 & H2 & _)]).
    + by apply Hd.
    + specialize (Hd _ _ Hts). split; [done|]. intros Hle. by apply Hd in Hle.
  - destruct Hd as [Hnew Hdone]. split.
    + intros t' ts' Ht.
      destruct (tstep_back _ _ _ _ _ Hs Hi Ht) as (ts & Hts & [->|(H1 & H2 & _)]);
        eauto.
    + intros t' ts' Hlt Ht.
      destruct (tstep_back _ _ _ _ _ Hs Hi Ht) as (ts & Hts & [->|(_ & _ & H3)]);
        [eauto|].
      destruct (Hdone _ _ Hlt Hts) as [e ->]. by destruct (H3 e).
  - destruct Hd as [Hall _]. exfalso.
    destruct (tstep_self _ _ _ Hs) as (ts0 & _ & H0 & _ & _ & _ & H3 & _).
    destruct (Hall _ _ H0) as [e ->]. by destruct (H3 e).
  - destruct Hd as [Hall _]. exfalso.
    destruct (tstep_self _ _ _ Hs) as (ts0 & _ & H0 & _ & _ & _ & H3 & _).
    destruct (Hall _ _ H0) as [e ->]. by destruct (H3 e).
Qed.

Lemma tstep_inv t s s' : tstep E body t s s' → inv s → inv s'.
Proof.
  intros Hs Hi. split.
  - by eapply tstep_len.
  - by eapply tstep_status.
  - intros d x t' ts. by eapply tstep_lock.
  - by eapply tstep_owner.
  - by eapply tstep_wait.
  - by eapply tstep_fetch.
  - by eapply tstep_driver_ok.
Qed.

(** *** The main program *)
(** The main program touches no component: it takes no lock and waits on no
    condition; it starts threads and watches them end. *)
Lemma main_step_shared s s' : main_step s = Some s' → shared s' = shared s.
Proof.
  unfold main_step. intros H.
  destruct (driver s) as [i|i|i f|f]; repeat case_decide; try done;
    repeat case_match; by simplify_eq.
Qed.

Lemma main_step_cases s s' :
  main_step s = Some s' →
  (∃ i, driver s = Starting i ∧ (i < length (comps (shared s)))%nat ∧
        threads s !! i = Some TNew ∧
        s' = Sys (shared s) (<[i := TEnter]> (threads s)) (Starting (S i))) ∨
  (threads s' = threads s ∧ shared s' = shared s ∧
   ((∃ i, driver s = Starting i ∧ ¬ (i < length (comps (shared s)))%nat ∧
          driver s' = Joining 0) ∨
    (∃ i e, driver s = Joining i ∧ threads s !! i = Some (TDone e) ∧
            driver s' = Joining (S i)) ∨
    (∃ i, driver s = Joining i ∧ ¬ (i < length (comps (shared s)))%nat ∧
          driver s' = Checking 0 0) ∨
    (∃ i f x, driver s = Checking i f ∧ comps (shared s) !! i = Some x ∧
              driver s' = Checking (S i) (if decide (status x = 1) then f else S f)) ∨
    (∃ i f, driver s = Checking i f ∧ comps (shared s) !! i = None ∧
            driver s' = Finished f))).
Proof.
  unfold main_step. intros H.
  destruct (driver s) as [i|i|i f|f]; [| | |done].
  - case_decide.
    + destruct (threads s !! i) as [[]|] eqn:Ht; try done. simplify_eq.
      left. eauto 10.
    + simplify_eq. right. cbn. eauto 10.
  - case_decide.
    + destruct (threads s !! i) as [[]|] eqn:Ht; try done. simplify_eq.
      right. cbn. eauto 15.
    + simplify_eq. right. cbn. eauto 15.
  - destruct (comps (shared s) !! i) as [x|] eqn:Hx; simplify_eq;
      right; cbn; eauto 20.
Qed.

Lemma count_failed_snoc l x :
  count_failed (l ++ [x]) =
  if decide (status x = 1) then count_failed l else S (count_failed l).
Proof.
  unfold count_failed. rewrite filter_app, length_app.
  rewrite filter_cons, filter_nil.
  destruct (decide (status x ≠ 1)) as [Hn|Hn]; case_decide; cbn; try lia;
    try done.
Qed.

Lemma main_step_inv s s' : main_step s = Some s' → inv s → inv s'.
Proof.
  intros Hs Hi.
  destruct (main_step_cases _ _ Hs) as
    [(i & Hd & Hlt & Hnew & ->)|(Hth & Hsh & Hcase)].
  - (* a thread is started *)
    assert (∀ t', <[i := TEnter]> (threads s) !! t' =
                  if decide (t' = i) then Some TEnter else threads s !! t') as Hlk.
    { intros t'. case_decide; subst.
      - apply list_lookup_insert_eq. by eapply lookup_lt_Some.
      - by apply list_lookup_insert_ne. }
    split; cbn.
    + rewrite length_insert. apply (inv_len _ Hi).
    + intros c x ts Hc. rewrite Hlk. case_decide; intros; simplify_eq.
      * by rewrite (inv_status _ Hi _ _ _ Hc Hnew).
      * by eapply (inv_status _ Hi).
    + intros d x t ts Hc. rewrite Hlk. case_decide; intros; simplify_eq.
      * by rewrite <- (inv_lock _ Hi _ _ _ _ Hc Hnew).
      * by eapply (inv_lock _ Hi).
    + intros d x t n Hc Ho. rewrite length_insert. by eapply (inv_owner _ Hi).
    + intros d x t Hc. rewrite (inv_wait _ Hi _ _ _ Hc), Hlk.
      case_decide; [|done]. subst. rewrite Hnew.
      split; intros (? & ? & ?); simplify_eq.
    + intros t d pc k. rewrite Hlk. case_decide; [done|]. intros Ht.
      pose proof (inv_fetch _ Hi _ _ _ _ Ht) as Hf.
      destruct pc; cbn in *; try done.
      destruct Hf as (? & ts & Hts & Hb). split; [done|].
      rewrite Hlk. case_decide; eauto. subst. by exists TEnter.
    + unfold driver_ok. cbn. intros t ts. rewrite Hlk.
      pose proof (inv_driver _ Hi) as Hdr. unfold driver_ok in Hdr. rewrite Hd in Hdr.
      case_decide; intros; simplify_eq.
      * split; [done|lia].
      * rewrite (Hdr _ _ H0). lia.
  - (* the main program moves on by itself *)
    destruct Hi as [Hlen Hst Hl Ho Hw Hf Hdr].
    split; rewrite ?Hth, ?Hsh; try done.
    + intros t d pc k Ht. specialize (Hf _ _ _ _ Ht).
      destruct pc; cbn in *; rewrite ?Hth, ?Hsh; done.
    + unfold driver_ok in *. rewrite <- Hlen in Hcase.
      destruct Hcase as [(i & Hd & Hge & ->)|[(i & e & Hd & Hdone & ->)|
                         [(i & Hd & Hge & ->)|[(i & f & x & Hd & Hx & ->)|
                          (i & f & Hd & Hx & ->)]]]];
        rewrite Hd in Hdr; unfold all_done; rewrite ?Hth, ?Hsh.
      * split.
        -- intros t ts Ht ->. apply lookup_lt_Some in Ht as Hlt.
           apply Hdr in Ht. assert (i ≤ t)%nat by by apply Ht. lia.
        -- intros t ts Hlt. lia.
      * destruct Hdr as [Hn Hall]. split; [done|].
        intros t ts Hlt Ht. destruct (decide (t = i)) as [->|Hne].
        -- simplify_eq. eauto.
        -- apply (Hall t ts); [lia|done].
      * destruct Hdr as [Hn Hall]. split; [|done].
        intros t ts Ht. apply (Hall t ts); [|done].
        apply lookup_lt_Some in Ht. lia.
      * destruct Hdr as [Hall ->]. split; [done|].
        rewrite (take_S_r _ _ _ Hx). symmetry. apply count_failed_snoc.
      * destruct Hdr as [Hall ->]. split; [done|].
        rewrite take_ge; [done|]. by apply lookup_ge_None.
Qed.

Lemma step_inv a s s' : step E body a s = Some s' → inv s → inv s'.
Proof.
  destruct a as [|t]; cbn.
  - apply main_step_inv.
  - intros H%thread_step_tstep. by eapply tstep_inv.
Qed.

Lemma run_inv sched s s' : run E body sched s = Some s' → inv s → inv s'.
Proof.
  revert s. induction sched as [|a sched IH]; intros s; cbn.
  - by intros [= ->].
  - destruct (step E body a s) as [s1|] eqn:Hs; [|done]. cbn.
    intros Hr Hi. eapply IH; [done|]. by eapply step_inv.
Qed.

(** Every state the program reaches from the state after parsing satisfies
    the invariant. *)
Lemma reachable_inv m sched s :
  all_pristine m = true → run E body sched (boot m) = Some s → inv s.
Proof. intros Hm Hr. eapply run_inv; [done|]. by apply inv_boot. Qed.

End Invariant.

Section Lifecycle.
Context (E : externals) (body : nat → work Z).

Lemma run_app l1 l2 s :
  run E body (l1 ++ l2) s = run E body l1 s ≫= run E body l2.
Proof.
  revert s. induction l1 as [|a l1 IH]; intros s; cbn; [done|].
  destruct (step E body a s); cbn; [apply IH|done].
Qed.

Lemma run_snoc l a s s' :
  run E body (l ++ [a]) s = Some s' ↔
  ∃ s1, run E body l s = Some s1 ∧ step E body a s1 = Some s'.
Proof.
  rewrite run_app. split.
  - destruct (run E body l s) as [s1|]; cbn; [|done].
    destruct (step E body a s1) as [s2|] eqn:Hs; cbn; [|done].
    intros [= ->]. eauto.
  - intros (s1 & -> & Hs). cbn. by rewrite Hs.
Qed.

(** Under the invariant the relation and the function say the same. *)
Lemma tstep_thread_step t s s' :
  inv s → tstep E body t s s' → thread_step E body t s = Some s'.
Proof.
  intros Hi Hs. unfold thread_step.
  destruct (tstep_self _ _ _ _ _ Hs) as (ts & _ & Hts & _).
  destruct (lookup_lt_is_Some_2 (comps (shared s)) t) as [y Hy].
  { rewrite <- (inv_len _ Hi). by eapply lookup_lt_Some. }
  rewrite Hts, Hy. cbn.
  destruct Hs; simplify_eq; cbn; unfold fetch_step;
    repeat match goal with
    | H : comps (shared _) !! _ = Some _ |- _ => rewrite H
    | H : acquire _ _ = Some _ |- _ => rewrite H
    | H : release _ _ = Some _ |- _ => rewrite H
    | H : begin_wait _ _ = Some _ |- _ => rewrite H
    | H : end_wait _ _ _ = Some _ |- _ => rewrite H
    | H : owner _ = Some _ |- _ => rewrite H
    | |- _ => progress cbn
    | |- _ => case_decide
    end; try done.
  by destruct (interp_op E t o (shared s)).
Qed.

(** The status of a component changes only when its own body ends: to 1
    when the body returned 0, to 2 when it raised. *)
Lemma tstep_status_change t s s' c x x' :
  tstep E body t s s' →
  comps (shared s) !! c = Some x → comps (shared s') !! c = Some x' →
  status x' = status x ∨
  (c = t ∧ ((threads s !! t = Some (TBody (Ret 0)) ∧ status x' = 1) ∨
            (∃ e, threads s !! t = Some (TBody (Raise e)) ∧ status x' = 2))).
Proof.
  intros Hs Hc Hc'.
  destruct Hs; after_step; repeat case_decide; split_fmap; simplify_eq;
    cbn; eauto 10.
Qed.
End Lifecycle.

Section Published.
Context (E : externals) (body : nat → work Z).

(** The attributes of the components that no step changes. *)
Lemma step_comp a s s' c x :
  step E body a s = Some s' → comps (shared s) !! c = Some x →
  ∃ x', comps (shared s') !! c = Some x' ∧
    klass x' = klass x ∧ results x' = results x ∧ params x' = params x ∧
    clobber x' = clobber x.
Proof.
  destruct a as [|t]; cbn; intros Hs Hc.
  - rewrite (main_step_shared _ _ Hs). eauto 10.
  - apply thread_step_tstep in Hs.
    destruct (tstep_comp _ _ _ _ _ _ _ Hs Hc) as (x' & ? & ? & ? & ? & ? & _).
    eauto 10.
Qed.

Lemma step_comps_length a s s' :
  step E body a s = Some s' → inv s →
  length (comps (shared s')) = length (comps (shared s)).
Proof.
  intros Hs Hi. destruct a as [|t]; cbn in Hs.
  - by rewrite (main_step_shared _ _ Hs).
  - apply thread_step_tstep in Hs.
    rewrite <- (tstep_len _ _ _ _ _ Hs Hi), <- (inv_len _ Hi).
    by eapply tstep_threads_length.
Qed.

Lemma step_results a s s' :
  step E body a s = Some s' → inv s →
  results <$> comps (shared s') = results <$> comps (shared s).
Proof.
  intros Hs Hi. apply list_eq. intros c. rewrite !list_lookup_fmap.
  destruct (comps (shared s) !! c) as [x|] eqn:Hc.
  - destruct (step_comp _ _ _ _ _ Hs Hc) as (x' & -> & _ & Hres & _).
    cbn. by rewrite Hres.
  - apply lookup_ge_None in Hc. rewrite <- (step_comps_length _ _ _ Hs Hi) in Hc.
    apply lookup_ge_None in Hc. by rewrite Hc.
Qed.

Lemma run_results sched s s' :
  run E body sched s = Some s' → inv s →
  results <$> comps (shared s') = results <$> comps (shared s).
Proof.
  revert s. induction sched as [|a sched IH]; intros s; cbn.
  - by intros [= ->].
  - destruct (step E body a s) as [s1|] eqn:Hs; [|done]. cbn. intros Hr Hi.
    rewrite (IH _ Hr (step_inv _ _ _ _ _ Hs Hi)). by eapply step_results.
Qed.

(** A step changes a dictionary only when it is an assignment of a body
    to its own results. *)
Lemma step_dicts a s s' l :
  step E body a s = Some s' →
  dicts (shared s') !! l = dicts (shared s) !! l ∨
  ∃ t key v k x, a = Thread t ∧
    threads s !! t = Some (TBody (Do (SetResult key v) k)) ∧
    comps (shared s) !! t = Some x ∧ results x = l.
Proof.
  destruct a as [|t]; cbn; intros Hs.
  - left. by rewrite (main_step_shared _ _ Hs).
  - apply thread_step_tstep in Hs.
    destruct Hs; cbn; unfold put_cond; rewrite ?update_comp_dicts; auto.
    destruct o; cbn; auto; [rewrite H0; cbn|].
    destruct (decide (results x = l)) as [<-|Hne].
    + right. eauto 10.
    + left. by apply list_lookup_insert_ne.
    + left. by destruct (subprocess_call E args dir (fs (shared s))).
Qed.

(** Where the status of a component is 1, its body has returned 0 at some
    point of the run, and its results dictionary holds what it held
    then. *)
Lemma success_history m sched s d x :
  all_pristine m = true → distinct_results m = true →
  run E body sched (boot m) = Some s →
  comps (shared s) !! d = Some x → status x = 1 →
  ∃ sched1 sched2 s1,
    sched = (sched1 ++ Thread d :: sched2)%list ∧
    run E body sched1 (boot m) = Some s1 ∧
    threads s1 !! d = Some (TBody (Ret 0)) ∧
    dicts (shared s) !! results x = dicts (shared s1) !! results x.
Proof.
  intros Hm Hnd. revert s x.
  induction sched as [|a sched IH] using rev_ind; intros s x Hr Hd Hx.
  - cbn in Hr. simplify_eq. cbn in Hd.
    destruct (pristine_spec _ (pristine_lookup _ _ _ Hm Hd)) as (Hz & _). congruence.
  - apply run_snoc in Hr as (s0 & Hr0 & Hs).
    pose proof (reachable_inv _ _ _ _ _ Hm Hr0) as Hi.
    destruct (lookup_lt_is_Some_2 (comps (shared s0)) d) as [x0 Hd0].
    { rewrite <- (step_comps_length _ _ _ Hs Hi). by eapply lookup_lt_Some. }
    destruct (step_comp _ _ _ _ _ Hs Hd0) as (x' & Hd' & _ & Hres & _).
    simplify_eq.
    destruct (decide (status x0 = 1)) as [H1|H1].
    + (* already succeeded: the step leaves the dictionary alone *)
      destruct (IH _ _ Hr0 Hd0 H1) as (l1 & l2 & s1 & -> & Hr1 & Ht1 & Hdict).
      exists l1, (l2 ++ [a])%list, s1.
      split; [by rewrite <- app_assoc|]. split; [done|]. split; [done|].
      rewrite Hres, <- Hdict.
      destruct (step_dicts _ _ _ (results x0) Hs)
        as [->|(t & key & v & k & y & -> & Ht & Hy & Heq)]; [done|].
      exfalso.
      assert (t = d) as ->.
      { apply bool_decide_eq_true in Hnd.
        pose proof (run_results _ _ _ Hr0 (inv_boot _ Hm)) as Hrr.
        cbn in Hrr. rewrite <- Hrr in Hnd.
        eapply NoDup_lookup; [exact Hnd| |].
        - rewrite list_lookup_fmap, Hy. done.
        - rewrite list_lookup_fmap, Hd0. cbn. by rewrite Heq. }
      pose proof (inv_status _ Hi _ _ _ Hd0 Ht) as Hst. cbn in Hst. congruence.
    + (* this step is the end of the body *)
      destruct a as [|t]; cbn in Hs.
      { rewrite (main_step_shared _ _ Hs) in Hd. congruence. }
      apply thread_step_tstep in Hs as Hts.
      destruct (tstep_status_change _ _ _ _ _ _ _ _ Hts Hd0 Hd)
        as [?|(-> & [(Ht & _)|(e & _ & ?)])]; [congruence| |congruence].
      exists sched, [], s0. split; [done|]. split; [done|]. split; [done|].
      rewrite Hres.
      destruct (step_dicts (Thread _) _ _ (results x0) Hs)
        as [->|(t' & key & v & k & y & ? & Ht' & Hy & Heq)]; [done|].
      simplify_eq.
Qed.
End Published.

Section Release.
Context (E : externals) (body : nat → work Z).

Lemma fetch_outcome_set_cond cv x : fetch_outcome (set_cond cv x) = fetch_outcome x.
Proof. done. Qed.

(** One step as a run. *)
Lemma run_one t s s' :
  inv s → tstep E body t s s' → run E body [Thread t] s = Some s'.
Proof. intros Hi Hs. cbn. by rewrite (tstep_thread_step _ _ _ _ _ Hi Hs). Qed.

Lemma run_cons a l s s1 s' :
  step E body a s = Some s1 → run E body l s1 = Some s' →
  run E body (a :: l) s = Some s'.
Proof. intros Hs Hr. cbn. by rewrite Hs. Qed.

(** A caller past the with block of [fetch] gets the outcome. *)
Lemma fetch_left s t d k x :
  inv s → threads s !! t = Some (TFetch d FLeft k) →
  comps (shared s) !! d = Some x →
  ∃ s', run E body [Thread t] s = Some s' ∧
        threads s' !! t = Some (TBody (k (fetch_outcome x))).
Proof.
  intros Hi Ht Hd. eexists. split.
  - apply run_one; [done|]. by eapply step_outcome.
  - by erewrite lookup_put, decide_True.
Qed.

(** A caller inside the with block leaves it when the status is set. *)
Lemma fetch_inside s t d pc k x :
  inv s → threads s !! t = Some (TFetch d pc k) →
  pc = FLocked ∨ pc = FResumed →
  comps (shared s) !! d = Some x → status x ≠ 0 →
  ∃ s', run E body [Thread t; Thread t] s = Some s' ∧
        threads s' !! t = Some (TBody (k (fetch_outcome x))).
Proof.
  intros Hi Ht Hpc Hd Hz.
  assert (∃ cv, release t (cond x) = Some cv) as [cv Hcv].
  { pose proof (inv_lock _ Hi _ _ _ _ Hd Ht) as Hl.
    unfold release. destruct Hpc as [-> | ->]; cbn in Hl;
      rewrite decide_True in Hl by done; unfold owner_count in Hl;
      destruct (owner (cond x)) as [[t' [|n]]|]; repeat case_decide;
        simplify_eq; eauto; lia. }
  assert (tstep E body t s (put t (TFetch d FLeft k) (put_cond d cv (shared s)) s))
    as Hs by (destruct Hpc as [-> | ->]; [by eapply step_ready|by eapply step_unlock]).
  pose proof (tstep_inv _ _ _ _ _ Hs Hi) as Hi'.
  destruct (fetch_left _ t d k (set_cond cv x) Hi') as (s' & Hr & Hk).
  { by erewrite lookup_put, decide_True. }
  { cbn. rewrite lookup_put_cond, decide_True, Hd by done. done. }
  exists s'. split; [|done].
  eapply run_cons; [|exact Hr]. cbn. by apply tstep_thread_step.
Qed.

(** A caller outside the block enters it when the lock is free, and then
    leaves with the outcome. *)
Lemma fetch_outside s t d pc k x :
  inv s → threads s !! t = Some (TFetch d pc k) →
  pc = FEnter ∨ (∃ n, pc = FWoken n) →
  comps (shared s) !! d = Some x → status x ≠ 0 → owner (cond x) = None →
  ∃ s', run E body [Thread t; Thread t; Thread t] s = Some s' ∧
        threads s' !! t = Some (TBody (k (fetch_outcome x))).
Proof.
  intros Hi Ht Hpc Hd Hz Ho.
  assert (∃ pc' cv, (pc' = FLocked ∨ pc' = FResumed) ∧
            tstep E body t s (put t (TFetch d pc' k) (put_cond d cv (shared s)) s))
    as (pc' & cv & Hpc' & Hs).
  { destruct Hpc as [->|[n ->]].
    - exists FLocked, (Condition (Some (t, 1%nat)) (waiting (cond x))).
      split; [auto|]. eapply step_lock; [done..|]. unfold acquire. by rewrite Ho.
    - exists FResumed, (Condition (Some (t, n)) (waiting (cond x))).
      split; [auto|]. eapply step_relock; [done..|]. unfold end_wait. by rewrite Ho. }
  pose proof (tstep_inv _ _ _ _ _ Hs Hi) as Hi'.
  destruct (fetch_inside _ t d pc' k (set_cond cv x) Hi') as (s' & Hr & Hk); try done.
  { by erewrite lookup_put, decide_True. }
  { cbn. rewrite lookup_put_cond, decide_True, Hd by done. done. }
  exists s'. split; [|done].
  eapply run_cons; [|exact Hr]. cbn. by apply tstep_thread_step.
Qed.

(** When the thread of [d] has ended, whoever holds the lock of [d] is a
    caller inside the with block of a fetch on [d], and its next step
    frees the lock. *)
Lemma lock_freed s d x e t0 n0 :
  inv s → threads s !! d = Some (TDone e) →
  comps (shared s) !! d = Some x → owner (cond x) = Some (t0, n0) →
  ∃ s' x', run E body [Thread t0] s = Some s' ∧ inv s' ∧
    comps (shared s') !! d = Some x' ∧ owner (cond x') = None ∧
    status x' = status x ∧ fetch_outcome x' = fetch_outcome x ∧
    (∀ t, t ≠ t0 → threads s' !! t = threads s !! t) ∧
    ∃ k0 pc0, threads s !! t0 = Some (TFetch d pc0 k0) ∧ in_block pc0 = true.
Proof.
  intros Hi Hdone Hd Ho.
  destruct (inv_owner _ Hi _ _ _ _ Hd Ho) as [Hn0 Hlt].
  destruct (lookup_lt_is_Some_2 _ _ Hlt) as [ts0 Ht0].
  pose proof (inv_lock _ Hi _ _ _ _ Hd Ht0) as Hl0.
  pose proof (inv_lock _ Hi _ _ _ _ Hd Hdone) as Hld.
  pose proof (inv_status _ Hi _ _ _ Hd Hdone) as Hst.
  assert (status x ≠ 0) as Hz by (rewrite Hst; by destruct e).
  unfold owner_count in Hl0, Hld. rewrite Ho in Hl0, Hld.
  rewrite decide_True in Hl0 by done.
  assert (t0 ≠ d) as Hne.
  { intros ->. rewrite decide_True in Hld by done. cbn in Hld. lia. }
  assert (∃ pc0 k0, ts0 = TFetch d pc0 k0 ∧ in_block pc0 = true ∧ n0 = 1%nat)
    as (pc0 & k0 & -> & Hin & ->).
  { destruct ts0 as [| |w|d' pc0 k0|e0|e0|e0]; cbn in Hl0;
      repeat case_decide; try lia.
    subst d'. destruct pc0; cbn in Hl0; try lia; do 2 eexists; (split; [done|]);
      (split; [done|lia]). }
  assert (pc0 = FLocked ∨ pc0 = FResumed) as Hpc0.
  { destruct pc0; try done; auto.
    destruct (inv_fetch _ Hi _ _ _ _ Ht0) as (y & Hy & Hy0). simplify_eq. }
  set (cv := Condition None (waiting (cond x))).
  assert (release t0 (cond x) = Some cv) as Hrel.
  { unfold release. rewrite Ho. by rewrite decide_True. }
  assert (tstep E body t0 s (put t0 (TFetch d FLeft k0) (put_cond d cv (shared s)) s))
    as Hs by (destruct Hpc0 as [-> | ->]; [by eapply step_ready|by eapply step_unlock]).
  exists (put t0 (TFetch d FLeft k0) (put_cond d cv (shared s)) s), (set_cond cv x).
  split; [by apply run_one|]. split; [by eapply tstep_inv|].
  split; [cbn; by rewrite lookup_put_cond, decide_True, Hd|].
  repeat split; try done.
  - intros t Hnet. erewrite lookup_put by done. by rewrite decide_False.
  - eauto.
Qed.

(** Once the thread of a component has ended, every caller inside [fetch]
    on it, wherever it stands, can be run to the outcome. *)
Lemma fetch_completes s t d pc k x e :
  inv s → threads s !! d = Some (TDone e) →
  threads s !! t = Some (TFetch d pc k) → comps (shared s) !! d = Some x →
  ∃ sched s', run E body sched s = Some s' ∧
              threads s' !! t = Some (TBody (k (fetch_outcome x))).
Proof.
  intros Hi Hdone Ht Hd.
  pose proof (inv_status _ Hi _ _ _ Hd Hdone) as Hst.
  assert (status x ≠ 0) as Hz by (rewrite Hst; by destruct e).
  pose proof (inv_fetch _ Hi _ _ _ _ Ht) as Hf.
  destruct pc as [| | |n|n| |]; cbn in Hf.
  3: { destruct Hf as (y & Hy & Hy0). simplify_eq. }
  3: { destruct Hf as (_ & ts & Hts & Hb). simplify_eq. }
  2,4: destruct (fetch_inside s t d _ k x Hi Ht) as (s' & Hr & Hk); eauto.
  3: { destruct (fetch_left s t d k x Hi Ht Hd) as (s' & Hr & Hk); eauto. }
  all: destruct (owner (cond x)) as [[t0 n0]|] eqn:Ho.
  all: try (destruct (fetch_outside s t d _ k x Hi Ht) as (s' & Hr & Hk);
            eauto; fail).
  all: destruct (lock_freed s d x e t0 n0 Hi Hdone Hd Ho)
         as (s1 & x1 & Hr1 & Hi1 & Hd1 & Ho1 & Hst1 & Hout & Hoth & k0 & pc0 & Ht0 & Hin).
  all: assert (t ≠ t0) as Hne by (intros ->; rewrite Ht in Ht0; by simplify_eq).
  all: rewrite <- (Hoth _ Hne) in Ht.
  all: destruct (fetch_outside s1 t d _ k x1 Hi1 Ht) as (s' & Hr & Hk);
         eauto; try congruence.
  all: exists ([Thread t0] ++ [Thread t; Thread t; Thread t])%list, s'.
  all: rewrite run_app, Hr1; cbn [mbind option_bind]; split; [exact Hr|congruence].
Qed.

(** The thread of a component holds the lock of its own condition once,
    all the way from the body to the end of the with block. *)
Lemma runner_owns s c x ts :
  inv s → threads s !! c = Some ts → comps (shared s) !! c = Some x →
  (∃ e, ts = TFinally e ∨ ts = TExit e) ∨ (∃ w, ts = TBody w) →
  owner (cond x) = Some (c, 1%nat).
Proof.
  intros Hi Ht Hc Hts. pose proof (inv_lock _ Hi _ _ _ _ Hc Ht) as Hl.
  assert (holds c c ts = 1%nat) as Hh.
  { destruct Hts as [[e [-> | ->]]|[w ->]]; cbn; by rewrite decide_True. }
  rewrite Hh in Hl. unfold owner_count in Hl.
  destruct (owner (cond x)) as [[t n]|]; [|done].
  case_decide; [|done]. by subst.
Qed.

(** [notify_all] and the end of the with block always go through. *)
Lemma runner_notifies s c x e :
  inv s → threads s !! c = Some (TFinally e) → comps (shared s) !! c = Some x →
  tstep E body c s
    (Sys (put_cond c (Condition (owner (cond x)) []) (shared s))
       (<[c := TExit e]> (wake_all (waiting (cond x)) (threads s))) (driver s)).
Proof.
  intros Hi Ht Hc. eapply step_notify; [done..|].
  eapply runner_owns; eauto.
Qed.

Lemma runner_exits s c x e :
  inv s → threads s !! c = Some (TExit e) → comps (shared s) !! c = Some x →
  tstep E body c s
    (put c (TDone e) (put_cond c (Condition None (waiting (cond x))) (shared s)) s).
Proof.
  intros Hi Ht Hc. eapply step_exit; [done..|].
  unfold release. erewrite runner_owns by eauto. by rewrite decide_True.
Qed.

(** A terminal status stays, and with it what [fetch] answers. *)
Lemma step_terminal a s s' d x :
  step E body a s = Some s' → inv s →
  comps (shared s) !! d = Some x → status x ≠ 0 →
  ∃ x', comps (shared s') !! d = Some x' ∧ status x' = status x ∧
        fetch_outcome x' = fetch_outcome x.
Proof.
  intros Hs Hi Hd Hz. destruct a as [|t]; cbn in Hs.
  - rewrite (main_step_shared _ _ Hs). eauto.
  - apply thread_step_tstep in Hs.
    destruct (tstep_comp _ _ _ _ _ _ _ Hs Hd)
      as (x' & Hd' & Hk & Hr & _ & _ & [Heq|(-> & _ & w & Hw)]).
    + exists x'. split; [done|]. split; [done|].
      unfold fetch_outcome. by rewrite Heq, Hk, Hr.
    + pose proof (inv_status _ Hi _ _ _ Hd Hw). done.
Qed.

Lemma run_terminal sched s s' d x :
  run E body sched s = Some s' → inv s →
  comps (shared s) !! d = Some x → status x ≠ 0 →
  ∃ x', comps (shared s') !! d = Some x' ∧ status x' = status x ∧
        fetch_outcome x' = fetch_outcome x.
Proof.
  revert s x. induction sched as [|a sched IH]; intros s x; cbn.
  - intros [= ->]. eauto.
  - destruct (step E body a s) as [s1|] eqn:Hs; [|done]. cbn. intros Hr Hi Hd Hz.
    destruct (step_terminal _ _ _ _ _ Hs Hi Hd Hz) as (x1 & Hd1 & Hs1 & Ho1).
    destruct (IH _ _ Hr (step_inv _ _ _ _ _ Hs Hi) Hd1) as (x' & ? & ? & ?);
      [congruence|].
    exists x'. repeat split; congruence.
Qed.

(** Where the thread of a component stands only moves forward. *)
Lemma step_past_notify a s s' d e :
  step E body a s = Some s' → inv s →
  threads s !! d = Some (TExit e) ∨ threads s !! d = Some (TDone e) →
  threads s' !! d = Some (TExit e) ∨ threads s' !! d = Some (TDone e).
Proof.
  intros Hs Hi Hd. destruct a as [|t]; cbn in Hs.
  - destruct (main_step_cases _ _ Hs) as [(i & _ & _ & Hnew & ->)|(-> & _)];
      [|done].
    cbn. destruct (decide (d = i)) as [->|Hne].
    + destruct Hd; congruence.
    + by rewrite list_lookup_insert_ne.
  - apply thread_step_tstep in Hs.
    destruct (decide (d = t)) as [->|Hne].
    + destruct Hs; after_step; rewrite decide_True by done;
        destruct Hd; simplify_eq; auto.
    + destruct Hd as [Hd|Hd];
        destruct (tstep_other _ _ _ _ _ _ _ Hs Hi Hne Hd) as [?|(? & ? & ? & ? & _)];
        auto; done.
Qed.

Lemma run_past_notify sched s s' d e :
  run E body sched s = Some s' → inv s →
  threads s !! d = Some (TExit e) ∨ threads s !! d = Some (TDone e) →
  threads s' !! d = Some (TExit e) ∨ threads s' !! d = Some (TDone e).
Proof.
  revert s. induction sched as [|a sched IH]; intros s; cbn.
  - by intros [= ->].
  - destruct (step E body a s) as [s1|] eqn:Hs; [|done]. cbn. intros Hr Hi Hd.
    eapply IH; [done|by eapply step_inv|by eapply step_past_notify].
Qed.

(** The same, from the moment the thread of the component is past its
    notification. *)
Lemma fetch_completes_after s t d pc k x e :
  inv s →
  threads s !! d = Some (TExit e) ∨ threads s !! d = Some (TDone e) →
  threads s !! t = Some (TFetch d pc k) → comps (shared s) !! d = Some x →
  ∃ sched s', run E body sched s = Some s' ∧
              threads s' !! t = Some (TBody (k (fetch_outcome x))).
Proof.
  intros Hi [Hd|Hd] Ht Hx; [|by eapply fetch_completes].
  pose proof (runner_exits _ _ _ _ Hi Hd Hx) as Hs.
  pose proof (tstep_inv _ _ _ _ _ Hs Hi) as Hi1.
  assert (t ≠ d) as Hne by (intros ->; congruence).
  edestruct (fetch_completes _ t d pc k
               (set_cond (Condition None (waiting (cond x))) x) e Hi1)
    as (sched & s' & Hr & Hk).
  - by erewrite lookup_put, decide_True.
  - erewrite lookup_put by done. by rewrite decide_False.
  - cbn. by rewrite lookup_put_cond, decide_True, Hx.
  - exists (Thread d :: sched), s'. split; [|exact Hk].
    eapply run_cons; [|exact Hr]. cbn. by apply tstep_thread_step.
Qed.
End Release.

(** * The status of a component and what a fetch sees *)

Lemma status_at_cases ts : status_at ts = 0 ∨ status_at ts = 1 ∨ status_at ts = 2.
Proof. destruct ts as [| | | |[]|[]|[]]; cbn; auto. Qed.

Lemma thread_of_component s c x :
  inv s → comps (shared s) !! c = Some x → ∃ ts, threads s !! c = Some ts.
Proof.
  intros Hi Hc. apply lookup_lt_is_Some_2. rewrite (inv_len _ Hi).
  by eapply lookup_lt_Some.
Qed.


(** C1. A fetch that is about to return does return, and never while the
    component is still to run.  When it returns normally, the status is 1,
    what it returns is the results dictionary of the component, the body
    of the component has returned 0 earlier in the run, and the dictionary
    holds what it held at that moment; when it raises, the status is 2 and
    the body has raised. *)
Theorem fetch_sees_published E body m sched s t d k x :
  all_pristine m = true → distinct_results m = true →
  run E body sched (boot m) = Some s →
  threads s !! t = Some (TFetch d FLeft k) →
  comps (shared s) !! d = Some x →
  (∃ s', step E body (Thread t) s = Some s' ∧
         threads s' !! t = Some (TBody (k (fetch_outcome x)))) ∧
  status x ≠ 0 ∧
  (∀ l, fetch_outcome x = inr l →
     status x = 1 ∧ l = results x ∧
     ∃ sched1 sched2 s1,
       sched = (sched1 ++ Thread d :: sched2)%list ∧
       run E body sched1 (boot m) = Some s1 ∧
       threads s1 !! d = Some (TBody (Ret 0)) ∧
       dicts (shared s) !! l = dicts (shared s1) !! l) ∧
  (∀ e, fetch_outcome x = inl e →
     status x = 2 ∧
     ∃ cause, threads s !! d = Some (TFinally (Some cause)) ∨
              threads s !! d = Some (TExit (Some cause)) ∨
              threads s !! d = Some (TDone (Some cause))).
Proof.
  intros Hm Hnd Hr Ht Hd. pose proof (reachable_inv _ _ _ _ _ Hm Hr) as Hi.
  destruct (inv_fetch _ Hi _ _ _ _ Ht) as (y & Hy & Hz). simplify_eq.
  split; [|split; [done|split]].
  - destruct (fetch_left E body s t d k x Hi Ht Hd) as (s' & Hr' & Hk).
    exists s'. split; [|done]. cbn in *.
    destruct (thread_step E body t s); by simplify_eq.
  - intros l Hl. unfold fetch_outcome in Hl. case_decide as H1; [|done].
    simplify_eq. split; [done|]. split; [done|].
    by eapply success_history.
  - intros e He. unfold fetch_outcome in He. case_decide as H1; [done|].
    destruct (thread_of_component _ _ _ Hi Hd) as [ts Hts].
    pose proof (inv_status _ Hi _ _ _ Hd Hts) as Hst.
    destruct ts as [| | | |[c|]|[c|]|[c|]]; cbn in Hst; try done; eauto 10.
Qed.

(** C9. When the thread of a component, its status set, comes to
    [notify_all], the callers suspended in [fetch] on the component are
    the waiters of its condition, however many they are; the one step
    wakes every one of them.  From then on no caller is ever suspended on
    the component again, the outcome of a fetch on it is fixed, and every
    caller inside a fetch on it can be run to that one outcome. *)
Theorem notify_releases_all E body m sched s d e x :
  all_pristine m = true →
  run E body sched (boot m) = Some s →
  threads s !! d = Some (TFinally e) →
  comps (shared s) !! d = Some x →
  ∃ s', step E body (Thread d) s = Some s' ∧
    (∀ t, t ∈ waiting (cond x) ↔
          ∃ n k, threads s !! t = Some (TFetch d (FWaiting n) k)) ∧
    (∀ t n k, threads s !! t = Some (TFetch d (FWaiting n) k) →
              threads s' !! t = Some (TFetch d (FWoken n) k)) ∧
    ∀ sched' s'', run E body sched' s' = Some s'' →
      (∃ x'', comps (shared s'') !! d = Some x'' ∧
              status x'' = status x ∧ status x ≠ 0 ∧
              fetch_outcome x'' = fetch_outcome x) ∧
      (∀ t pc k, threads s'' !! t = Some (TFetch d pc k) →
         pc ≠ FMustWait ∧ (∀ n, pc ≠ FWaiting n) ∧
         ∃ sched'' s3, run E body sched'' s'' = Some s3 ∧
                       threads s3 !! t = Some (TBody (k (fetch_outcome x)))).
Proof.
  intros Hm Hr Hd Hx. pose proof (reachable_inv _ _ _ _ _ Hm Hr) as Hi.
  pose proof (runner_notifies E body _ _ _ _ Hi Hd Hx) as Hs.
  pose proof (tstep_inv _ _ _ _ _ Hs Hi) as Hi'.
  pose proof (inv_status _ Hi _ _ _ Hx Hd) as Hst.
  assert (status x ≠ 0) as Hz by (rewrite Hst; by destruct e).
  eexists. split; [cbn; by apply tstep_thread_step|].
  split; [intros t; by apply (inv_wait _ Hi)|]. split.
  - intros t n k Ht. cbn.
    assert (t ≠ d) as Hne by (intros ->; congruence).
    erewrite lookup_notify by done. rewrite decide_False by done.
    rewrite decide_True by (apply (inv_wait _ Hi _ _ _ Hx); eauto).
    by rewrite Ht.
  - intros sched' s'' Hr'.
    pose proof (run_inv _ _ _ _ _ Hr' Hi') as Hi''.
    edestruct (run_terminal E body _ _ _ d
                 (set_cond (Condition (owner (cond x)) []) x) Hr' Hi')
      as (x'' & Hx'' & Hst'' & Hout); [|exact Hz|].
    { cbn. by rewrite lookup_put_cond, decide_True, Hx. }
    assert (threads s'' !! d = Some (TExit e) ∨ threads s'' !! d = Some (TDone e))
      as Hpast.
    { eapply run_past_notify; [exact Hr'|exact Hi'|]. left. cbn.
      apply list_lookup_insert_eq. rewrite length_wake_all.
      by eapply lookup_lt_Some. }
    change (fetch_outcome (set_cond _ x)) with (fetch_outcome x) in Hout.
    change (status (set_cond _ x)) with (status x) in Hst''.
    split; [by exists x''|].
    intros t pc k Ht. pose proof (inv_fetch _ Hi'' _ _ _ _ Ht) as Hf.
    split; [|split].
    + intros ->. destruct Hf as (y & Hy & Hy0). simplify_eq. cbn in *. congruence.
    + intros n ->. destruct Hf as (_ & ts & Hts & Hb).
      destruct Hpast; simplify_eq; done.
    + destruct (fetch_completes_after E body _ t d pc k x'' e Hi'' Hpast Ht Hx'')
        as (sched'' & s3 & Hr3 & Hk).
      exists sched'', s3. split; [done|]. by rewrite <- Hout.
Qed.

(** C2, as the code has it.  Where the status of a component is 2, what a
    fetch on it raises is a [RuntimeError] whose message names the class of
    the component and nothing of what its body raised; this stays so in
    every later state: the status remains 2, the body is not run again,
    every caller that comes to the end of [fetch] gets this error, and
    once the thread of the component has ended every caller inside
    [fetch] on it can be run to it. *)
Theorem failed_fetch_raises E body m sched s d x :
  all_pristine m = true →
  run E body sched (boot m) = Some s →
  comps (shared s) !! d = Some x → status x = 2 →
  fetch_outcome x =
    inl (RuntimeError (class_repr (klass x) +:+
                         ": wait() returned with non-success status!")) ∧
  ∀ sched' s', run E body sched' s = Some s' →
    (∃ x', comps (shared s') !! d = Some x' ∧ status x' = 2 ∧
           fetch_outcome x' = fetch_outcome x) ∧
    (∃ cause, threads s' !! d = Some (TFinally (Some cause)) ∨
              threads s' !! d = Some (TExit (Some cause)) ∨
              threads s' !! d = Some (TDone (Some cause))) ∧
    (∀ t k, threads s' !! t = Some (TFetch d FLeft k) →
       ∃ s'', step E body (Thread t) s' = Some s'' ∧
              threads s'' !! t = Some (TBody (k (fetch_outcome x)))) ∧
    (∀ t pc k cause, threads s' !! d = Some (TDone cause) →
       threads s' !! t = Some (TFetch d pc k) →
       ∃ sched'' s'', run E body sched'' s' = Some s'' ∧
                      threads s'' !! t = Some (TBody (k (fetch_outcome x)))).
Proof.
  intros Hm Hr Hd H2. pose proof (reachable_inv _ _ _ _ _ Hm Hr) as Hi.
  split; [unfold fetch_outcome; rewrite decide_False; [done|congruence]|].
  intros sched' s' Hr'. pose proof (run_inv _ _ _ _ _ Hr' Hi) as Hi'.
  destruct (run_terminal E body _ _ _ d x Hr' Hi Hd) as (x' & Hd' & Hst' & Hout);
    [congruence|].
  split; [exists x'; split; [done|]; split; [congruence|done]|].
  split; [|split].
  - destruct (thread_of_component _ _ _ Hi' Hd') as [ts Hts].
    pose proof (inv_status _ Hi' _ _ _ Hd' Hts) as Hs.
    rewrite Hst', H2 in Hs.
    destruct ts as [| | | |[c|]|[c|]|[c|]]; cbn in Hs; try done; eauto 10.
  - intros t k Ht.
    destruct (fetch_left E body s' t d k x' Hi' Ht Hd') as (s'' & Hr'' & Hk).
    exists s''. rewrite <- Hout. split; [|done]. cbn in *.
    destruct (thread_step E body t s'); by simplify_eq.
  - intros t pc k cause Hdone Ht.
    destruct (fetch_completes E body _ t d pc k x' cause Hi' Hdone Ht Hd')
      as (sched'' & s'' & Hr'' & Hk).
    exists sched'', s''. by rewrite <- Hout.
Qed.

(** * The driver *)

Section Driver.
Context (E : externals) (body : cid → work Z).

Lemma main_advances s :
  inv s → all_done s → (∀ f, driver s ≠ Finished f) →
  ∃ s', main_step s = Some s' ∧ shared s' = shared s ∧ threads s' = threads s ∧
        (main_left s' < main_left s)%nat.
Proof.
  intros Hi Hdone Hnf. pose proof (inv_driver _ Hi) as Hd. pose proof (inv_len _ Hi) as Hl.
  unfold main_step, main_left, driver_ok in *.
  destruct (driver s) as [i|i|i f|f] eqn:Hdr.
  - case_decide as Hlt.
    + destruct (lookup_lt_is_Some_2 (threads s) i) as [ts Hts]; [lia|].
      destruct (Hdone _ _ Hts) as [e ->].
      destruct (Hd _ _ Hts) as [_ Hnew]. by specialize (Hnew (le_n _)).
    + eexists. split; [done|]. cbn. repeat split; lia.
  - case_decide as Hlt.
    + destruct (lookup_lt_is_Some_2 (threads s) i) as [ts Hts]; [lia|].
      destruct (Hdone _ _ Hts) as [e ->]. rewrite Hts.
      eexists. split; [done|]. cbn. repeat split; lia.
    + eexists. split; [done|]. cbn. repeat split; lia.
  - destruct (comps (shared s) !! i) as [x|] eqn:Hx.
    + apply lookup_lt_Some in Hx as Hlt.
      eexists. split; [done|]. cbn. repeat split; lia.
    + eexists. split; [done|]. cbn. repeat split; lia.
  - by destruct (Hnf f).
Qed.

Lemma main_finishes k s :
  (main_left s ≤ k)%nat → inv s → all_done s →
  ∃ n s' fail, run E body (replicate n Main) s = Some s' ∧
               driver s' = Finished fail ∧ shared s' = shared s.
Proof.
  revert s. induction k as [|k IH]; intros s Hk Hi Hdone.
  - exists 0%nat, s. unfold main_left in Hk.
    destruct (driver s) as [i|i|i f|f] eqn:Hdr; try lia. by exists f.
  - destruct (driver s) as [i|i|i f|f] eqn:Hdr;
      [| | |by exists 0%nat, s, f].
    all: destruct (main_advances s Hi Hdone) as (s1 & Hs1 & Hsh & Hth & Hlt);
      [by rewrite Hdr|].
    all: destruct (IH s1) as (n & s' & fail & Hr & Hf & Hsh');
      [lia|eapply (step_inv E body Main); [exact Hs1|done]
      |unfold all_done; by rewrite Hth|].
    all: exists (S n), s', fail; cbn -[main_step]; rewrite Hs1; cbn -[main_step];
      rewrite Hr; repeat split; congruence.
Qed.
End Driver.

(** C6. The main program starts the components in the order of the list,
    one thread each, then joins the threads in that order, then counts;
    its steps change nothing of the components (it fetches from none; a
    start only takes a thread from new to entered).  It stops short of
    the report only at a join whose thread has not ended.  When it has
    finished every thread has ended and the number it reports is the
    number of components whose status is not 1; and once every thread has
    ended, an error left in a thread or not, it runs on to the report. *)
Theorem driver_reports E body m sched s :
  all_pristine m = true →
  run E body sched (boot m) = Some s →
  driver (boot m) = Starting 0 ∧
  (∀ i, driver s = Starting i →
        ∀ t ts, threads s !! t = Some ts → (ts = TNew ↔ (i ≤ t)%nat)) ∧
  (∀ i, driver s = Joining i →
        (∀ t ts, threads s !! t = Some ts → ts ≠ TNew) ∧
        (∀ t ts, (t < i)%nat → threads s !! t = Some ts → ∃ e, ts = TDone e)) ∧
  (∀ i f, driver s = Checking i f →
        all_done s ∧ f = count_failed (take i (comps (shared s)))) ∧
  (∀ fail, driver s = Finished fail →
        all_done s ∧ length (threads s) = length (comps (shared s)) ∧
        fail = count_failed (comps (shared s))) ∧
  (∀ s', step E body Main s = Some s' →
        shared s' = shared s ∧
        ∀ t, threads s' !! t = threads s !! t ∨
             (driver s = Starting t ∧ threads s !! t = Some TNew ∧
              threads s' !! t = Some TEnter)) ∧
  (step E body Main s = None →
        (∃ fail, driver s = Finished fail) ∨
        (∃ i ts, driver s = Joining i ∧ threads s !! i = Some ts ∧
                 ∀ e, ts ≠ TDone e)) ∧
  (all_done s →
        ∃ n s', run E body (replicate n Main) s = Some s' ∧
                shared s' = shared s ∧
                driver s' = Finished (count_failed (comps (shared s)))).
Proof.
  intros Hm Hr. pose proof (reachable_inv _ _ _ _ _ Hm Hr) as Hi.
  pose proof (inv_driver _ Hi) as Hd. pose proof (inv_len _ Hi) as Hl.
  unfold driver_ok in Hd.
  split; [done|].
  split; [intros i Hdr; by rewrite Hdr in Hd|].
  split; [intros i Hdr; by rewrite Hdr in Hd|].
  split; [intros i f Hdr; by rewrite Hdr in Hd|].
  split; [intros f Hdr; rewrite Hdr in Hd; by destruct Hd|].
  split; [|split].
  - cbn -[main_step]. intros s' Hs. split; [by eapply main_step_shared|].
    intros t.
    destruct (main_step_cases _ _ Hs) as [(i & Hdr & _ & Hnew & ->)|(-> & _)];
      [|by left].
    cbn. destruct (decide (t = i)) as [->|Hne].
    + right. repeat split; try done. apply list_lookup_insert_eq.
      by eapply lookup_lt_Some.
    + left. by apply list_lookup_insert_ne.
  - cbn -[main_step]. unfold main_step. intros Hnone.
    destruct (driver s) as [i|i|i f|f] eqn:Hdr.
    + case_decide as Hlt; [|done].
      destruct (lookup_lt_is_Some_2 (threads s) i) as [ts Hts]; [lia|].
      destruct (Hd _ _ Hts) as [_ Hnew]. rewrite (Hnew (le_n _)) in Hts.
      by rewrite Hts in Hnone.
    + case_decide as Hlt; [|done].
      destruct (lookup_lt_is_Some_2 (threads s) i) as [ts Hts]; [lia|].
      right. exists i, ts. repeat split; try done. intros e ->.
      by rewrite Hts in Hnone.
    + by destruct (comps (shared s) !! i).
    + left. by exists f.
  - intros Hdone.
    destruct (main_finishes E body _ s (le_n _) Hi Hdone)
      as (n & s' & fail & Hr' & Hf & Hsh).
    exists n, s'. repeat split; try done.
    pose proof (inv_driver _ (run_inv _ _ _ _ _ Hr' Hi)) as Hd'.
    unfold driver_ok in Hd'. rewrite Hf in Hd'. destruct Hd' as [_ ->].
    by rewrite Hsh in Hf.
Qed.

(** * A failing body *)

Section Failure.
Context (E : externals) (body : cid → work Z).

(** A thread that has ended stays as it ended. *)
Lemma step_done a s s' d e :
  step E body a s = Some s' → inv s →
  threads s !! d = Some (TDone e) → threads s' !! d = Some (TDone e).
Proof.
  intros Hs Hi Hd. destruct a as [|t]; cbn in Hs.
  - destruct (main_step_cases _ _ Hs) as [(i & _ & _ & Hnew & ->)|(-> & _)];
      [|done].
    cbn. destruct (decide (d = i)) as [->|Hne]; [congruence|].
    by rewrite list_lookup_insert_ne.
  - apply thread_step_tstep in Hs.
    destruct (decide (d = t)) as [->|Hne].
    + destruct (tstep_self _ _ _ _ _ Hs) as (ts & _ & Hts & _ & _ & _ & Hnd & _).
      rewrite Hd in Hts. simplify_eq. by destruct (Hnd e).
    + destruct (tstep_other _ _ _ _ _ _ _ Hs Hi Hne Hd)
        as [Hsame|(n & k & e' & Heq & _)]; [done|congruence].
Qed.

Lemma run_done sched s s' d e :
  run E body sched s = Some s' → inv s →
  threads s !! d = Some (TDone e) → threads s' !! d = Some (TDone e).
Proof.
  revert s. induction sched as [|a sched IH]; intros s; cbn.
  - by intros [= ->].
  - destruct (step E body a s) as [s1|] eqn:Hs; [|done]. cbn.
    intros Hr Hi Hd. eapply IH; [done|by eapply step_inv|by eapply step_done].
Qed.

(** The three steps of the wrapper after the body has raised. *)
Lemma failure_steps s c x e :
  inv s → threads s !! c = Some (TBody (Raise e)) →
  comps (shared s) !! c = Some x →
  ∃ s1 s2 s3 x3,
    tstep E body c s s1 ∧ tstep E body c s1 s2 ∧ tstep E body c s2 s3 ∧
    threads s1 !! c = Some (TFinally (Some e)) ∧
    comps (shared s1) !! c = Some (set_status 2 x) ∧
    threads s2 !! c = Some (TExit (Some e)) ∧
    (∀ t n k, threads s1 !! t = Some (TFetch c (FWaiting n) k) →
              threads s2 !! t = Some (TFetch c (FWoken n) k)) ∧
    threads s3 !! c = Some (TDone (Some e)) ∧
    comps (shared s3) !! c = Some x3 ∧ status x3 = 2 ∧ klass x3 = klass x ∧
    owner (cond x3) = None ∧
    driver s3 = driver s ∧
    (∀ c', c' ≠ c → comps (shared s3) !! c' = comps (shared s) !! c').
Proof.
  intros Hi Ht Hx.
  pose proof (step_failure E body c s x e Ht Hx) as H1.
  pose proof (tstep_inv _ _ _ _ _ H1 Hi) as Hi1.
  set (s1 := put c (TFinally (Some e)) (update_comp c (set_status 2) (shared s)) s) in *.
  assert (threads s1 !! c = Some (TFinally (Some e))) as Ht1.
  { unfold s1. erewrite lookup_put by done. by rewrite decide_True. }
  assert (comps (shared s1) !! c = Some (set_status 2 x)) as Hx1.
  { unfold s1. cbn. by rewrite lookup_update_comp, decide_True, Hx. }
  assert (driver s1 = driver s) as Hd1 by done.
  assert (∀ c', c' ≠ c → comps (shared s1) !! c' = comps (shared s) !! c') as Ho1.
  { intros c' Hne. unfold s1. cbn. by rewrite lookup_update_comp, decide_False. }
  clearbody s1.
  pose proof (runner_notifies E body _ _ _ _ Hi1 Ht1 Hx1) as H2.
  pose proof (tstep_inv _ _ _ _ _ H2 Hi1) as Hi2.
  match type of H2 with tstep _ _ _ _ ?s => set (s2 := s) in * end.
  assert (threads s2 !! c = Some (TExit (Some e))) as Ht2.
  { unfold s2. cbn. erewrite lookup_notify by done. by rewrite decide_True. }
  assert (comps (shared s2) !! c =
          Some (set_cond (Condition (owner (cond (set_status 2 x))) []) (set_status 2 x)))
    as Hx2.
  { unfold s2. cbn. by rewrite lookup_put_cond, decide_True, Hx1. }
  assert (driver s2 = driver s1) as Hd2 by done.
  assert (∀ c', c' ≠ c → comps (shared s2) !! c' = comps (shared s1) !! c') as Ho2.
  { intros c' Hne. unfold s2. cbn. by rewrite lookup_put_cond, decide_False. }
  assert (∀ t n k, threads s1 !! t = Some (TFetch c (FWaiting n) k) →
                   threads s2 !! t = Some (TFetch c (FWoken n) k)) as Hw2.
  { intros t n k Hw. unfold s2. cbn.
    assert (t ≠ c) as Hne by (intros ->; congruence).
    erewrite lookup_notify by done. rewrite decide_False by done.
    rewrite decide_True by (apply (inv_wait _ Hi1 _ _ _ Hx1); eauto).
    by rewrite Hw. }
  clearbody s2.
  pose proof (runner_exits E body _ _ _ _ Hi2 Ht2 Hx2) as H3.
  match type of H3 with tstep _ _ _ _ ?s => set (s3 := s) in * end.
  eexists s1, s2, s3, _. split; [done|]. split; [done|]. split; [done|].
  split; [done|]. split; [done|]. split; [done|]. split; [done|].
  split.
  { unfold s3. erewrite lookup_put by done. by rewrite decide_True. }
  split.
  { unfold s3. cbn. by rewrite lookup_put_cond, decide_True, Hx2. }
  repeat split; try done.
  - unfold s3. cbn. congruence.
  - intros c' Hne. rewrite <- Ho1, <- Ho2 by done. unfold s3. cbn.
    by rewrite lookup_put_cond, decide_False.
Qed.
End Failure.

(** C3, as the code has it.  A body that returns a value other than 0 has
    a [RuntimeError] raised for it in the wrapper.  When the body has
    raised, the wrapper sets the status to 2, wakes the callers waiting
    on the component, gives the lock back and lets the error go on out of
    the thread: the thread ends with that error uncaught, and what a
    fetch on the component raises from then on is another error, which
    names the class only.  The main program is not touched by any of it:
    no other component is changed, and the join on the thread returns. *)
Theorem failure_sets_status_and_reraises E body m sched s c x :
  all_pristine m = true →
  run E body sched (boot m) = Some s →
  comps (shared s) !! c = Some x →
  (∀ rv, threads s !! c = Some (TBody (Ret rv)) → rv ≠ 0 →
     step E body (Thread c) s =
       Some (put c (TBody (Raise (RuntimeError
               (class_repr (klass x) +:+ ":  run_component returned error code "
                +:+ pretty rv)))) (shared s) s)) ∧
  (∀ e, threads s !! c = Some (TBody (Raise e)) →
     ∃ s1 s2 s3 x3,
       step E body (Thread c) s = Some s1 ∧
       step E body (Thread c) s1 = Some s2 ∧
       step E body (Thread c) s2 = Some s3 ∧
       threads s1 !! c = Some (TFinally (Some e)) ∧
       comps (shared s1) !! c = Some (set_status 2 x) ∧
       (∀ t n k, threads s1 !! t = Some (TFetch c (FWaiting n) k) →
                 threads s2 !! t = Some (TFetch c (FWoken n) k)) ∧
       threads s3 !! c = Some (TDone (Some e)) ∧
       comps (shared s3) !! c = Some x3 ∧ status x3 = 2 ∧
       owner (cond x3) = None ∧
       fetch_outcome x3 =
         inl (RuntimeError (class_repr (klass x) +:+
                              ": wait() returned with non-success status!")) ∧
       driver s3 = driver s ∧
       (∀ c', c' ≠ c → comps (shared s3) !! c' = comps (shared s) !! c') ∧
       ∀ sched' s', run E body sched' s3 = Some s' →
         threads s' !! c = Some (TDone (Some e)) ∧
         (driver s' = Joining c →
          ∃ s'', step E body Main s' = Some s'' ∧ driver s'' = Joining (S c))).
Proof.
  intros Hm Hr Hx. pose proof (reachable_inv _ _ _ _ _ Hm Hr) as Hi. split.
  - intros rv Ht Hrv. cbn. unfold thread_step. rewrite Ht, Hx. cbn.
    by rewrite decide_False.
  - intros e Ht.
    destruct (failure_steps E body s c x e Hi Ht Hx)
      as (s1 & s2 & s3 & x3 & H1 & H2 & H3 & Ht1 & Hx1 & Ht2 & Hw & Ht3 & Hx3 &
          Hst & Hk & Hown & Hdr & Hoth).
    pose proof (tstep_inv _ _ _ _ _ H1 Hi) as Hi1.
    pose proof (tstep_inv _ _ _ _ _ H2 Hi1) as Hi2.
    pose proof (tstep_inv _ _ _ _ _ H3 Hi2) as Hi3.
    exists s1, s2, s3, x3.
    split; [by apply tstep_thread_step|]. split; [by apply tstep_thread_step|].
    split; [by apply tstep_thread_step|].
    split; [done|]. split; [done|]. split; [done|]. split; [done|].
    split; [done|]. split; [done|]. split; [done|]. split.
    { unfold fetch_outcome. rewrite decide_False by congruence. by rewrite Hk. }
    split; [done|]. split; [done|].
    intros sched' s' Hr'.
    pose proof (run_done E body _ _ _ _ _ Hr' Hi3 Ht3) as Hdone.
    split; [done|]. intros Hj. cbn. unfold main_step. rewrite Hj.
    pose proof (run_inv _ _ _ _ _ Hr' Hi3) as Hi'.
    rewrite decide_True.
    + rewrite Hdone. eauto.
    + rewrite <- (inv_len _ Hi'). by eapply lookup_lt_Some.
Qed.

(** * The capability table *)

(** C4 fails on the code: a second [GcamComponent] built on the same
    table is built without any error, and [gcam-core] is then bound to
    it instead of the first. *)
Lemma second_registration_replaces :
  cap_tbl one_gcam !! "gcam-core" = Some 0%nat ∧
  (GcamComponent_init one_gcam).1 = 1%nat ∧
  klass <$> comps two_gcam !! 1%nat = Some GcamComponent ∧
  cap_tbl two_gcam !! "gcam-core" = Some 1%nat ∧
  cap_tbl two_gcam ≠ cap_tbl one_gcam.
Proof.
  cbn. split; [done|]. split; [done|]. split; [done|]. split; [done|].
  intros H. apply (f_equal (λ t : gmap string cid, t !! "gcam-core")) in H.
  by rewrite !lookup_insert_eq in H.
Qed.

(** C4, as the code has it.  Building a component of a class whose
    capability name is already bound succeeds; the name is bound to the
    new component from then on, every other name keeps its binding, and
    the component the name was bound to stays in the list as it was. *)
Theorem registration_rebinds k name old m :
  capability k = Some name →
  cap_tbl m !! name = Some old →
  (old < length (comps m))%nat →
  let c := (construct k m).1 in
  let m' := (construct k m).2 in
  cap_tbl m' !! name = Some c ∧ c ≠ old ∧
  klass <$> comps m' !! c = Some k ∧
  (∀ other, other ≠ name → cap_tbl m' !! other = cap_tbl m !! other) ∧
  comps m' !! old = comps m !! old.
Proof.
  intros Hk Hold Hlt. cbn zeta.
  rewrite construct_cap_tbl, construct_fst, Hk.
  split; [apply lookup_insert_eq|]. split; [lia|].
  split; [by rewrite construct_new|].
  split; [intros other Hne; by apply lookup_insert_ne|].
  by apply construct_comps_old.
Qed.

(** A second GCAM component on [one_gcam]. *)
Lemma registration_rebinds_witness :
  cap_tbl (construct GcamComponent one_gcam).2 !! "gcam-core" = Some 1%nat.
Proof.
  exact (proj1 (registration_rebinds GcamComponent "gcam-core" 0%nat one_gcam
                  eq_refl eq_refl (le_n 1))).
Defined.

(** C5. The lookup of a name that is not in the capability table raises
    [KeyError] with that name, and the lookup of a name that is there
    gives the component bound to it.  A body that looks up an absent
    name and fetches raises the [KeyError] at the lookup: it comes to no
    fetch, and its thread goes on in the body with the error raised
    rather than into [fetch]. *)
Theorem unknown_capability_raises E body name :
  (∀ tbl, tbl !! name = None → resolve tbl name = inl (KeyError name)) ∧
  (∀ tbl c, tbl !! name = Some c → resolve tbl name = inr c) ∧
  (∀ self m, cap_tbl m !! name = None →
     exec E self (fetch_capability name) m = Raised (KeyError name) m) ∧
  (∀ self m c, cap_tbl m !! name = Some c →
     exec E self (fetch_capability name) m = exec E self (fetch_from c) m) ∧
  (∀ s t x (k : loc → work Z),
     threads s !! t = Some (TBody (fetch_capability name ≫= k)) →
     comps (shared s) !! t = Some x →
     cap_tbl (shared s) !! name = None →
     step E body (Thread t) s =
       Some (put t (TBody (Raise (KeyError name))) (shared s) s)).
Proof.
  split; [intros tbl H; unfold resolve; by rewrite H|].
  split; [intros tbl c H; unfold resolve; by rewrite H|].
  split; [intros self m H; cbn; unfold resolve; by rewrite H|].
  split; [intros self m c H; cbn; unfold resolve; by rewrite H|].
  intros s t x k Ht Hx Hn. cbn. unfold thread_step. rewrite Ht, Hx. cbn.
  unfold resolve. by rewrite Hn.
Qed.

(** On [demo_mem], which has a GCAM component and no hydrology. *)
Lemma unknown_capability_raises_witness :
  exec demo_externals 1%nat (fetch_capability "gcam-hydro") demo_mem
  = Raised (KeyError "gcam-hydro") demo_mem ∧
  resolve (cap_tbl demo_mem) "gcam-core" = inr 1%nat.
Proof.
  pose proof (unknown_capability_raises demo_externals (demo_body demo_mem)
                "gcam-hydro") as (_ & _ & H & _).
  pose proof (unknown_capability_raises demo_externals (demo_body demo_mem)
                "gcam-core") as (_ & H' & _).
  split; [apply H | apply H']; vm_compute; reflexivity.
Defined.

(** * The [changed] entry *)




(** * The general parameters *)

(** C10. The component of the general parameters is built with its
    results the very dictionary of its parameters, and enters itself as
    [general].  Where results and parameters are one dictionary,
    [addparam] shows in the results at once, the status still what it
    was; and the run, given [ModelInterface] and [DBXMLlib], returns 0
    and leaves that one dictionary, still both results and parameters,
    with these two made absolute, [inputdir] made absolute relative to
    the working directory, from the default [./input-data] when it was
    absent, and [rgnconfig] made absolute relative to the new [inputdir],
    from the default [rgn14] when it was absent; no other key changes. *)
Theorem general_results_alias_params E :
  (∀ m, let c := (GlobalParamsComponent_init m).1 in
        let m' := (GlobalParamsComponent_init m).2 in
        cap_tbl m' !! "general" = Some c ∧
        ∃ x, comps m' !! c = Some x ∧ results x = params x ∧ status x = 0 ∧
             dicts m' !! params x = Some ∅) ∧
  (∀ m c x r key value,
     comps m !! c = Some x → results x = params x →
     dicts m !! params x = Some r →
     results_of (addparam c key value m) c = Some (<[key := VStr value]> r) ∧
     params_of (addparam c key value m) c = Some (<[key := VStr value]> r) ∧
     comps (addparam c key value m) = comps m) ∧
  (∀ m c x r mi db,
     comps m !! c = Some x → results x = params x →
     dicts m !! params x = Some r →
     r !! "ModelInterface" = Some (VStr mi) → r !! "DBXMLlib" = Some (VStr db) →
     str_or_absent (r !! "inputdir") = true →
     str_or_absent (r !! "rgnconfig") = true →
     ∃ m' r',
       exec E c (GlobalParamsComponent_run_component E) m = Returned 0 m' ∧
       comps m' = comps m ∧
       results_of m' c = Some r' ∧ params_of m' c = Some r' ∧
       r' !! "ModelInterface" = Some (VStr (util_abspath E mi None)) ∧
       r' !! "DBXMLlib" = Some (VStr (util_abspath E db None)) ∧
       (∃ inputdir,
          inputdir = util_abspath E (str_or (r !! "inputdir") "./input-data")
                       (Some (cwd m)) ∧
          r' !! "inputdir" = Some (VStr inputdir) ∧
          r' !! "rgnconfig" =
            Some (VStr (util_abspath E (str_or (r !! "rgnconfig") "rgn14")
                          (Some inputdir)))) ∧
       (r !! "inputdir" = None →
          str_or (r !! "inputdir") "./input-data" = "./input-data") ∧
       (r !! "rgnconfig" = None →
          str_or (r !! "rgnconfig") "rgn14" = "rgn14") ∧
       (∀ key, key ∉ ["ModelInterface"; "DBXMLlib"; "inputdir"; "rgnconfig"] →
               r' !! key = r !! key)).
Proof.
  split; [|split].
  - intros m. cbn. split; [apply lookup_insert_eq|].
    unfold update_comp. cbn.
    rewrite lookup_app_r by lia. rewrite Nat.sub_diag. cbn.
    eexists. split.
    + rewrite list_lookup_insert_eq; [done|]. rewrite length_app. cbn. lia.
    + cbn. repeat split; try done.
      rewrite lookup_app_r by lia.
      by replace (S (length (dicts m)) - length (dicts m))%nat with 1%nat by lia.
  - intros m c x r key value Hx Hal Hr.
    destruct (addparam_shared m c x r key value Hx Hal Hr) as (Ho & Hp & Hc).
    split; [by eapply own_results_of|]. by split.
  - intros m c x r mi db Hx Hal Hr Hmi Hdb Hin Hrg.
    assert (own m c (params x) r) as Ho.
    { split; [by rewrite Hx; cbn; rewrite Hal|done]. }
    exists (put_dict (params x) (with_defaults E (cwd m) mi db r) m),
           (with_defaults E (cwd m) mi db r).
    split; [by eapply GlobalParams_run|]. split; [done|].
    assert (dicts (put_dict (params x) (with_defaults E (cwd m) mi db r) m)
              !! params x = Some (with_defaults E (cwd m) mi db r)) as Hd.
    { cbn. apply list_lookup_insert_eq. by eapply lookup_lt_Some. }
    split; [unfold results_of; cbn; rewrite Hx; cbn; by rewrite Hal|].
    split; [unfold params_of; cbn; by rewrite Hx|].
    unfold with_defaults.
    split; [by rewrite !lookup_insert_ne, lookup_insert_eq by done|].
    split; [by rewrite !lookup_insert_ne, lookup_insert_eq by done|].
    split.
    { eexists. split; [done|].
      split; [by rewrite !lookup_insert_ne, lookup_insert_eq by done|].
      by rewrite lookup_insert_eq. }
    split; [by intros ->|]. split; [by intros ->|].
    intros key Hk. rewrite !lookup_insert_ne; [done|..];
      intros <-; apply Hk; repeat constructor.
Qed.

(** * The store the parser builds *)

Lemma construct_comps k m :
  comps (construct k m).2 =
  (comps m ++ [Component k 0
                 (if decide (k = GlobalParamsComponent) then S (length (dicts m))
                  else length (dicts m))
                 (S (length (dicts m))) new_condition None])%list.
Proof.
  destruct k; cbn; try done.
  unfold update_comp. cbn. rewrite lookup_app_r by lia. rewrite Nat.sub_diag. cbn.
  rewrite insert_app_r_alt by lia. by rewrite Nat.sub_diag.
Qed.

Lemma parsing_construct k l m :
  parsing l m → parsing (l ++ [(construct k m).1]) (construct k m).2.
Proof.
  intros [Hl Hp Hb Hd]. split.
  - rewrite construct_fst, construct_comps, length_app, Hl. cbn.
    by rewrite Nat.add_1_r, seq_S.
  - rewrite construct_comps. apply Forall_app. split; [done|].
    by repeat constructor.
  - rewrite construct_comps, construct_dicts, length_app. cbn.
    apply Forall_app. split.
    + eapply Forall_impl; [exact Hb|]. cbn. intros; lia.
    + repeat constructor. cbn. case_decide; lia.
  - rewrite construct_comps, fmap_app. cbn.
    apply NoDup_app. split; [done|]. split; [|apply NoDup_singleton].
    intros r Hr. rewrite list_elem_of_singleton. intros ->.
    apply list_elem_of_fmap in Hr as (x & Hx & Hin).
    rewrite Forall_forall in Hb. specialize (Hb _ Hin).
    case_decide; lia.
Qed.

Lemma parsing_addparam c key val l m :
  parsing l m → parsing l (addparam c key val m).
Proof.
  intros [Hl Hp Hb Hd]. unfold addparam.
  destruct (comps m !! c) as [x|]; [|done].
  split; cbn; try done. by rewrite length_insert.
Qed.

Lemma parsing_finalize E c l m m' :
  parsing l m → finalize_parsing E c m = inr m' → parsing l m'.
Proof.
  intros [Hl Hp Hb Hd] Hf.
  assert (∃ b, m' = update_comp c (set_clobber b) m) as [b ->].
  { unfold finalize_parsing in Hf. repeat case_match; simplify_eq; eauto. }
  unfold update_comp. destruct (comps m !! c) as [x|] eqn:Hx; [|done].
  split; cbn.
  - by rewrite length_insert.
  - apply Forall_insert; [done|]. rewrite Forall_lookup in Hp.
    exact (Hp _ _ Hx).
  - apply Forall_insert; [done|]. rewrite Forall_lookup in Hb.
    exact (Hb _ _ Hx).
  - rewrite list_fmap_insert. cbn. rewrite list_insert_id; [done|].
    by rewrite list_lookup_fmap, Hx.
Qed.

Lemma parse_lines_parsing lines component l m l' m' :
  parsing l m → parse_lines lines component l m = inr (l', m') → parsing l' m'.
Proof.
  revert component l m.
  induction lines as [|[section|key val] lines IH]; intros component l m Hp;
    cbn [parse_lines].
  - by intros [= <- <-].
  - case_match.
    + apply IH. exact (parsing_construct GlobalParamsComponent l m Hp).
    + destruct (class_of_name section) as [k|]; [|done].
      destruct (construct k m) as [c m1] eqn:Hc.
      apply IH. pose proof (parsing_construct k l m Hp) as Hp'.
      by rewrite Hc in Hp'.
  - destruct component as [c|]; [|done].
    apply IH. by apply parsing_addparam.
Qed.

Lemma finalize_all_parsing E cl l m m' :
  parsing l m → finalize_all E cl m = inr m' → parsing l m'.
Proof.
  revert m. induction cl as [|c cl IH]; intros m Hp; cbn.
  - by intros [= <-].
  - destruct (finalize_parsing E c m) as [e|m1] eqn:Hf; [done|].
    apply IH. by eapply parsing_finalize.
Qed.


(** * The examples run *)


(** The first hydrology component of [hydro_mem], woken and out of the
    with block of its fetch on the general parameters. *)
Lemma fetch_sees_published_witness :
  all_pristine hydro_mem = true ∧
  distinct_results hydro_mem = true ∧
  run demo_externals (demo_body hydro_mem) caller_leaves (boot hydro_mem)
    = Some (state_after hydro_mem caller_leaves) ∧
  threads (state_after hydro_mem caller_leaves) !! 1%nat
    = Some (TFetch 0 FLeft (cont_at (state_after hydro_mem caller_leaves) 1)) ∧
  comps (shared (state_after hydro_mem caller_leaves)) !! 0%nat
    = Some (comp_at (state_after hydro_mem caller_leaves) 0) ∧
  (∃ s', step demo_externals (demo_body hydro_mem) (Thread 1)
           (state_after hydro_mem caller_leaves) = Some s' ∧
         threads s' !! 1%nat
           = Some (TBody (cont_at (state_after hydro_mem caller_leaves) 1
                            (fetch_outcome
                               (comp_at (state_after hydro_mem caller_leaves) 0))))) ∧
  status (comp_at (state_after hydro_mem caller_leaves) 0) ≠ 0.
Proof.
  assert (all_pristine hydro_mem = true) as H1 by (vm_compute; reflexivity).
  assert (distinct_results hydro_mem = true) as H2 by (vm_compute; reflexivity).
  assert (run demo_externals (demo_body hydro_mem) caller_leaves (boot hydro_mem)
          = Some (state_after hydro_mem caller_leaves)) as H3
    by (vm_compute; reflexivity).
  assert (threads (state_after hydro_mem caller_leaves) !! 1%nat
          = Some (TFetch 0 FLeft (cont_at (state_after hydro_mem caller_leaves) 1)))
    as H4 by (vm_compute; reflexivity).
  assert (comps (shared (state_after hydro_mem caller_leaves)) !! 0%nat
          = Some (comp_at (state_after hydro_mem caller_leaves) 0)) as H5
    by (vm_compute; reflexivity).
  split; [exact H1|]. split; [exact H2|]. split; [exact H3|].
  split; [exact H4|]. split; [exact H5|].
  pose proof (fetch_sees_published demo_externals (demo_body hydro_mem) hydro_mem
                caller_leaves _ 1%nat 0%nat _ _ H1 H2 H3 H4 H5) as (Ha & Hb & _).
  exact (conj Ha Hb).
Defined.

(** Both hydrology components of [hydro_mem] wait on the general
    parameters; the [notify_all] wakes both. *)
Lemma notify_releases_all_witness :
  all_pristine hydro_mem = true ∧
  run demo_externals (demo_body hydro_mem) two_waiting (boot hydro_mem)
    = Some (state_after hydro_mem two_waiting) ∧
  threads (state_after hydro_mem two_waiting) !! 0%nat = Some (TFinally None) ∧
  comps (shared (state_after hydro_mem two_waiting)) !! 0%nat
    = Some (comp_at (state_after hydro_mem two_waiting) 0) ∧
  ∃ s', step demo_externals (demo_body hydro_mem) (Thread 0)
          (state_after hydro_mem two_waiting) = Some s' ∧
        threads s' !! 1%nat
          = Some (TFetch 0 (FWoken 1) (cont_at (state_after hydro_mem two_waiting) 1)) ∧
        threads s' !! 2%nat
          = Some (TFetch 0 (FWoken 1) (cont_at (state_after hydro_mem two_waiting) 2)).
Proof.
  assert (all_pristine hydro_mem = true) as H1 by (vm_compute; reflexivity).
  assert (run demo_externals (demo_body hydro_mem) two_waiting (boot hydro_mem)
          = Some (state_after hydro_mem two_waiting)) as H2
    by (vm_compute; reflexivity).
  assert (threads (state_after hydro_mem two_waiting) !! 0%nat = Some (TFinally None))
    as H3 by (vm_compute; reflexivity).
  assert (comps (shared (state_after hydro_mem two_waiting)) !! 0%nat
          = Some (comp_at (state_after hydro_mem two_waiting) 0)) as H4
    by (vm_compute; reflexivity).
  split; [exact H1|]. split; [exact H2|]. split; [exact H3|]. split; [exact H4|].
  destruct (notify_releases_all demo_externals (demo_body hydro_mem) hydro_mem
              two_waiting _ 0%nat None _ H1 H2 H3 H4) as (s' & Hs & _ & Hwake & _).
  exists s'. split; [exact Hs|]. split.
  - apply (Hwake 1%nat 1%nat (cont_at (state_after hydro_mem two_waiting) 1)).
    vm_compute; reflexivity.
  - apply (Hwake 2%nat 1%nat (cont_at (state_after hydro_mem two_waiting) 2)).
    vm_compute; reflexivity.
Defined.

(** C2 fails on the code: the general parameters fail with a [KeyError]
    for [DBXMLlib] in one run and for [ModelInterface] in another, and the
    hydrology component, which fetches from them, is raised one and the
    same [RuntimeError] in both, with the class of the failed component
    in it and nothing of either [KeyError]. *)
Lemma fetch_forgets_cause :
  run demo_externals (demo_body no_dbxmllib_mem) (then_hydro 7) (boot no_dbxmllib_mem)
    = Some (state_after no_dbxmllib_mem (then_hydro 7)) ∧
  run demo_externals (demo_body no_modelinterface_mem) (then_hydro 5)
      (boot no_modelinterface_mem)
    = Some (state_after no_modelinterface_mem (then_hydro 5)) ∧
  threads (state_after no_dbxmllib_mem (then_hydro 7)) !! 0%nat
    = Some (TDone (Some (KeyError "DBXMLlib"))) ∧
  threads (state_after no_modelinterface_mem (then_hydro 5)) !! 0%nat
    = Some (TDone (Some (KeyError "ModelInterface"))) ∧
  fetch_outcome (comp_at (state_after no_dbxmllib_mem (then_hydro 7)) 0)
    = inl (RuntimeError "<class 'components.GlobalParamsComponent'>: wait() returned with non-success status!") ∧
  fetch_outcome (comp_at (state_after no_modelinterface_mem (then_hydro 5)) 0)
    = fetch_outcome (comp_at (state_after no_dbxmllib_mem (then_hydro 7)) 0) ∧
  threads (state_after no_dbxmllib_mem (then_hydro 7)) !! 1%nat
    = Some (TDone (Some (RuntimeError "<class 'components.GlobalParamsComponent'>: wait() returned with non-success status!"))) ∧
  threads (state_after no_modelinterface_mem (then_hydro 5)) !! 1%nat
    = threads (state_after no_dbxmllib_mem (then_hydro 7)) !! 1%nat.
Proof.
  repeat (apply conj; [vm_compute; reflexivity|]). vm_compute; reflexivity.
Qed.

(** The general parameters of [no_dbxmllib_mem] after their failure. *)
Lemma failed_fetch_raises_witness :
  all_pristine no_dbxmllib_mem = true ∧
  run demo_externals (demo_body no_dbxmllib_mem) (general_fails 7)
      (boot no_dbxmllib_mem)
    = Some (state_after no_dbxmllib_mem (general_fails 7)) ∧
  comps (shared (state_after no_dbxmllib_mem (general_fails 7))) !! 0%nat
    = Some (comp_at (state_after no_dbxmllib_mem (general_fails 7)) 0) ∧
  status (comp_at (state_after no_dbxmllib_mem (general_fails 7)) 0) = 2 ∧
  fetch_outcome (comp_at (state_after no_dbxmllib_mem (general_fails 7)) 0) =
    inl (RuntimeError
           (class_repr (klass (comp_at (state_after no_dbxmllib_mem (general_fails 7)) 0))
            +:+ ": wait() returned with non-success status!")).
Proof.
  assert (all_pristine no_dbxmllib_mem = true) as H1 by (vm_compute; reflexivity).
  assert (run demo_externals (demo_body no_dbxmllib_mem) (general_fails 7)
            (boot no_dbxmllib_mem)
          = Some (state_after no_dbxmllib_mem (general_fails 7))) as H2
    by (vm_compute; reflexivity).
  assert (comps (shared (state_after no_dbxmllib_mem (general_fails 7))) !! 0%nat
          = Some (comp_at (state_after no_dbxmllib_mem (general_fails 7)) 0)) as H3
    by (vm_compute; reflexivity).
  assert (status (comp_at (state_after no_dbxmllib_mem (general_fails 7)) 0) = 2)
    as H4 by (vm_compute; reflexivity).
  split; [exact H1|]. split; [exact H2|]. split; [exact H3|]. split; [exact H4|].
  exact (proj1 (failed_fetch_raises demo_externals (demo_body no_dbxmllib_mem)
                  no_dbxmllib_mem (general_fails 7) _ 0%nat _ H1 H2 H3 H4)).
Defined.

(** C3 fails on the code: the GCAM component whose executable is missing
    raises an [IOError] in its body; its thread ends with that error
    uncaught, and what is left for a fetch is status 2 and a
    [RuntimeError] that holds nothing of the [IOError]. *)
Lemma error_leaves_thread :
  run demo_externals (demo_body broken_mem) gcam_thread_ends (boot broken_mem)
    = Some (state_after broken_mem gcam_thread_ends) ∧
  threads (state_after broken_mem gcam_raises) !! 1%nat
    = Some (TBody (Raise (IOError "GcamComponent: File /opt/gcam/missing.exe does not exist!"))) ∧
  threads (state_after broken_mem gcam_thread_ends) !! 1%nat
    = Some (TDone (Some (IOError "GcamComponent: File /opt/gcam/missing.exe does not exist!"))) ∧
  status_of (shared (state_after broken_mem gcam_thread_ends)) 1 = Some 2 ∧
  fetch_outcome (comp_at (state_after broken_mem gcam_thread_ends) 1)
    = inl (RuntimeError "<class 'components.GcamComponent'>: wait() returned with non-success status!").
Proof.
  repeat (apply conj; [vm_compute; reflexivity|]). vm_compute; reflexivity.
Qed.

(** The GCAM component of [broken_mem] from the error of its body to the
    end of its thread. *)
Lemma failure_sets_status_and_reraises_witness :
  all_pristine broken_mem = true ∧
  run demo_externals (demo_body broken_mem) gcam_raises (boot broken_mem)
    = Some (state_after broken_mem gcam_raises) ∧
  comps (shared (state_after broken_mem gcam_raises)) !! 1%nat
    = Some (comp_at (state_after broken_mem gcam_raises) 1) ∧
  ∃ s1 s2 s3,
    step demo_externals (demo_body broken_mem) (Thread 1)
      (state_after broken_mem gcam_raises) = Some s1 ∧
    step demo_externals (demo_body broken_mem) (Thread 1) s1 = Some s2 ∧
    step demo_externals (demo_body broken_mem) (Thread 1) s2 = Some s3 ∧
    threads s3 !! 1%nat
      = Some (TDone (Some (IOError "GcamComponent: File /opt/gcam/missing.exe does not exist!"))).
Proof.
  assert (all_pristine broken_mem = true) as H1 by (vm_compute; reflexivity).
  assert (run demo_externals (demo_body broken_mem) gcam_raises (boot broken_mem)
          = Some (state_after broken_mem gcam_raises)) as H2
    by (vm_compute; reflexivity).
  assert (comps (shared (state_after broken_mem gcam_raises)) !! 1%nat
          = Some (comp_at (state_after broken_mem gcam_raises) 1)) as H3
    by (vm_compute; reflexivity).
  split; [exact H1|]. split; [exact H2|]. split; [exact H3|].
  pose proof (failure_sets_status_and_reraises demo_externals (demo_body broken_mem)
                broken_mem gcam_raises _ 1%nat _ H1 H2 H3) as (_ & Hraise).
  destruct (Hraise (IOError "GcamComponent: File /opt/gcam/missing.exe does not exist!"))
    as (s1 & s2 & s3 & x3 & Hs1 & Hs2 & Hs3 & _ & _ & _ & Hdone & _);
    [vm_compute; reflexivity|].
  exists s1, s2, s3. split; [exact Hs1|]. split; [exact Hs2|].
  split; [exact Hs3|exact Hdone].
Defined.

(** The whole run on [broken_mem]: one component of two has failed. *)
Lemma driver_reports_witness :
  all_pristine broken_mem = true ∧
  run demo_externals (demo_body broken_mem) broken_run (boot broken_mem)
    = Some (state_after broken_mem broken_run) ∧
  driver (state_after broken_mem broken_run) = Finished 1 ∧
  all_done (state_after broken_mem broken_run) ∧
  length (threads (state_after broken_mem broken_run))
    = length (comps (shared (state_after broken_mem broken_run))) ∧
  1%nat = count_failed (comps (shared (state_after broken_mem broken_run))).
Proof.
  assert (all_pristine broken_mem = true) as H1 by (vm_compute; reflexivity).
  assert (run demo_externals (demo_body broken_mem) broken_run (boot broken_mem)
          = Some (state_after broken_mem broken_run)) as H2
    by (vm_compute; reflexivity).
  assert (driver (state_after broken_mem broken_run) = Finished 1) as H3
    by (vm_compute; reflexivity).
  split; [exact H1|]. split; [exact H2|]. split; [exact H3|].
  pose proof (driver_reports demo_externals (demo_body broken_mem) broken_mem
                broken_run _ H1 H2) as (_ & _ & _ & _ & Hfin & _).
  exact (Hfin 1%nat H3).
Defined.

(** A parameter added to the general parameters of [demo_mem] shows in
    their results. *)
Lemma general_results_alias_params_witness :
  comps demo_mem !! 0%nat = Some (comp_at (boot demo_mem) 0) ∧
  results (comp_at (boot demo_mem) 0) = params (comp_at (boot demo_mem) 0) ∧
  results_of (addparam 0 "inputdir" "/data" demo_mem) 0
    = Some (<["inputdir" := VStr "/data"]> (default ∅ (params_of demo_mem 0))).
Proof.
  assert (comps demo_mem !! 0%nat = Some (comp_at (boot demo_mem) 0)) as H1
    by (vm_compute; reflexivity).
  assert (results (comp_at (boot demo_mem) 0) = params (comp_at (boot demo_mem) 0))
    as H2 by (vm_compute; reflexivity).
  split; [exact H1|]. split; [exact H2|].
  pose proof (general_results_alias_params demo_externals) as (_ & Hadd & _).
  refine (proj1 (Hadd demo_mem 0%nat _ _ "inputdir" "/data" H1 H2 _)).
  vm_compute; reflexivity.
Defined.

(** * What the parser leaves *)

Lemma capability_ComponentBase k :
  capability k = None → k = ComponentBase.
Proof. by destruct k. Qed.

Lemma layout_construct k cur m acc :
  parsed_layout cur m acc →
  parsed_layout (Some (construct k m).1) (construct k m).2 (acc ++ [∅]).
Proof.
  intros [Hs Hc Hd Hl Hp Hv Hr Ht].
  assert (length (comps (construct k m).2) = S (length (comps m))) as Hlen.
  { rewrite construct_comps, length_app. cbn. lia. }
  split.
  - rewrite Hlen, length_app. cbn. lia.
  - by rewrite Hlen, construct_fst.
  - rewrite construct_dicts, length_app, Hlen. cbn. lia.
  - intros c x. rewrite construct_comps.
    intros [Hx|[Hc' Hx]]%lookup_app_Some; [by apply Hl|].
    destruct (c - length (comps m))%nat as [|i] eqn:Hi; [|done].
    cbn in Hx. injection Hx as <-. cbn.
    assert (c = length (comps m)) as -> by lia.
    split; [lia|]. repeat case_decide; lia.
  - intros c Hlt. rewrite construct_dicts. rewrite Hlen in Hlt.
    destruct (decide (c = length (comps m))) as [->|Hne].
    + rewrite lookup_app_r by lia. rewrite lookup_app_r by lia.
      replace (S (2 * length (comps m)) - length (dicts m))%nat with 1%nat by lia.
      by replace (length (comps m) - length acc)%nat with 0%nat by lia.
    + rewrite !lookup_app_l by lia. apply Hp. lia.
  - intros c p key v. intros [Hx|[_ Hx]]%lookup_app_Some; [by eapply Hv|].
    destruct (c - length acc)%nat; [|done]. by injection Hx as <-.
  - intros c x. rewrite construct_comps, construct_dicts.
    intros [Hx|[Hc' Hx]]%lookup_app_Some Hk.
    + apply lookup_lt_Some in Hx as Hlt. rewrite lookup_app_l by lia. by eapply Hr.
    + destruct (c - length (comps m))%nat as [|i] eqn:Hi; [|done].
      rewrite lookup_app_r by lia.
      by replace (2 * c - length (dicts m))%nat with 0%nat by lia.
  - intros name c. rewrite construct_cap_tbl. unfold provides.
    rewrite construct_comps.
    set (x0 := Component k 0 _ _ _ _).
    assert (klass x0 = k) as Hk0 by done. clearbody x0.
    assert (∀ c' x', (comps m ++ [x0])%list !! c' = Some x' →
              comps m !! c' = Some x' ∨ (c' = length (comps m) ∧ x' = x0)) as Hsplit.
    { intros c' x' [?|[? Hx]]%lookup_app_Some; [by left|]. right.
      destruct (c' - length (comps m))%nat eqn:?; [|done].
      injection Hx as <-. split; [lia|done]. }
    assert ((comps m ++ [x0])%list !! length (comps m) = Some x0) as Hnew.
    { rewrite lookup_app_r by lia. by rewrite Nat.sub_diag. }
    destruct (capability k) as [name0|] eqn:Hcap.
    + destruct (decide (name = name0)) as [->|Hne].
      * rewrite lookup_insert_eq. split.
        -- intros [= <-]. split; [exists x0; by rewrite Hk0|].
           intros c' x' Hlt [Hx|[-> _]]%Hsplit; [|lia].
           apply lookup_lt_Some in Hx. lia.
        -- intros [(x & Hx & Hcx) Hlast]. f_equal.
           apply Hsplit in Hx as [Hx|[-> _]]; [|done].
           apply lookup_lt_Some in Hx as Hlt.
           destruct (Hlast _ _ Hlt Hnew). by rewrite Hk0.
      * rewrite lookup_insert_ne by done. rewrite Ht. unfold provides. split.
        -- intros [(x & Hx & Hcx) Hlast]. split.
           ++ exists x. split; [|done]. by apply lookup_app_l_Some.
           ++ intros c' x' Hlt [Hx'|[-> ->]]%Hsplit; [by eapply Hlast|].
              rewrite Hk0, Hcap. congruence.
        -- intros [(x & Hx & Hcx) Hlast].
           apply Hsplit in Hx as [Hx|[-> ->]];
             [|rewrite Hk0, Hcap in Hcx; congruence].
           split; [by exists x|].
           intros c' x' Hlt Hx'. eapply Hlast; [done|]. by apply lookup_app_l_Some.
    + rewrite Ht. unfold provides. split.
      * intros [(x & Hx & Hcx) Hlast]. split.
        -- exists x. split; [|done]. by apply lookup_app_l_Some.
        -- intros c' x' Hlt [Hx'|[-> ->]]%Hsplit; [by eapply Hlast|].
           by rewrite Hk0, Hcap.
      * intros [(x & Hx & Hcx) Hlast].
        apply Hsplit in Hx as [Hx|[-> ->]]; [|by rewrite Hk0, Hcap in Hcx].
        split; [by exists x|].
        intros c' x' Hlt Hx'. eapply Hlast; [done|]. by apply lookup_app_l_Some.
Qed.

Lemma layout_addparam c key val m acc :
  parsed_layout (Some c) m acc →
  parsed_layout (Some c) (addparam c key val m)
    (alter (insert key (VStr val)) (pred (length acc)) acc).
Proof.
  intros [Hs Hc Hd Hl Hp Hv Hr Ht].
  destruct (length (comps m)) as [|n] eqn:Hn; [done|]. injection Hc as ->.
  destruct (lookup_lt_is_Some_2 (comps m) n) as [x Hx]; [lia|].
  destruct (Hl _ _ Hx) as [Hpx Hrx].
  destruct (lookup_lt_is_Some_2 acc n) as [p Hacc]; [lia|].
  assert (dicts m !! S (2 * n) = Some p) as Hdp by (rewrite Hp; [done|lia]).
  unfold addparam. rewrite Hx. unfold dict_store, deref. rewrite Hpx, Hdp. cbn.
  rewrite Hs. cbn.
  split; cbn.
  - by rewrite length_alter, Hn.
  - by rewrite Hn.
  - by rewrite length_insert, Hn.
  - done.
  - intros c Hlt. destruct (decide (c = n)) as [->|Hne].
    + rewrite list_lookup_insert_eq by (by eapply lookup_lt_Some).
      by rewrite list_lookup_alter_eq, Hacc.
    + rewrite list_lookup_insert_ne by lia.
      rewrite list_lookup_alter_ne by done. apply Hp. lia.
  - intros c p' key' v. destruct (decide (c = n)) as [->|Hne].
    + rewrite list_lookup_alter_eq, Hacc. cbn. intros [= <-].
      destruct (decide (key' = key)) as [->|Hk].
      * rewrite lookup_insert_eq. intros [= <-]. eauto.
      * rewrite lookup_insert_ne by done. by eapply Hv.
    + rewrite list_lookup_alter_ne by done. by eapply Hv.
  - intros c y Hy Hk. rewrite list_lookup_insert_ne by lia. by eapply Hr.
  - done.
Qed.

(** The store changed in the components only, and in nothing the layout
    looks at. *)
Lemma layout_same cur m m' acc :
  parsed_layout cur m acc →
  dicts m' = dicts m → cap_tbl m' = cap_tbl m →
  length (comps m') = length (comps m) →
  (∀ c x x', comps m !! c = Some x → comps m' !! c = Some x' →
     klass x' = klass x ∧ params x' = params x ∧ results x' = results x) →
  parsed_layout cur m' acc.
Proof.
  intros [Hs Hc Hd Hl Hp Hv Hr Ht] Hdm Hcm Hlen Hsame.
  assert (∀ c x', comps m' !! c = Some x' →
            ∃ x, comps m !! c = Some x ∧ klass x' = klass x ∧
                 params x' = params x ∧ results x' = results x) as Hback.
  { intros c x' Hx'. destruct (lookup_lt_is_Some_2 (comps m) c) as [x Hx].
    { rewrite <- Hlen. by eapply lookup_lt_Some. }
    exists x. split; [done|]. by eapply Hsame. }
  assert (∀ c x, comps m !! c = Some x →
            ∃ x', comps m' !! c = Some x' ∧ klass x' = klass x) as Hfwd.
  { intros c x Hx. destruct (lookup_lt_is_Some_2 (comps m') c) as [x' Hx'].
    { rewrite Hlen. by eapply lookup_lt_Some. }
    exists x'. split; [done|]. by eapply Hsame. }
  split; rewrite ?Hdm, ?Hlen, ?Hcm; try done.
  - intros c x' (x & Hx & Hk & Hpx & Hrx)%Hback. rewrite Hk, Hpx, Hrx. by apply Hl.
  - intros c x' (x & Hx & Hk & _)%Hback. rewrite Hk. by apply Hr.
  - intros name c. rewrite Ht. unfold provides. split.
    + intros [(x & Hx & Hcx) Hlast]. split.
      * destruct (Hfwd _ _ Hx) as (x' & Hx' & Hk). exists x'. by rewrite Hk.
      * intros c' x' Hlt (y & Hy & Hk & _)%Hback. rewrite Hk. by eapply Hlast.
    + intros [(x' & Hx' & Hcx) Hlast]. split.
      * destruct (Hback _ _ Hx') as (x & Hx & Hk & _). exists x. by rewrite <- Hk.
      * intros c' y Hlt Hy. destruct (Hfwd _ _ Hy) as (y' & Hy' & Hk).
        rewrite <- Hk. by eapply Hlast.
Qed.

Lemma parse_lines_layout lines cur l m acc l' m' :
  parsed_layout cur m acc →
  parse_lines lines cur l m = inr (l', m') →
  ∃ cur', parsed_layout cur' m' (section_params lines acc).
Proof.
  revert cur l m acc.
  induction lines as [|[section|key val] lines IH]; intros cur l m acc Hp;
    cbn [parse_lines section_params].
  - intros [= <- <-]. eauto.
  - case_match.
    + apply IH. exact (layout_construct GlobalParamsComponent cur m acc Hp).
    + destruct (class_of_name section) as [k|]; [|done].
      destruct (construct k m) as [c m1] eqn:Hc.
      apply IH. pose proof (layout_construct k cur m acc Hp) as Hp'.
      by rewrite Hc in Hp'.
  - destruct cur as [c|]; [|done].
    apply IH. by apply layout_addparam.
Qed.

(** What [finalize_parsing] over a list of components changes: the
    [clobber] attribute of the components listed, and nothing else. *)
Lemma finalize_all_clobber E cl m m' :
  finalize_all E cl m = inr m' →
  dicts m' = dicts m ∧ cap_tbl m' = cap_tbl m ∧
  length (comps m') = length (comps m) ∧
  ∀ c x x', comps m !! c = Some x → comps m' !! c = Some x' →
    klass x' = klass x ∧ params x' = params x ∧ results x' = results x ∧
    status x' = status x ∧ cond x' = cond x ∧
    clobber x' = if bool_decide (c ∈ cl)
                 then Some (clobber_of E (default ∅ (dicts m !! params x)))
                 else clobber x.
Proof.
  revert m. induction cl as [|c0 cl IH]; intros m; cbn.
  - intros [= <-]. split; [done|]. split; [done|]. split; [done|].
    intros c x x' Hx Hx'. by simplify_eq.
  - destruct (finalize_parsing E c0 m) as [e|m1] eqn:Hf; [done|]. intros Hall.
    destruct (IH _ Hall) as (Hd & Ht & Hlen & Hc).
    assert (m1 = update_comp c0
                   (set_clobber (clobber_of E (default ∅ (params_of m c0)))) m)
      as ->.
    { unfold finalize_parsing, clobber_of in *. repeat case_match; by simplify_eq. }
    rewrite update_comp_dicts in Hd. rewrite update_comp_length in Hlen.
    split; [done|]. split.
    { rewrite Ht. unfold update_comp. by destruct (comps m !! c0). }
    split; [done|].
    intros c x x' Hx Hx'.
    destruct (decide (c = c0)) as [->|Hne].
    + specialize (Hc c0 (set_clobber (clobber_of E (default ∅ (params_of m c0))) x) x').
      rewrite (update_comp_lookup _ _ _ _ Hx) in Hc.
      destruct (Hc eq_refl Hx') as (? & ? & ? & ? & ? & Hcl).
      repeat split; try done.
      rewrite bool_decide_eq_true_2 by apply list_elem_of_here.
      rewrite Hcl. cbn. rewrite update_comp_dicts.
      case_bool_decide; [done|]. unfold params_of. by rewrite Hx.
    + specialize (Hc c x x'). rewrite update_comp_lookup_ne in Hc by done.
      destruct (Hc Hx Hx') as (? & ? & ? & ? & ? & Hcl).
      repeat split; try done. rewrite Hcl, update_comp_dicts.
      repeat case_bool_decide; try done; exfalso;
        rewrite elem_of_cons in *; intuition congruence.
Qed.

Lemma layout_empty f d : parsed_layout None (empty_mem f d) [].
Proof.
  split; cbn; try done.
  intros name c. unfold provides. cbn. rewrite lookup_empty. split; [done|].
  by intros [(x & Hx & _) _].
Qed.

Lemma gcam_parse_layout E lines f d l m :
  gcam_parse E lines (empty_mem f d) = inr (l, m) →
  (∃ cur, parsed_layout cur m (section_params lines [])) ∧
  ∀ c x, comps m !! c = Some x →
    clobber x = Some (clobber_of E (default ∅ (dicts m !! params x))).
Proof.
  unfold gcam_parse.
  destruct (parse_lines lines None [] (empty_mem f d)) as [e|[l1 m1]] eqn:Hp; [done|].
  destruct (finalize_all E l1 m1) as [e|m2] eqn:Hf; [done|].
  intros [= <- <-].
  destruct (parse_lines_layout _ _ _ _ _ _ _ (layout_empty f d) Hp) as [cur Hlay].
  destruct (finalize_all_clobber _ _ _ _ Hf) as (Hd & Ht & Hlen & Hc).
  split.
  - exists cur. eapply layout_same; [done..|].
    intros c x x' Hx Hx'. destruct (Hc _ _ _ Hx Hx') as (? & ? & ? & _). done.
  - intros c x' Hx'.
    destruct (lookup_lt_is_Some_2 (comps m1) c) as [x Hx].
    { rewrite <- Hlen. by eapply lookup_lt_Some. }
    destruct (Hc _ _ _ Hx Hx') as (_ & Hpx & _ & _ & _ & Hcl).
    rewrite Hcl, Hd, Hpx. rewrite bool_decide_eq_true_2; [done|].
    assert (parsing [] (empty_mem f d)) as H0 by (split; cbn; try done; constructor).
    destruct (parse_lines_parsing _ _ _ _ _ _ H0 Hp) as [-> _ _ _].
    apply elem_of_seq. apply lookup_lt_Some in Hx. lia.
Qed.








(** * The lock of a component *)

Section Locking.
Context (E : externals) (body : cid → work Z).

Lemma component_of_thread s t ts :
  inv s → threads s !! t = Some ts → ∃ x, comps (shared s) !! t = Some x.
Proof.
  intros Hi Ht. apply lookup_lt_is_Some_2. rewrite <- (inv_len _ Hi).
  by eapply lookup_lt_Some.
Qed.

(** A thread that holds the lock of [d] is its owner. *)
Lemma holder_owns s d x t ts :
  inv s → comps (shared s) !! d = Some x → threads s !! t = Some ts →
  (0 < holds t d ts)%nat →
  owner (cond x) = Some (t, holds t d ts).
Proof.
  intros Hi Hx Ht Hh. pose proof (inv_lock _ Hi _ _ _ _ Hx Ht) as Hl.
  unfold owner_count in Hl. destruct (owner (cond x)) as [[t' n]|]; [|lia].
  case_decide; [|lia]. by subst.
Qed.

(** A thread that does not hold the lock of [d] cannot take it while
    another does. *)
Lemma lock_busy s d x t t' n k pc :
  comps (shared s) !! d = Some x → owner (cond x) = Some (t', n) → t' ≠ t →
  pc = FEnter ∨ (∃ n', pc = FWoken n') →
  fetch_step t d pc k s = None.
Proof.
  intros Hx Ho Hne Hpc. unfold fetch_step. rewrite Hx. cbn.
  destruct Hpc as [->|[n' ->]].
  - unfold acquire. rewrite Ho. by rewrite decide_False.
  - unfold end_wait. by rewrite Ho.
Qed.

Lemma stuck_cannot_step s ws t :
  inv s → stuck_threads s ws → t ∈ ws → thread_step E body t s = None.
Proof.
  intros Hi Hst Ht.
  destruct (Hst _ Ht) as (d & pc & k & Hts & Hd & Hpc).
  unfold thread_step. rewrite Hts. cbn.
  destruct (comps (shared s) !! t) as [y|]; [|done]. cbn.
  destruct Hpc as [[n ->]|(-> & d' & pc' & k' & Hdt & Hne)].
  - unfold fetch_step. by destruct (comps (shared s) !! d).
  - destruct (component_of_thread _ _ _ Hi Hdt) as [x Hx].
    eapply (lock_busy _ _ _ _ d); [done| |congruence|by left].
    rewrite (holder_owns s d x d _ Hi Hx Hdt); cbn; rewrite decide_False by done;
      rewrite decide_True by done; [done|lia].
Qed.

Lemma stuck_step s ws a s' :
  inv s → stuck_threads s ws → step E body a s = Some s' →
  ∀ t, t ∈ ws → threads s' !! t = threads s !! t.
Proof.
  intros Hi Hst Hs t Ht.
  destruct (Hst _ Ht) as (d & pc & k & Hts & Hd & Hpc).
  destruct a as [|u]; cbn in Hs.
  - destruct (main_step_cases _ _ Hs) as [(i & _ & _ & Hnew & ->)|(-> & _)];
      [|done].
    cbn. rewrite list_lookup_insert_ne; [done|]. intros ->. congruence.
  - destruct (decide (u ∈ ws)) as [Hu|Hu].
    { by rewrite (stuck_cannot_step _ _ _ Hi Hst Hu) in Hs. }
    apply thread_step_tstep in Hs.
    assert (t ≠ u) as Hne by (intros ->; done).
    destruct (tstep_other _ _ _ _ _ _ _ Hs Hi Hne Hts)
      as [->|(n & k' & e & Heq & _)]; [done|].
    injection Heq as -> _ _. done.
Qed.

Lemma stuck_kept s ws s' :
  stuck_threads s ws → (∀ t, t ∈ ws → threads s' !! t = threads s !! t) → stuck_threads s' ws.
Proof.
  intros Hst Hsame t Ht.
  destruct (Hst _ Ht) as (d & pc & k & Hts & Hd & Hpc).
  exists d, pc, k. rewrite (Hsame _ Ht). split; [done|]. split; [done|].
  destruct Hpc as [?|(-> & d' & pc' & k' & Hdt & Hne)]; [by left|].
  right. split; [done|]. exists d', pc', k'. by rewrite (Hsame _ Hd).
Qed.

Lemma stuck_run sched s ws s' :
  inv s → stuck_threads s ws → run E body sched s = Some s' →
  ∀ t, t ∈ ws → threads s' !! t = threads s !! t.
Proof.
  revert s. induction sched as [|a sched IH]; intros s Hi Hst; cbn.
  - by intros [= ->].
  - destruct (step E body a s) as [s1|] eqn:Hs; [|done]. cbn. intros Hr t Ht.
    pose proof (stuck_step _ _ _ _ Hi Hst Hs) as H1.
    rewrite <- (H1 _ Ht). eapply IH; [by eapply step_inv|by eapply stuck_kept|done..].
Qed.
End Locking.


Lemma stuck_true s ws : stuck s ws = true → stuck_threads s ws.
Proof.
  unfold stuck. rewrite forallb_forall. intros H t Ht.
  specialize (H t (proj1 (list_elem_of_In _ _) Ht)). unfold stuck_at in H.
  destruct (threads s !! t) as [[| | |d pc k| | |]|] eqn:Hts; try done.
  exists d, pc, k. split; [done|].
  destruct pc; try done.
  - apply andb_true_iff in H as [Hd H]. apply bool_decide_eq_true in Hd.
    split; [done|]. right. split; [done|].
    destruct (threads s !! d) as [[| | |d' pc' k'| | |]|]; try done.
    apply bool_decide_eq_true in H. eauto 10.
  - apply bool_decide_eq_true in H. split; [done|]. left. eauto.
Qed.

(** X6. Threads caught in a circle of fetches stay where they are for good.
    Where every thread of a set is inside a fetch on a component of the
    set, suspended in [wait()] or held at the lock of a component whose
    own thread is inside a fetch on another, then in every later state
    each of them stands as it stood and cannot move, the status of each
    is still 0, and the main program has not come to its report. *)
Theorem circular_fetch_never_ends E body m sched s ws :
  all_pristine m = true →
  run E body sched (boot m) = Some s →
  stuck s ws = true →
  ∀ sched' s', run E body sched' s = Some s' →
    (∀ t, t ∈ ws →
       threads s' !! t = threads s !! t ∧
       step E body (Thread t) s' = None ∧
       status_of (shared s') t = Some 0) ∧
    (ws ≠ [] → ∀ fail, driver s' ≠ Finished fail).
Proof.
  intros Hm Hr Hst%stuck_true sched' s' Hr'.
  pose proof (reachable_inv _ _ _ _ _ Hm Hr) as Hi.
  pose proof (run_inv _ _ _ _ _ Hr' Hi) as Hi'.
  pose proof (stuck_run E body _ _ _ _ Hi Hst Hr') as Hsame.
  pose proof (stuck_kept _ _ _ Hst Hsame) as Hst'.
  assert (∀ t, t ∈ ws → ∃ d pc k, threads s' !! t = Some (TFetch d pc k)) as Hin.
  { intros t Ht. destruct (Hst' _ Ht) as (d & pc & k & Hts & _). eauto. }
  split.
  - intros t Ht. split; [by apply Hsame|].
    split; [by eapply stuck_cannot_step|].
    destruct (Hin _ Ht) as (d & pc & k & Hts).
    destruct (component_of_thread _ _ _ Hi' Hts) as [x Hx].
    unfold status_of. rewrite Hx. cbn.
    by rewrite (inv_status _ Hi' _ _ _ Hx Hts).
  - intros Hne fail Hf. destruct ws as [|t ws]; [done|].
    destruct (Hin t) as (d & pc & k & Hts); [apply list_elem_of_here|].
    pose proof (inv_driver _ Hi') as Hd. unfold driver_ok in Hd. rewrite Hf in Hd.
    destruct Hd as [Hall _]. by destruct (Hall _ _ Hts).
Qed.

(** Two components that fetch from each other: the first waits on the
    second, the second is held at the lock of the first. *)
Lemma circular_fetch_never_ends_witness :
  all_pristine two_gcam = true ∧
  run demo_externals crossed crossed_sched (boot two_gcam) = Some crossed_state ∧
  stuck crossed_state [0; 1]%nat = true ∧
  ∀ fail, driver crossed_state ≠ Finished fail.
Proof.
  assert (all_pristine two_gcam = true) as H1 by (vm_compute; reflexivity).
  assert (run demo_externals crossed crossed_sched (boot two_gcam)
          = Some crossed_state) as H2 by (vm_compute; reflexivity).
  assert (stuck crossed_state [0; 1]%nat = true) as H3 by (vm_compute; reflexivity).
  split; [exact H1|]. split; [exact H2|]. split; [exact H3|].
  refine (proj2 (circular_fetch_never_ends demo_externals crossed two_gcam
                   crossed_sched crossed_state [0; 1]%nat H1 H2 H3 [] crossed_state
                   eq_refl) _).
  discriminate.
Defined.

(** X7. Where a thread can be held up.  In every state the program reaches, a
    thread that is in its body, at the end of its wrapper, or inside or
    past the with block of a fetch can take its next step.  A thread that
    cannot is not yet started, or has ended, or is suspended in
    [wait()], or is about to take the lock of a component, at the entry
    of its wrapper or of a fetch or on its return from [wait()], while
    another thread holds that lock (or the fetch is on no component). *)
Theorem thread_held_only_at_lock E body m sched s t ts :
  all_pristine m = true →
  run E body sched (boot m) = Some s →
  threads s !! t = Some ts →
  (past_lock ts = true → is_Some (step E body (Thread t) s)) ∧
  (step E body (Thread t) s = None →
     ts = TNew ∨ (∃ e, ts = TDone e) ∨
     (∃ d n k, ts = TFetch d (FWaiting n) k) ∨
     ∃ d, lock_wanted t ts = Some d ∧
          (comps (shared s) !! d = None ∨
           ∃ x t' n, comps (shared s) !! d = Some x ∧
                     owner (cond x) = Some (t', n) ∧ t' ≠ t)).
Proof.
  intros Hm Hr Ht. pose proof (reachable_inv _ _ _ _ _ Hm Hr) as Hi.
  destruct (component_of_thread _ _ _ Hi Ht) as [y Hy].
  assert (step E body (Thread t) s = None →
     ts = TNew ∨ (∃ e, ts = TDone e) ∨
     (∃ d n k, ts = TFetch d (FWaiting n) k) ∨
     ∃ d, lock_wanted t ts = Some d ∧
          (comps (shared s) !! d = None ∨
           ∃ x t' n, comps (shared s) !! d = Some x ∧
                     owner (cond x) = Some (t', n) ∧ t' ≠ t)) as Hheld.
  { cbn. intros Hnone.
    destruct ts as [| |w|d pc k|e|e|e]; eauto.
    - do 3 right. exists t. split; [done|]. right.
      unfold thread_step in Hnone. rewrite Ht, Hy in Hnone. cbn in Hnone.
      unfold acquire in Hnone.
      destruct (owner (cond y)) as [[t' n]|] eqn:Ho; [|done].
      case_decide; [done|]. eauto 10.
    - unfold thread_step in Hnone. rewrite Ht, Hy in Hnone. cbn in Hnone.
      destruct w; try done. by case_decide. by destruct (interp_op E t o (shared s)).
    - pose proof (inv_fetch _ Hi _ _ _ _ Ht) as Hf.
      unfold thread_step in Hnone. rewrite Ht, Hy in Hnone. cbn in Hnone.
      unfold fetch_step in Hnone.
      destruct (comps (shared s) !! d) as [x|] eqn:Hx.
      + cbn in Hnone.
        pose proof (inv_lock _ Hi _ _ _ _ Hx Ht) as Hl. cbn in Hl.
        rewrite decide_True in Hl by done.
        assert (in_block pc = true → ∃ n, owner (cond x) = Some (t, S n)) as Hmine.
        { intros Hb. destruct pc; try done; cbn in Hl; unfold owner_count in Hl;
            (destruct (owner (cond x)) as [[t' [|n']]|];
             [destruct (decide (t' = t)); lia
             |destruct (decide (t' = t)) as [->|]; [eauto|lia]
             |lia]). }
        destruct pc as [| | |n|n| |].
        * do 3 right. exists d. split; [done|]. right. unfold acquire in Hnone.
          destruct (owner (cond x)) as [[t' n0]|] eqn:Ho; [|done].
          destruct (decide (t' = t)) as [->|Hne]; [done|]. eauto 10.
        * destruct (decide (status x = 0)); [done|].
          destruct (Hmine eq_refl) as [n0 Ho]. unfold release in Hnone.
          rewrite Ho in Hnone. by rewrite decide_True in Hnone.
        * destruct (Hmine eq_refl) as [n0 Ho]. unfold begin_wait in Hnone.
          rewrite Ho in Hnone. by rewrite decide_True in Hnone.
        * eauto 10.
        * do 3 right. exists d. split; [done|]. right. unfold end_wait in Hnone.
          destruct (owner (cond x)) as [[t' n']|] eqn:Ho; [|done].
          exists x, t', n'. split; [done|]. split; [done|]. intros ->.
          cbn in Hl. rewrite decide_True in Hl by done.
          destruct (inv_owner _ Hi _ _ _ _ Hx Ho). lia.
        * destruct (Hmine eq_refl) as [n0 Ho]. unfold release in Hnone.
          rewrite Ho in Hnone. by rewrite decide_True in Hnone.
        * done.
      + destruct pc as [| | |n|n| |]; cbn in Hf.
        * do 3 right. exists d. split; [done|]. by left.
        * destruct Hf as [x Hx']. congruence.
        * destruct Hf as (x & Hx' & _). congruence.
        * do 2 right. left. eauto.
        * destruct Hf as (_ & x & Hx' & _). congruence.
        * destruct Hf as (x & Hx' & _). congruence.
        * destruct Hf as (x & Hx' & _). congruence.
    - pose proof (runner_notifies E body _ _ _ _ Hi Ht Hy) as Hs.
      apply (tstep_thread_step E body _ _ _ Hi) in Hs. congruence.
    - pose proof (runner_exits E body _ _ _ _ Hi Ht Hy) as Hs.
      apply (tstep_thread_step E body _ _ _ Hi) in Hs. congruence. }
  split; [|done].
  intros Hp. destruct (step E body (Thread t) s) eqn:Hs; [done|].
  destruct (Hheld eq_refl) as [->|[[e ->]|[(d & n & k & ->)|(d & Hw & _)]]];
    try done.
  destruct ts as [| |w|d' pc k|e|e|e]; try done. by destruct pc.
Qed.

(** The GCAM component of [demo_mem] at the return of its body can go on. *)
Lemma thread_held_only_at_lock_witness :
  all_pristine demo_mem = true ∧
  run demo_externals (demo_body demo_mem) gcam_returns (boot demo_mem)
    = Some (state_after demo_mem gcam_returns) ∧
  threads (state_after demo_mem gcam_returns) !! 1%nat = Some (TBody (Ret 0)) ∧
  is_Some (step demo_externals (demo_body demo_mem) (Thread 1)
             (state_after demo_mem gcam_returns)).
Proof.
  assert (all_pristine demo_mem = true) as H1 by (vm_compute; reflexivity).
  assert (run demo_externals (demo_body demo_mem) gcam_returns (boot demo_mem)
          = Some (state_after demo_mem gcam_returns)) as H2
    by (vm_compute; reflexivity).
  assert (threads (state_after demo_mem gcam_returns) !! 1%nat
          = Some (TBody (Ret 0))) as H3 by (vm_compute; reflexivity).
  split; [exact H1|]. split; [exact H2|]. split; [exact H3|].
  exact (proj1 (thread_held_only_at_lock demo_externals (demo_body demo_mem)
                  demo_mem gcam_returns _ 1%nat _ H1 H2 H3) eq_refl).
Defined.


(** * A body run by its thread *)

Lemma set_cond_same x : set_cond (cond x) x = x.
Proof. by destruct x. Qed.

Lemma with_comps_same m : with_comps (comps m) m = m.
Proof. by destruct m. Qed.

Lemma put_cond_restore d cv x m :
  comps m !! d = Some x → put_cond d (cond x) (put_cond d cv m) = m.
Proof.
  intros Hx. unfold put_cond, update_comp. rewrite Hx. cbn.
  rewrite list_lookup_insert_eq by (by eapply lookup_lt_Some). cbn.
  rewrite list_insert_insert_eq. cbn.
  change (set_cond (cond x) (set_cond cv x)) with (set_cond (cond x) x).
  rewrite set_cond_same, list_insert_id by done.
  by destruct m.
Qed.

Lemma update_comp_rest c f m :
  fs (update_comp c f m) = fs m ∧ launched (update_comp c f m) = launched m ∧
  cap_tbl (update_comp c f m) = cap_tbl m ∧ workdirs (update_comp c f m) = workdirs m.
Proof. unfold update_comp. by destruct (comps m !! c). Qed.

Section Alone.
Context (E : externals) (body : cid → work Z).

(** With the others idle, the lock of every other component is free. *)
Lemma idle_free s c w d x :
  inv s → threads s !! c = Some (TBody w) → others_idle s c →
  d ≠ c → comps (shared s) !! d = Some x → owner (cond x) = None.
Proof.
  intros Hi Hc Hidle Hne Hx.
  destruct (owner (cond x)) as [[t n]|] eqn:Ho; [|done].
  destruct (inv_owner _ Hi _ _ _ _ Hx Ho) as [Hn Ht].
  destruct (lookup_lt_is_Some_2 _ _ Ht) as [ts Hts].
  pose proof (inv_lock _ Hi _ _ _ _ Hx Hts) as Hl. rewrite Ho in Hl. cbn in Hl.
  rewrite decide_True in Hl by done.
  destruct (decide (t = c)) as [->|Htc].
  - rewrite Hc in Hts. injection Hts as <-. cbn in Hl.
    rewrite decide_False in Hl by done. lia.
  - pose proof (Hidle _ _ Htc Hts) as Hid. destruct ts; try done; cbn in Hl; lia.
Qed.

Lemma others_idle_put s c ts m :
  others_idle s c → others_idle (put c ts m s) c.
Proof.
  intros Hidle t ts' Hne. cbn. rewrite list_lookup_insert_ne by done.
  by apply Hidle.
Qed.

(** A fetch on a component that has finished, made while the others are
    idle: four steps, and the store is as it was. *)
Lemma fetch_alone s c d k x :
  inv s → threads s !! c = Some (TBody (Fetch d k)) → others_idle s c →
  comps (shared s) !! d = Some x → status x ≠ 0 →
  run E body (replicate 4 (Thread c)) s
  = Some (put c (TBody (k (fetch_outcome x))) (shared s) s).
Proof.
  intros Hi Hc Hidle Hx Hst.
  destruct (component_of_thread _ _ _ Hi Hc) as [y Hy].
  assert (d ≠ c) as Hne.
  { intros ->. pose proof (inv_status _ Hi _ _ _ Hx Hc). done. }
  pose proof (idle_free _ _ _ _ _ Hi Hc Hidle Hne Hx) as Ho.
  assert (c < length (threads s))%nat as Hlt by (by eapply lookup_lt_Some).
  pose proof (step_call E body c s y d k Hc Hy) as H1.
  pose proof (tstep_inv _ _ _ _ _ H1 Hi) as Hi1.
  set (cv1 := Condition (Some (c, 1%nat)) (waiting (cond x))).
  set (s1 := put c (TFetch d FEnter k) (shared s) s) in *.
  assert (tstep E body c s1
            (put c (TFetch d FLocked k) (put_cond d cv1 (shared s1)) s1)) as H2.
  { apply (step_lock E body c s1 d k x cv1).
    - cbn. by apply list_lookup_insert_eq.
    - done.
    - unfold acquire. by rewrite Ho. }
  pose proof (tstep_inv _ _ _ _ _ H2 Hi1) as Hi2.
  set (s2 := put c (TFetch d FLocked k) (put_cond d cv1 (shared s1)) s1) in *.
  assert (tstep E body c s2
            (put c (TFetch d FLeft k) (put_cond d (cond x) (shared s2)) s2)) as H3.
  { apply (step_ready E body c s2 d k (set_cond cv1 x) (cond x)).
    - cbn. apply list_lookup_insert_eq. by rewrite length_insert.
    - cbn. by rewrite lookup_put_cond, decide_True, Hx.
    - done.
    - unfold release. cbn. rewrite decide_True by done.
      destruct (cond x); cbn in *; congruence. }
  pose proof (tstep_inv _ _ _ _ _ H3 Hi2) as Hi3.
  set (s3 := put c (TFetch d FLeft k) (put_cond d (cond x) (shared s2)) s2) in *.
  assert (shared s3 = shared s) as Hsh.
  { unfold s3, s2, s1. cbn. exact (put_cond_restore _ _ _ _ Hx). }
  assert (tstep E body c s3
            (put c (TBody (k (fetch_outcome x))) (shared s3) s3)) as H4.
  { apply (step_outcome E body c s3 d k x).
    - cbn. apply list_lookup_insert_eq. by rewrite !length_insert.
    - by rewrite Hsh. }
  replace (put c (TBody (k (fetch_outcome x))) (shared s) s)
    with (put c (TBody (k (fetch_outcome x))) (shared s3) s3).
  2:{ rewrite Hsh. unfold put, s3, s2, s1. cbn.
      by rewrite !list_insert_insert_eq. }
  change (replicate 4 (Thread c)) with [Thread c; Thread c; Thread c; Thread c].
  eapply run_cons; [cbn; by apply tstep_thread_step|].
  eapply run_cons; [cbn; by apply tstep_thread_step|].
  eapply run_cons; [cbn; by apply tstep_thread_step|].
  eapply run_cons; [cbn; by apply tstep_thread_step|]. done.
Qed.

Lemma body_alone w : ∀ s c w',
  inv s → threads s !! c = Some (TBody w) → others_idle s c →
  settled (exec E c w (shared s)) = Some w' →
  ∃ n, run E body (replicate n (Thread c)) s
       = Some (put c (TBody w') (final (exec E c w (shared s))) s).
Proof.
  assert (∀ s c w0, threads s !! c = Some w0 → put c w0 (shared s) s = s) as Hid.
  { intros s c w0 H. destruct s as [m ths dr]. unfold put. cbn in *.
    by rewrite list_insert_id. }
  induction w as [a|e|X o k IH|d k IH]; intros s c w' Hi Hc Hidle; cbn.
  - intros [= <-]. exists 0%nat. cbn. by rewrite Hid.
  - intros [= <-]. exists 0%nat. cbn. by rewrite Hid.
  - destruct (interp_op E c o (shared s)) as [r m1] eqn:Ho. intros Hw.
    destruct (component_of_thread _ _ _ Hi Hc) as [y Hy].
    assert (step E body (Thread c) s = Some (put c (TBody (k r)) m1 s)) as Hs.
    { cbn. unfold thread_step. rewrite Hc, Hy. cbn. by rewrite Ho. }
    set (s1 := put c (TBody (k r)) m1 s) in *.
    assert (threads s1 !! c = Some (TBody (k r))) as Hc1.
    { unfold s1. cbn. apply list_lookup_insert_eq. by eapply lookup_lt_Some. }
    destruct (IH r s1 c w' (step_inv _ _ _ _ _ Hs Hi) Hc1
                (others_idle_put _ _ _ _ Hidle) Hw) as [n Hr].
    exists (S n). cbn -[step]. rewrite Hs. cbn -[step]. rewrite Hr.
    unfold s1, put. cbn. by rewrite list_insert_insert_eq.
  - destruct (comps (shared s) !! d) as [x|] eqn:Hx; [|done].
    case_decide as Hst; [done|]. intros Hw.
    pose proof (fetch_alone _ _ _ _ _ Hi Hc Hidle Hx Hst) as Hf.
    set (s1 := put c (TBody (k (fetch_outcome x))) (shared s) s) in *.
    assert (threads s1 !! c = Some (TBody (k (fetch_outcome x)))) as Hc1.
    { unfold s1. cbn. apply list_lookup_insert_eq. by eapply lookup_lt_Some. }
    destruct (IH (fetch_outcome x) s1 c w' (run_inv _ _ _ _ _ Hf Hi) Hc1
                (others_idle_put _ _ _ _ Hidle) Hw) as [n Hr].
    exists (4 + n)%nat. rewrite replicate_add, run_app, Hf. cbn -[run].
    rewrite Hr. unfold s1, put. cbn. by rewrite list_insert_insert_eq.
Qed.

(** From [notify_all] to the end of the thread. *)
Lemma finally_ends s c x e :
  inv s → threads s !! c = Some (TFinally e) → comps (shared s) !! c = Some x →
  ∃ s' x',
    run E body [Thread c; Thread c] s = Some s' ∧
    threads s' = <[c := TDone e]> (wake_all (waiting (cond x)) (threads s)) ∧
    comps (shared s') !! c = Some x' ∧ status x' = status x ∧
    owner (cond x') = None ∧
    dicts (shared s') = dicts (shared s) ∧ fs (shared s') = fs (shared s) ∧
    launched (shared s') = launched (shared s).
Proof.
  intros Hi Hc Hx.
  pose proof (runner_notifies E body _ _ _ _ Hi Hc Hx) as H1.
  pose proof (tstep_inv _ _ _ _ _ H1 Hi) as Hi1.
  set (s1 := Sys _ _ _) in *.
  assert (c < length (threads s))%nat as Hlt by (by eapply lookup_lt_Some).
  assert (threads s1 !! c = Some (TExit e)) as Hc1.
  { unfold s1. cbn. apply list_lookup_insert_eq. by rewrite length_wake_all. }
  assert (comps (shared s1) !! c
          = Some (set_cond (Condition (owner (cond x)) []) x)) as Hx1.
  { unfold s1. cbn. by rewrite lookup_put_cond, decide_True, Hx. }
  pose proof (runner_exits E body _ _ _ _ Hi1 Hc1 Hx1) as H2.
  assert (threads s1 = <[c := TExit e]> (wake_all (waiting (cond x)) (threads s)))
    as Hth1 by done.
  assert (dicts (shared s1) = dicts (shared s) ∧ fs (shared s1) = fs (shared s) ∧
          launched (shared s1) = launched (shared s)) as (Hd1 & Hf1 & Hl1).
  { unfold s1. cbn. unfold put_cond. rewrite update_comp_dicts.
    by destruct (update_comp_rest c (set_cond (Condition (owner (cond x)) []))
                   (shared s)) as (-> & -> & _). }
  clearbody s1.
  eexists _, _. split.
  { eapply run_cons; [cbn; by apply tstep_thread_step|].
    eapply run_cons; [cbn; by apply tstep_thread_step|]. done. }
  split; [unfold put; cbn; by rewrite Hth1, list_insert_insert_eq|].
  split; [cbn; by rewrite lookup_put_cond, decide_True, Hx1|].
  cbn. split; [done|]. split; [done|].
  unfold put_cond.
  by rewrite update_comp_dicts, (proj1 (update_comp_rest _ _ _)),
    (proj1 (proj2 (update_comp_rest _ _ _))).
Qed.

(** The wrapper from the end of the body to the end of the thread. *)
Lemma body_ends s c x (o : outcome Z) w' :
  inv s → threads s !! c = Some (TBody w') → comps (shared s) !! c = Some x →
  settled o = Some w' →
  ∃ n s' x',
    run E body (replicate n (Thread c)) s = Some s' ∧
    threads s' = <[c := TDone (wrapper_raises (klass x) o)]>
                   (wake_all (waiting (cond x)) (threads s)) ∧
    comps (shared s') !! c = Some x' ∧ status x' = wrapper_status o ∧
    owner (cond x') = None ∧
    dicts (shared s') = dicts (shared s) ∧ fs (shared s') = fs (shared s) ∧
    launched (shared s') = launched (shared s).
Proof.
  intros Hi Hc Hx Ho.
  assert (c < length (threads s))%nat as Hlt by (by eapply lookup_lt_Some).
  assert (∀ e st,
    tstep E body c s (put c (TFinally e) (update_comp c (set_status st) (shared s)) s) →
    ∃ s' x',
      run E body (replicate 3 (Thread c)) s = Some s' ∧
      threads s' = <[c := TDone e]> (wake_all (waiting (cond x)) (threads s)) ∧
      comps (shared s') !! c = Some x' ∧ status x' = st ∧
      owner (cond x') = None ∧
      dicts (shared s') = dicts (shared s) ∧ fs (shared s') = fs (shared s) ∧
      launched (shared s') = launched (shared s)) as Hend.
  { intros e st H1. pose proof (tstep_inv _ _ _ _ _ H1 Hi) as Hi1.
    set (s1 := put c (TFinally e) _ s) in *.
    assert (threads s1 !! c = Some (TFinally e)) as Hc1.
    { unfold s1. cbn. by apply list_lookup_insert_eq. }
    assert (comps (shared s1) !! c = Some (set_status st x)) as Hx1.
    { unfold s1. cbn. by rewrite lookup_update_comp, decide_True, Hx. }
    destruct (finally_ends _ _ _ _ Hi1 Hc1 Hx1)
      as (s' & x' & Hr & Hth & Hx' & Hst & Hown & Hd & Hf & Hl).
    exists s', x'. split.
    { change (replicate 3 (Thread c)) with (Thread c :: [Thread c; Thread c]).
      eapply run_cons; [cbn; by apply tstep_thread_step|exact Hr]. }
    split.
    { rewrite Hth. unfold s1. cbn.
      apply list_eq. intros t. destruct (decide (t = c)) as [->|Hne].
      - rewrite !list_lookup_insert_eq; [done|rewrite length_wake_all..]; try done.
        by rewrite length_insert.
      - rewrite !list_lookup_insert_ne by done. rewrite !lookup_wake_all.
        by rewrite list_lookup_insert_ne. }
    split; [done|]. split; [done|]. split; [done|].
    rewrite Hd, Hf, Hl. unfold s1. cbn. rewrite update_comp_dicts.
    by destruct (update_comp_rest c (set_status st) (shared s)) as (-> & -> & _). }
  destruct o as [rv m0|e m0|d m0]; cbn in Ho; [| |done]; injection Ho as <-; cbn.
  - case_decide as Hrv.
    + subst rv.
      destruct (Hend None 1 (step_success E body c s x Hc Hx))
        as (s' & x' & Hr & ?). exists 3%nat, s', x'. done.
    + pose proof (step_error_code E body c s x rv Hc Hx Hrv) as H0.
      pose proof (tstep_inv _ _ _ _ _ H0 Hi) as Hi0.
      set (e := RuntimeError _) in *.
      set (s0 := put c (TBody (Raise e)) (shared s) s) in *.
      assert (threads s0 !! c = Some (TBody (Raise e))) as Hc0.
      { unfold s0. cbn. by apply list_lookup_insert_eq. }
      pose proof (step_failure E body c s0 x e Hc0 Hx) as H1.
      pose proof (tstep_inv _ _ _ _ _ H1 Hi0) as Hi1.
      set (s1 := put c (TFinally (Some e)) _ s0) in *.
      assert (threads s1 !! c = Some (TFinally (Some e))) as Hc1.
      { unfold s1, s0. cbn. apply list_lookup_insert_eq. by rewrite length_insert. }
      assert (comps (shared s1) !! c = Some (set_status 2 x)) as Hx1.
      { unfold s1. cbn. by rewrite lookup_update_comp, decide_True, Hx. }
      destruct (finally_ends _ _ _ _ Hi1 Hc1 Hx1)
        as (s' & x' & Hr & Hth & Hx' & Hst & Hown & Hd & Hf & Hl).
      exists 4%nat, s', x'. split.
      { change (replicate 4 (Thread c))
          with (Thread c :: Thread c :: [Thread c; Thread c]).
        eapply run_cons; [cbn; by apply tstep_thread_step|].
        eapply run_cons; [cbn; by apply tstep_thread_step|exact Hr]. }
      split.
      { rewrite Hth. unfold s1, s0. cbn.
        apply list_eq. intros t. destruct (decide (t = c)) as [->|Hne].
        - rewrite !list_lookup_insert_eq; [done|rewrite length_wake_all..]; try done.
          by rewrite !length_insert.
        - rewrite !list_lookup_insert_ne by done. rewrite !lookup_wake_all.
          by rewrite !list_lookup_insert_ne. }
      split; [done|]. split; [done|]. split; [done|].
      rewrite Hd, Hf, Hl. unfold s1. cbn. rewrite update_comp_dicts.
      by destruct (update_comp_rest c (set_status 2) (shared s)) as (-> & -> & _).
  - destruct (Hend (Some e) 2 (step_failure E body c s x e Hc Hx))
      as (s' & x' & Hr & ?). exists 3%nat, s', x'. done.
Qed.
End Alone.

Lemma alone_true s c : alone s c = true → others_idle s c.
Proof.
  unfold alone, others_idle.
  assert (∀ l i, idle_but c i l = true →
            ∀ t ts, (i + t)%nat ≠ c → l !! t = Some ts → idle ts = true) as H.
  { induction l as [|ts0 l IH]; intros i Hb t ts Hne; [done|]. cbn in Hb.
    apply andb_true_iff in Hb as [H0 Hb]. destruct t as [|t]; cbn.
    - intros [= <-]. apply orb_true_iff in H0 as [H0|H0]; [|done].
      apply Nat.eqb_eq in H0. lia.
    - apply (IH _ Hb). lia. }
  intros Hb t ts. by apply (H _ 0%nat Hb).
Qed.

(** X8. The body run by its thread does what it does run by itself.  Where
    the thread of a component is in its body and every other thread is
    idle (not started, at the entry of its wrapper, or ended), and the
    rest of the body, run by itself on the store, returns or raises, the
    thread alone comes to that return or raise, with the store it gives
    and every other thread as it was; a fetch on the way finds its
    component finished and its lock free. *)
Theorem body_alone_runs_as_exec E body m sched s c w w' :
  all_pristine m = true →
  run E body sched (boot m) = Some s →
  threads s !! c = Some (TBody w) →
  alone s c = true →
  settled (exec E c w (shared s)) = Some w' →
  ∃ n s', run E body (replicate n (Thread c)) s = Some s' ∧
          threads s' !! c = Some (TBody w') ∧
          shared s' = final (exec E c w (shared s)) ∧
          driver s' = driver s ∧
          ∀ t, t ≠ c → threads s' !! t = threads s !! t.
Proof.
  intros Hm Hr Hc Hal%alone_true Hw.
  pose proof (reachable_inv _ _ _ _ _ Hm Hr) as Hi.
  destruct (body_alone E body w s c w' Hi Hc Hal Hw) as [n Hn].
  eexists n, _. split; [exact Hn|]. cbn.
  split; [apply list_lookup_insert_eq; by eapply lookup_lt_Some|].
  split; [done|]. split; [done|].
  intros t Hne. by apply list_lookup_insert_ne.
Qed.

(** X9. The wrapper around a body that runs alone.  With every other thread
    idle and the body, run by itself, returning or raising, the thread
    alone comes to its end: the status is 1 when the body returned 0 and
    2 otherwise, the lock is free again, the dictionaries, the files and
    the subprocesses started are those the body left, and what the thread
    ends with is nothing after a return of 0, the error for the return
    code after another return, and the error of the body after a
    raise. *)
Theorem wrapper_alone_publishes E body m sched s c x w w' :
  all_pristine m = true →
  run E body sched (boot m) = Some s →
  threads s !! c = Some (TBody w) →
  comps (shared s) !! c = Some x →
  alone s c = true →
  settled (exec E c w (shared s)) = Some w' →
  ∃ n s' x',
    run E body (replicate n (Thread c)) s = Some s' ∧
    threads s' !! c
      = Some (TDone (wrapper_raises (klass x) (exec E c w (shared s)))) ∧
    (∀ t, t ≠ c → threads s' !! t = threads s !! t) ∧
    comps (shared s') !! c = Some x' ∧
    status x' = wrapper_status (exec E c w (shared s)) ∧
    owner (cond x') = None ∧
    dicts (shared s') = dicts (final (exec E c w (shared s))) ∧
    fs (shared s') = fs (final (exec E c w (shared s))) ∧
    launched (shared s') = launched (final (exec E c w (shared s))).
Proof.
  intros Hm Hr Hc Hx Hal%alone_true Hw.
  pose proof (reachable_inv _ _ _ _ _ Hm Hr) as Hi.
  destruct (body_alone E body w s c w' Hi Hc Hal Hw) as [n1 Hn1].
  set (out := exec E c w (shared s)) in *.
  set (s1 := put c (TBody w') (final out) s) in *.
  pose proof (run_inv _ _ _ _ _ Hn1 Hi) as Hi1.
  assert (c < length (threads s))%nat as Hlt by (by eapply lookup_lt_Some).
  assert (threads s1 !! c = Some (TBody w')) as Hc1.
  { unfold s1. cbn. by apply list_lookup_insert_eq. }
  assert (comps (shared s1) !! c = Some x) as Hx1.
  { unfold s1, out. cbn. by rewrite exec_comps. }
  destruct (body_ends E body s1 c x out w' Hi1 Hc1 Hx1 Hw)
    as (n2 & s' & x' & Hr2 & Hth & Hx' & Hst & Hown & Hd & Hf & Hl).
  exists (n1 + n2)%nat, s', x'.
  split; [rewrite replicate_add, run_app, Hn1; exact Hr2|].
  assert (waiting (cond x) = []) as Hnil.
  { destruct (waiting (cond x)) as [|t ws] eqn:Hws; [done|].
    assert (t ∈ waiting (cond x)) as Hin by (rewrite Hws; apply list_elem_of_here).
    apply (inv_wait _ Hi1 _ _ _ Hx1) in Hin as (n & k & Ht).
    unfold s1 in Ht. cbn in Ht.
    destruct (decide (t = c)) as [->|Hne].
    - rewrite list_lookup_insert_eq in Ht by done. done.
    - rewrite list_lookup_insert_ne in Ht by done.
      by pose proof (Hal _ _ Hne Ht). }
  rewrite Hnil in Hth. cbn in Hth.
  split; [rewrite Hth; apply list_lookup_insert_eq; by rewrite length_insert|].
  split.
  { intros t Hne. rewrite Hth. by rewrite !list_lookup_insert_ne. }
  done.
Qed.

(** The GCAM thread of [demo_mem], in its body while the thread of the
    general parameters is at the entry of its wrapper. *)
Lemma body_alone_runs_as_exec_witness :
  all_pristine demo_mem = true ∧
  run demo_externals (demo_body demo_mem) gcam_enters (boot demo_mem)
    = Some (state_after demo_mem gcam_enters) ∧
  threads (state_after demo_mem gcam_enters) !! 1%nat
    = Some (TBody (demo_body demo_mem 1)) ∧
  alone (state_after demo_mem gcam_enters) 1 = true ∧
  settled (exec demo_externals 1 (demo_body demo_mem 1)
             (shared (state_after demo_mem gcam_enters))) = Some (Ret 0) ∧
  ∃ n s', run demo_externals (demo_body demo_mem) (replicate n (Thread 1))
            (state_after demo_mem gcam_enters) = Some s' ∧
          threads s' !! 1%nat = Some (TBody (Ret 0)).
Proof.
  assert (all_pristine demo_mem = true) as H1 by (vm_compute; reflexivity).
  assert (run demo_externals (demo_body demo_mem) gcam_enters (boot demo_mem)
          = Some (state_after demo_mem gcam_enters)) as H2
    by (vm_compute; reflexivity).
  assert (threads (state_after demo_mem gcam_enters) !! 1%nat
          = Some (TBody (demo_body demo_mem 1))) as H3 by (vm_compute; reflexivity).
  assert (alone (state_after demo_mem gcam_enters) 1 = true) as H4
    by (vm_compute; reflexivity).
  assert (settled (exec demo_externals 1 (demo_body demo_mem 1)
                     (shared (state_after demo_mem gcam_enters))) = Some (Ret 0))
    as H5 by (vm_compute; reflexivity).
  split; [exact H1|]. split; [exact H2|]. split; [exact H3|]. split; [exact H4|].
  split; [exact H5|].
  destruct (body_alone_runs_as_exec demo_externals (demo_body demo_mem) demo_mem
              gcam_enters _ 1%nat _ _ H1 H2 H3 H4 H5) as (n & s' & Hr & Ht & _).
  exists n, s'. exact (conj Hr Ht).
Defined.

(** The same thread of [demo_mem], run to its end. *)
Lemma wrapper_alone_publishes_witness :
  all_pristine demo_mem = true ∧
  run demo_externals (demo_body demo_mem) gcam_enters (boot demo_mem)
    = Some (state_after demo_mem gcam_enters) ∧
  threads (state_after demo_mem gcam_enters) !! 1%nat
    = Some (TBody (demo_body demo_mem 1)) ∧
  comps (shared (state_after demo_mem gcam_enters)) !! 1%nat
    = Some (comp_at (state_after demo_mem gcam_enters) 1) ∧
  alone (state_after demo_mem gcam_enters) 1 = true ∧
  settled (exec demo_externals 1 (demo_body demo_mem 1)
             (shared (state_after demo_mem gcam_enters))) = Some (Ret 0) ∧
  ∃ n s' x',
    run demo_externals (demo_body demo_mem) (replicate n (Thread 1))
      (state_after demo_mem gcam_enters) = Some s' ∧
    comps (shared s') !! 1%nat = Some x' ∧
    status x' = wrapper_status
                  (exec demo_externals 1 (demo_body demo_mem 1)
                     (shared (state_after demo_mem gcam_enters))).
Proof.
  assert (all_pristine demo_mem = true) as H1 by (vm_compute; reflexivity).
  assert (run demo_externals (demo_body demo_mem) gcam_enters (boot demo_mem)
          = Some (state_after demo_mem gcam_enters)) as H2
    by (vm_compute; reflexivity).
  assert (threads (state_after demo_mem gcam_enters) !! 1%nat
          = Some (TBody (demo_body demo_mem 1))) as H3 by (vm_compute; reflexivity).
  assert (comps (shared (state_after demo_mem gcam_enters)) !! 1%nat
          = Some (comp_at (state_after demo_mem gcam_enters) 1)) as H3'
    by (vm_compute; reflexivity).
  assert (alone (state_after demo_mem gcam_enters) 1 = true) as H4
    by (vm_compute; reflexivity).
  assert (settled (exec demo_externals 1 (demo_body demo_mem 1)
                     (shared (state_after demo_mem gcam_enters))) = Some (Ret 0))
    as H5 by (vm_compute; reflexivity).
  split; [exact H1|]. split; [exact H2|]. split; [exact H3|]. split; [exact H3'|].
  split; [exact H4|]. split; [exact H5|].
  destruct (wrapper_alone_publishes demo_externals (demo_body demo_mem) demo_mem
              gcam_enters _ 1%nat _ _ _ H1 H2 H3 H3' H4 H5)
    as (n & s' & x' & Hr & _ & _ & Hx' & Hst & _).
  exists n, s', x'. exact (conj Hr (conj Hx' Hst)).
Defined.

(** * The components run one after another *)

Lemma put_cond_twice c cv cv' m :
  put_cond c cv' (put_cond c cv m) = put_cond c cv' m.
Proof.
  unfold put_cond, update_comp.
  destruct (comps m !! c) as [x|] eqn:Hx; cbn; [|by rewrite Hx].
  rewrite list_lookup_insert_eq by (by eapply lookup_lt_Some). cbn.
  by rewrite list_insert_insert_eq.
Qed.

Section Turn.
Context (E : externals) (body : cid → work Z).

(** The wrapper from the end of the body to the end of the thread, with
    the store it leaves. *)
Lemma wrapper_tail s c x (o : outcome Z) w' :
  threads s !! c = Some (TBody w') → comps (shared s) !! c = Some x →
  cond x = Condition (Some (c, 1%nat)) [] → settled o = Some w' →
  ∃ n, run E body (replicate n (Thread c)) s
       = Some (put c (TDone (wrapper_raises (klass x) o))
                 (put_cond c (Condition None [])
                    (update_comp c (set_status (wrapper_status o)) (shared s))) s).
Proof.
  intros Hc Hx Hcv Ho.
  assert (c < length (threads s))%nat as Hlt by (by eapply lookup_lt_Some).
  assert (∀ e st s0,
    step E body (Thread c) s0
    = Some (put c (TFinally e) (update_comp c (set_status st) (shared s)) s) →
    run E body (replicate 3 (Thread c)) s0
    = Some (put c (TDone e)
              (put_cond c (Condition None [])
                 (update_comp c (set_status st) (shared s))) s)) as Hend.
  { intros e st s0 Hs.
    change (replicate 3 (Thread c)) with [Thread c; Thread c; Thread c].
    eapply run_cons; [exact Hs|].
    set (m1 := update_comp c (set_status st) (shared s)).
    assert (comps m1 !! c = Some (set_status st x)) as Hx1
      by (by apply update_comp_lookup).
    set (cv := Condition (Some (c, 1%nat)) []).
    assert (comps (put_cond c cv m1) !! c = Some (set_cond cv (set_status st x)))
      as Hx2 by (by apply update_comp_lookup).
    assert (step E body (Thread c) (put c (TFinally e) m1 s)
            = Some (put c (TExit e) (put_cond c cv m1) s)) as Hs1.
    { cbn. unfold thread_step. cbn. rewrite list_lookup_insert_eq by done. cbn.
      rewrite Hx1. cbn. rewrite Hcv. cbn. rewrite decide_True by done.
      unfold put. cbn. by rewrite list_insert_insert_eq. }
    eapply run_cons; [exact Hs1|].
    eapply run_cons; [|reflexivity].
    cbn. unfold thread_step. cbn. rewrite list_lookup_insert_eq by done. cbn.
    rewrite Hx2. cbn. rewrite decide_True by done. cbn. unfold put. cbn.
    by rewrite put_cond_twice, !list_insert_insert_eq. }
  destruct o as [rv m1|e m1|d m1]; cbn in Ho; simplify_eq; cbn.
  - case_decide as Hrv.
    + exists 3%nat. apply Hend. cbn. unfold thread_step.
      rewrite Hc, Hx. cbn. by rewrite decide_True.
    + exists 4%nat. change (replicate 4 (Thread c))
        with (Thread c :: replicate 3 (Thread c)).
      eapply run_cons.
      { cbn. unfold thread_step. rewrite Hc, Hx. cbn. by rewrite decide_False. }
      set (s0 := put c _ (shared s) s).
      assert (run E body (replicate 3 (Thread c)) s0
              = Some (put c (TDone (Some (RuntimeError
                   (class_repr (klass x) +:+
                    ":  run_component returned error code " +:+ pretty rv))))
                   (put_cond c (Condition None [])
                      (update_comp c (set_status 2) (shared s))) s)) as ->; [|done].
      apply Hend. unfold s0. cbn. unfold thread_step. cbn.
        rewrite list_lookup_insert_eq by done. cbn. rewrite Hx. cbn.
        unfold put. cbn. by rewrite list_insert_insert_eq.
  - exists 3%nat. apply Hend. cbn. unfold thread_step.
    by rewrite Hc, Hx.
Qed.

(** The whole wrapper of one component whose turn it is. *)
Lemma turn_one s c x m' :
  inv s → threads s !! c = Some TEnter → comps (shared s) !! c = Some x →
  cond x = Condition None [] →
  (∀ t ts, threads s !! t = Some ts → idle ts = true) →
  wrapper_in_turn E (body c) c (shared s) = Some m' →
  ∃ n e, run E body (replicate n (Thread c)) s = Some (put c (TDone e) m' s) ∧
         ∀ d, d ≠ c → comps m' !! d = comps (shared s) !! d.
Proof.
  intros Hi Hc Hx Hcv Hidle Hw. unfold wrapper_in_turn in Hw.
  set (cv := Condition (Some (c, 1%nat)) []) in *.
  set (m1 := put_cond c cv (shared s)) in *.
  set (out := exec E c (body c) m1) in *.
  destruct (settled out) as [w'|] eqn:Hout; [|done]. injection Hw as <-.
  assert (c < length (threads s))%nat as Hlt by (by eapply lookup_lt_Some).
  set (s1 := put c (TBody (body c)) m1 s).
  assert (step E body (Thread c) s = Some s1) as Hs1.
  { cbn. unfold thread_step. rewrite Hc, Hx. cbn. unfold acquire.
    by rewrite Hcv. }
  pose proof (step_inv _ _ _ _ _ Hs1 Hi) as Hi1.
  assert (threads s1 !! c = Some (TBody (body c))) as Hc1
    by (by apply list_lookup_insert_eq).
  assert (others_idle s1 c) as Hal.
  { intros t ts Hne. unfold s1. cbn. rewrite list_lookup_insert_ne by done.
    apply Hidle. }
  destruct (body_alone E body (body c) s1 c w' Hi1 Hc1 Hal Hout) as [n1 Hn1].
  change (exec E c (body c) (shared s1)) with out in Hn1.
  set (s2 := put c (TBody w') (final out) s1) in *.
  assert (threads s2 !! c = Some (TBody w')) as Hc2.
  { unfold s2, s1. cbn. rewrite list_insert_insert_eq.
    by apply list_lookup_insert_eq. }
  assert (comps (shared s2) !! c = Some (set_cond cv x)) as Hx2.
  { unfold s2, out. cbn. rewrite exec_comps. by apply update_comp_lookup. }
  destruct (wrapper_tail s2 c _ out w' Hc2 Hx2 eq_refl Hout) as [n2 Hn2].
  exists (S (n1 + n2)), (wrapper_raises (klass x) out). split.
  - change (replicate (S (n1 + n2)) (Thread c))
      with (Thread c :: replicate (n1 + n2) (Thread c)).
    eapply run_cons; [exact Hs1|].
    rewrite replicate_add, run_app, Hn1. cbn -[run]. rewrite Hn2.
    unfold s2, s1, put. cbn. by rewrite !list_insert_insert_eq.
  - intros d Hne. unfold put_cond. rewrite !update_comp_lookup_ne by done.
    unfold out. rewrite exec_comps. unfold m1, put_cond.
    by rewrite update_comp_lookup_ne.
Qed.

Lemma in_turn_runs cs : ∀ s m',
  inv s → NoDup cs →
  (∀ c, c ∈ cs → threads s !! c = Some TEnter) →
  (∀ c x, c ∈ cs → comps (shared s) !! c = Some x → cond x = Condition None []) →
  (∀ t ts, threads s !! t = Some ts → idle ts = true) →
  in_turn E body cs (shared s) = Some m' →
  ∃ sched s',
    run E body sched s = Some s' ∧ shared s' = m' ∧ driver s' = driver s ∧
    (∀ c, c ∈ cs → ∃ e, threads s' !! c = Some (TDone e)) ∧
    (∀ t, t ∉ cs → threads s' !! t = threads s !! t).
Proof.
  induction cs as [|c cs IH]; intros s m' Hi Hnd Hen Hcv Hidle Hrun.
  - cbn in Hrun. injection Hrun as <-. exists [], s.
    split; [done|]. split; [done|]. split; [done|].
    split; [by intros c ?%elem_of_nil|done].
  - cbn in Hrun.
    destruct (wrapper_in_turn E (body c) c (shared s)) as [m1|] eqn:Hw; [|done].
    cbn in Hrun. apply NoDup_cons in Hnd as [Hnin Hnd].
    pose proof (Hen c (list_elem_of_here _ _)) as Hc.
    destruct (component_of_thread _ _ _ Hi Hc) as [x Hx].
    destruct (turn_one s c x m1 Hi Hc Hx (Hcv _ _ (list_elem_of_here _ _) Hx)
                Hidle Hw) as (n & e & Hn & Hrest).
    set (s1 := put c (TDone e) m1 s) in *.
    assert (c < length (threads s))%nat as Hlt by (by eapply lookup_lt_Some).
    assert (∀ c', c' ∈ cs → threads s1 !! c' = Some TEnter) as Hen1.
    { intros c' Hin. unfold s1. cbn.
      rewrite list_lookup_insert_ne by (intros ->; done).
      apply Hen. by apply list_elem_of_further. }
    assert (∀ c' x', c' ∈ cs → comps (shared s1) !! c' = Some x' →
                     cond x' = Condition None []) as Hcv1.
    { intros c' x' Hin. unfold s1. cbn.
      rewrite Hrest by (intros ->; done).
      apply Hcv. by apply list_elem_of_further. }
    assert (∀ t ts, threads s1 !! t = Some ts → idle ts = true) as Hidle1.
    { intros t ts. unfold s1. cbn.
      destruct (decide (t = c)) as [->|Hne].
      - rewrite list_lookup_insert_eq by done. by intros [= <-].
      - rewrite list_lookup_insert_ne by done. apply Hidle. }
    destruct (IH s1 m' (run_inv _ _ _ _ _ Hn Hi) Hnd Hen1 Hcv1 Hidle1 Hrun)
      as (sched & s' & Hr & Hsh & Hdr & Hdone & Hsame).
    exists (replicate n (Thread c) ++ sched)%list, s'.
    split; [by rewrite run_app, Hn|]. split; [done|]. split; [done|].
    split.
    + intros c' [->|Hin]%elem_of_cons; [|by apply Hdone].
      rewrite (Hsame _ Hnin). unfold s1. cbn. exists e.
      by apply list_lookup_insert_eq.
    + intros t [Hne Hnin']%not_elem_of_cons. rewrite (Hsame _ Hnin').
      unfold s1. cbn. by apply list_lookup_insert_ne.
Qed.

(** The main program starts the threads one after another. *)
Lemma start_all m i :
  (i ≤ length (comps m))%nat →
  run E body (replicate i Main) (boot m)
  = Some (Sys m (replicate i TEnter ++ replicate (length (comps m) - i) TNew)
            (Starting i)).
Proof.
  induction i as [|i IH]; intros Hle.
  - cbn. by rewrite Nat.sub_0_r.
  - rewrite replicate_S_end. apply run_snoc. eexists. split; [apply IH; lia|].
    cbn. rewrite decide_True by lia.
    rewrite lookup_app_r by (by rewrite length_replicate).
    rewrite length_replicate, Nat.sub_diag.
    replace (length (comps m) - i)%nat with (S (length (comps m) - S i)) by lia.
    cbn. do 2 f_equal.
    rewrite insert_app_r_alt by (by rewrite length_replicate).
    rewrite length_replicate, Nat.sub_diag. cbn.
    by rewrite (cons_middle TEnter), app_assoc, <- replicate_S_end.
Qed.
End Turn.

(** X10. A configuration in the order of its dependencies runs to the end.
    Where the wrappers of the components, run one after another in the
    order of the list, each on the store its predecessors have left, all
    come to their end (every fetch of a body finds its component
    finished), the program has a run that ends: the main program starts
    the threads, each thread in turn runs from its entry to its end while
    the others rest, and the main program joins them and counts.  That
    run leaves the store the wrappers run in turn give, every thread
    ended, and reports the number of the components whose status is
    not 1. *)
Theorem listed_order_runs_to_end E body m m' :
  all_pristine m = true →
  in_turn E body (seq 0 (length (comps m))) m = Some m' →
  ∃ sched s,
    run E body sched (boot m) = Some s ∧
    shared s = m' ∧
    driver s = Finished (count_failed (comps m')) ∧
    ∀ t ts, threads s !! t = Some ts → ∃ e, ts = TDone e.
Proof.
  intros Hm Hturn. set (n := length (comps m)) in *.
  pose proof (start_all E body m n (le_n _)) as Hstart.
  fold n in Hstart. rewrite Nat.sub_diag, app_nil_r in Hstart.
  set (s0 := Sys m (replicate n TEnter) (Starting n)) in *.
  pose proof (reachable_inv _ _ _ _ _ Hm Hstart) as Hi0.
  assert (∀ c, c ∈ seq 0 n → threads s0 !! c = Some TEnter) as Hen.
  { intros c [_ Hc]%elem_of_seq. cbn. apply lookup_replicate. split; [done|lia]. }
  assert (∀ c x, c ∈ seq 0 n → comps (shared s0) !! c = Some x →
                 cond x = Condition None []) as Hcv.
  { intros c x _ Hx. cbn in Hx.
    destruct (pristine_spec x (pristine_lookup _ _ _ Hm Hx)) as (_ & Ho & Hws).
    destruct (cond x) as [o ws]. cbn in *. by subst. }
  assert (∀ t ts, threads s0 !! t = Some ts → idle ts = true) as Hidle.
  { intros t ts [-> _]%lookup_replicate. done. }
  destruct (in_turn_runs E body (seq 0 n) s0 m' Hi0 (NoDup_seq _ _) Hen Hcv Hidle
              Hturn) as (sched & s1 & Hr1 & Hsh1 & Hdr1 & Hdone & Hsame).
  pose proof (run_inv _ _ _ _ _ Hr1 Hi0) as Hi1.
  assert (length (threads s1) = n) as Hlen.
  { destruct (decide (length (threads s1) ≤ n)%nat) as [Hle|Hgt].
    - destruct (decide (length (threads s1) = n)) as [|Hne]; [done|].
      destruct (Hdone (length (threads s1))) as [e He].
      { apply elem_of_seq. lia. }
      apply lookup_lt_Some in He. lia.
    - assert (n ∉ seq 0 n) as Hnin by (rewrite elem_of_seq; lia).
      pose proof (Hsame _ Hnin) as Hn. cbn in Hn.
      rewrite (lookup_ge_None_2 (replicate n TEnter)) in Hn
        by (by rewrite length_replicate).
      apply lookup_ge_None in Hn. lia. }
  assert (all_done s1) as Hall.
  { intros t ts Hts.
    destruct (Hdone t) as [e He].
    { apply elem_of_seq. apply lookup_lt_Some in Hts. lia. }
    exists e. congruence. }
  destruct (main_finishes E body _ s1 (le_n _) Hi1 Hall)
    as (k & s2 & fail & Hr2 & Hf & Hsh2).
  pose proof (run_inv _ _ _ _ _ Hr2 Hi1) as Hi2.
  pose proof (inv_driver _ Hi2) as Hd. unfold driver_ok in Hd.
  rewrite Hf in Hd. destruct Hd as [Hall2 ->].
  exists (replicate n Main ++ sched ++ replicate k Main)%list, s2.
  clearbody s0.
  split; [rewrite run_app, Hstart; cbn -[run]; by rewrite run_app, Hr1|].
  split; [congruence|]. split; [congruence|]. exact Hall2.
Qed.

(** The general parameters and GCAM of [demo_mem], in that order: both
    end well. *)
Lemma listed_order_runs_to_end_witness :
  all_pristine demo_mem = true ∧
  in_turn demo_externals (demo_body demo_mem) (seq 0 (length (comps demo_mem)))
    demo_mem = Some demo_in_turn ∧
  count_failed (comps demo_in_turn) = 0%nat ∧
  ∃ sched s,
    run demo_externals (demo_body demo_mem) sched (boot demo_mem) = Some s ∧
    shared s = demo_in_turn ∧
    driver s = Finished (count_failed (comps demo_in_turn)) ∧
    ∀ t ts, threads s !! t = Some ts → ∃ e, ts = TDone e.
Proof.
  assert (all_pristine demo_mem = true) as H1 by (vm_compute; reflexivity).
  assert (in_turn demo_externals (demo_body demo_mem)
            (seq 0 (length (comps demo_mem))) demo_mem = Some demo_in_turn) as H2
    by (vm_compute; reflexivity).
  assert (count_failed (comps demo_in_turn) = 0%nat) as H3
    by (vm_compute; reflexivity).
  split; [exact H1|]. split; [exact H2|]. split; [exact H3|].
  exact (listed_order_runs_to_end demo_externals (demo_body demo_mem) demo_mem
           demo_in_turn H1 H2).
Defined.

(** * The bodies, case by case *)

Lemma exec_param E c key m p v :
  params_of m c = Some p → p !! key = Some v →
  exec E c (param key) m = Returned v m.
Proof.
  intros Hp Hv. unfold param. rewrite exec_bind, exec_perform. cbn.
  rewrite Hp. cbn. by apply exec_subscript.
Qed.

Lemma exec_param_missing E c key m p :
  params_of m c = Some p → p !! key = None →
  exec E c (param key) m = Raised (KeyError key) m.
Proof.
  intros Hp Hv. unfold param. rewrite exec_bind, exec_perform. cbn.
  rewrite Hp. cbn. unfold subscript. by rewrite Hv.
Qed.

Lemma exec_result_missing E c key m l r :
  own m c l r → r !! key = None →
  exec E c (result key) m = Raised (KeyError key) m.
Proof.
  intros Hown Hv. unfold result. rewrite exec_bind, (exec_get_results _ _ _ _ _ Hown).
  unfold subscript. by rewrite Hv.
Qed.

(** X11. What the general parameters leave when a required one is missing:
    without [ModelInterface] nothing is changed; without [DBXMLlib] the
    [ModelInterface] entry has been made absolute already.  Either way the
    run raises the [KeyError] of the missing key. *)
Theorem GlobalParams_missing_key E c m l r :
  own m c l r →
  (r !! "ModelInterface" = None →
   exec E c (GlobalParamsComponent_run_component E) m
   = Raised (KeyError "ModelInterface") m) ∧
  (∀ mi, r !! "ModelInterface" = Some (VStr mi) → r !! "DBXMLlib" = None →
   exec E c (GlobalParamsComponent_run_component E) m
   = Raised (KeyError "DBXMLlib")
       (put_dict l (<["ModelInterface" := VStr (util_abspath E mi None)]> r) m)).
Proof.
  intros Hown. unfold GlobalParamsComponent_run_component. split.
  - intros Hmi. by rewrite exec_bind, (exec_result_missing _ _ _ _ _ _ Hown Hmi).
  - intros mi Hmi Hdb.
    rewrite exec_bind, (exec_result _ _ _ _ _ _ _ Hown Hmi). cbn beta iota.
    rewrite exec_bind, exec_abspath. cbn beta iota.
    rewrite exec_bind, (exec_set _ _ _ _ _ _ _ Hown). cbn beta iota.
    rewrite exec_bind.
    erewrite exec_result_missing; [done|by eapply own_put_dict|].
    by rewrite lookup_insert_ne.
Qed.

(** The general parameters of [no_dbxmllib_mem]. *)
Lemma GlobalParams_missing_key_witness :
  own no_dbxmllib_mem 0 1 (default ∅ (results_of no_dbxmllib_mem 0)) ∧
  default ∅ (results_of no_dbxmllib_mem 0) !! "ModelInterface"
    = Some (VStr "/opt/mi.jar") ∧
  default ∅ (results_of no_dbxmllib_mem 0) !! "DBXMLlib" = None ∧
  exec demo_externals 0 (GlobalParamsComponent_run_component demo_externals)
    no_dbxmllib_mem
  = Raised (KeyError "DBXMLlib")
      (put_dict 1 (<["ModelInterface" :=
                       VStr (util_abspath demo_externals "/opt/mi.jar" None)]>
                     (default ∅ (results_of no_dbxmllib_mem 0))) no_dbxmllib_mem).
Proof.
  assert (own no_dbxmllib_mem 0 1 (default ∅ (results_of no_dbxmllib_mem 0))) as H1
    by (split; vm_compute; reflexivity).
  assert (default ∅ (results_of no_dbxmllib_mem 0) !! "ModelInterface"
          = Some (VStr "/opt/mi.jar")) as H2 by (vm_compute; reflexivity).
  assert (default ∅ (results_of no_dbxmllib_mem 0) !! "DBXMLlib" = None) as H3
    by (vm_compute; reflexivity).
  split; [exact H1|]. split; [exact H2|]. split; [exact H3|].
  exact (proj2 (GlobalParams_missing_key demo_externals 0%nat no_dbxmllib_mem 1%nat
                  _ H1) "/opt/mi.jar" H2 H3).
Defined.

(** ** The GCAM component *)

Lemma scan_dbxmlfile_found E pre line post f :
  Forall (λ l, dbxmlfpat E (str_lstrip E l) = None) pre →
  dbxmlfpat E (str_lstrip E line) = Some f →
  scan_dbxmlfile E (pre ++ line :: post) = (Some f, post).
Proof.
  intros Hpre Hline. induction Hpre as [|l pre Hl _ IH]; cbn.
  - by rewrite Hline.
  - by rewrite Hl.
Qed.

Lemma scan_dbxmlfile_none E lines :
  Forall (λ l, dbxmlfpat E (str_lstrip E l) = None) lines →
  scan_dbxmlfile E lines = (None, []).
Proof. intros H. induction H as [|l lines Hl _ IH]; cbn; [done|]. by rewrite Hl. Qed.

Section Gcam.
Context (E : externals) (c : cid) (m : mem) (p : dict) (exe cfg logcfg : string).
Hypothesis Hp : params_of m c = Some p.
Hypothesis Hexe : p !! "exe" = Some (VStr exe).
Hypothesis Hcfg : p !! "config" = Some (VStr cfg).
Hypothesis Hlogcfg : p !! "logconfig" = Some (VStr logcfg).

(** The store with [self.workdir] assigned. *)
Let m1 : mem := with_workdirs (<[c := os_path_dirname E exe]> (workdirs m)) m.

Ltac gcam_prefix Hp Hexe Hcfg Hlogcfg :=
  unfold GcamComponent_prepare;
  rewrite exec_bind, (exec_param _ _ _ _ _ _ Hp Hexe); cbn beta iota;
  rewrite exec_bind, (exec_param _ _ _ _ _ _ Hp Hcfg); cbn beta iota;
  rewrite exec_bind, (exec_param _ _ _ _ _ _ Hp Hlogcfg); cbn beta iota;
  rewrite exec_bind, exec_perform; cbn [interp_op fst snd]; rewrite Hp;
  change (default ∅ (Some ?q)) with q;
  rewrite exec_bind, exec_as_str; cbn beta iota zeta;
  rewrite exec_bind, exec_perform; cbn [interp_op fst snd];
  rewrite exec_bind, exec_perform; cbn [interp_op fst snd].

Ltac exists_step H :=
  rewrite (bool_decide_eq_true_2 _ H); rewrite exec_bind; cbn [ensure exec];
  rewrite exec_bind, exec_as_str; cbn beta iota;
  rewrite exec_bind, exec_perform; cbn [interp_op fst snd].

Ltac exists_last H :=
  rewrite (bool_decide_eq_true_2 _ H); rewrite exec_bind; cbn [ensure exec];
  rewrite exec_bind, exec_perform; cbn [interp_op fst snd].

Lemma first_missing_cases f exe' cfg' logcfg' p' :
  first_missing f [exe'; cfg'; logcfg'] = Some p' →
  (f !! exe' = None ∧ p' = exe') ∨
  (is_Some (f !! exe') ∧ f !! cfg' = None ∧ p' = cfg') ∨
  (is_Some (f !! exe') ∧ is_Some (f !! cfg') ∧ f !! logcfg' = None ∧ p' = logcfg').
Proof.
  unfold first_missing. cbn.
  destruct (f !! exe') eqn:H1; cbn; [|intros [= <-]; by left].
  destruct (f !! cfg') eqn:H2; cbn; [|intros [= <-]; right; left; eauto].
  destruct (f !! logcfg') eqn:H3; cbn; [done|intros [= <-]; right; right; eauto].
Qed.

(** X12. GCAM and a missing input.  When the executable, the configuration or
    the log configuration is not there, the run raises an [IOError] that
    names the first of them that is missing; it has assigned
    [self.workdir] by then and nothing else: the results are untouched,
    no file is changed and nothing is started. *)
Theorem Gcam_missing_input f :
  first_missing (fs m) [exe; cfg; logcfg] = Some f →
  exec E c (GcamComponent_run_component E) m
  = Raised (IOError ("GcamComponent: " +:+ "File " +:+ f +:+ " does not exist!")) m1.
Proof.
  intros Hf. unfold GcamComponent_run_component. rewrite exec_bind.
  gcam_prefix Hp Hexe Hcfg Hlogcfg. fold m1.
  destruct (first_missing_cases _ _ _ _ _ Hf)
    as [[H1 ->]|[(H1 & H2 & ->)|(H1 & H2 & H3 & ->)]].
  - rewrite bool_decide_eq_false_2 by (cbn; rewrite H1; by intros [? ?]).
    by rewrite exec_bind.
  - exists_step H1.
    rewrite bool_decide_eq_false_2 by (cbn; rewrite H2; by intros [? ?]).
    by rewrite exec_bind.
  - exists_step H1. exists_step H2.
    rewrite bool_decide_eq_false_2 by (cbn; rewrite H3; by intros [? ?]).
    by rewrite exec_bind.
Qed.

Section Config.
Context (l : loc) (r : dict) (lines : list string).
Hypothesis Hown : own m c l r.
Hypothesis H1 : is_Some (fs m !! exe).
Hypothesis H2 : fs m !! cfg = Some lines.
Hypothesis H3 : is_Some (fs m !! logcfg).

(** X13. GCAM and a configuration that names no database.  With its three
    files there but no line of the configuration giving the location of
    the database, the run raises a [TypeError], the file name being
    [None] where the path is put together; the results are untouched and
    nothing is started. *)
Theorem Gcam_no_database_line :
  Forall (λ line, dbxmlfpat E (str_lstrip E line) = None) lines →
  ∃ msg, exec E c (GcamComponent_run_component E) m = Raised (TypeError msg) m1.
Proof.
  intros Hno. unfold GcamComponent_run_component. rewrite exec_bind.
  gcam_prefix Hp Hexe Hcfg Hlogcfg. fold m1.
  exists_step H1. exists_step (mk_is_Some _ _ H2). exists_last H3.
  change (fs m1) with (fs m). rewrite H2, (scan_dbxmlfile_none _ _ Hno).
  cbn. eauto.
Qed.

Lemma Gcam_prepare_returns pre line post f :
  lines = (pre ++ line :: post)%list →
  Forall (λ line, dbxmlfpat E (str_lstrip E line) = None) pre →
  dbxmlfpat E (str_lstrip E line) = Some f →
  exec E c (GcamComponent_prepare E) m
  = Returned (GcamCtx exe cfg logcfg (os_path_dirname E exe) (p !! "logfile") post
                (os_path_join E (os_path_dirname E exe) f))
      (put_dict l
         (<["dbxml" := VStr (os_path_join E (os_path_dirname E exe) f)]> r) m1).
Proof.
  intros Hl Hpre Hline.
  gcam_prefix Hp Hexe Hcfg Hlogcfg. fold m1.
  exists_step H1. exists_step (mk_is_Some _ _ H2). exists_last H3.
  change (fs m1) with (fs m). rewrite H2, Hl, (scan_dbxmlfile_found _ _ _ _ _ Hpre Hline).
  cbn beta iota zeta.
  assert (own m1 c l r) as Hown1 by exact Hown.
  by rewrite exec_bind, (exec_set _ _ _ _ _ _ _ Hown1).
Qed.

Lemma exec_gcam_run ctx m0 :
  str_or_absent (g_logfile ctx) = true →
  let f0 := with_logfile (g_logfile ctx) (fs m0) in
  exec E c (gcam_run E ctx) m0 =
  if scan_dbenabled_off E (g_rest ctx) then Raised gcam_refused m0
  else Returned (subprocess_call E (gcam_args ctx) (g_workdir ctx) f0).2
         (with_launched (launched m0 ++ [gcam_args ctx])
            (with_fs (subprocess_call E (gcam_args ctx) (g_workdir ctx) f0).1 m0)).
Proof.
  intros Hlf. cbn zeta. unfold gcam_run. rewrite exec_bind.
  destruct (scan_dbenabled_off E (g_rest ctx)); cbn [negb ensure exec]; [done|].
  unfold gcam_call, gcam_args.
  destruct (g_logfile ctx) as [[lf| | |]|]; try done; cbn [with_logfile].
  - rewrite exec_bind, exec_as_str. cbn beta iota.
    rewrite exec_bind, exec_perform. cbn [interp_op fst snd].
    rewrite exec_perform. cbn [interp_op fst snd].
    change (fs (with_fs ?f _)) with f.
    by destruct (subprocess_call E _ _ _).
  - rewrite exec_perform. cbn [interp_op fst snd].
    by destruct (subprocess_call E _ _ _).
Qed.

End Config.
End Gcam.

(** The GCAM section of [broken_config] names an executable that is not
    there. *)
Lemma Gcam_missing_input_witness :
  params_of broken_mem 1 = Some (default ∅ (params_of broken_mem 1)) ∧
  default ∅ (params_of broken_mem 1) !! "exe" = Some (VStr "/opt/gcam/missing.exe") ∧
  default ∅ (params_of broken_mem 1) !! "config" = Some (VStr "/opt/gcam/config.xml") ∧
  default ∅ (params_of broken_mem 1) !! "logconfig" = Some (VStr "/opt/gcam/log.xml") ∧
  first_missing (fs broken_mem)
    ["/opt/gcam/missing.exe"; "/opt/gcam/config.xml"; "/opt/gcam/log.xml"]
    = Some "/opt/gcam/missing.exe" ∧
  exec demo_externals 1 (GcamComponent_run_component demo_externals) broken_mem
  = Raised (IOError ("GcamComponent: " +:+ "File " +:+ "/opt/gcam/missing.exe"
                     +:+ " does not exist!"))
      (with_workdirs (<[1%nat := os_path_dirname demo_externals "/opt/gcam/missing.exe"]>
                        (workdirs broken_mem)) broken_mem).
Proof.
  assert (params_of broken_mem 1 = Some (default ∅ (params_of broken_mem 1))) as H0
    by (vm_compute; reflexivity).
  assert (default ∅ (params_of broken_mem 1) !! "exe"
          = Some (VStr "/opt/gcam/missing.exe")) as H1 by (vm_compute; reflexivity).
  assert (default ∅ (params_of broken_mem 1) !! "config"
          = Some (VStr "/opt/gcam/config.xml")) as H2 by (vm_compute; reflexivity).
  assert (default ∅ (params_of broken_mem 1) !! "logconfig"
          = Some (VStr "/opt/gcam/log.xml")) as H3 by (vm_compute; reflexivity).
  assert (first_missing (fs broken_mem)
            ["/opt/gcam/missing.exe"; "/opt/gcam/config.xml"; "/opt/gcam/log.xml"]
          = Some "/opt/gcam/missing.exe") as H4 by (vm_compute; reflexivity).
  split; [exact H0|]. split; [exact H1|]. split; [exact H2|]. split; [exact H3|].
  split; [exact H4|].
  exact (Gcam_missing_input demo_externals 1%nat broken_mem _ _ _ _ H0 H1 H2 H3 _ H4).
Defined.

(** The configuration of [no_location_mem] has no line for the location
    of the database. *)
Lemma Gcam_no_database_line_witness :
  params_of no_location_mem 1 = Some (default ∅ (params_of no_location_mem 1)) ∧
  fs no_location_mem !! "/opt/gcam/config.xml"
    = Some (default [] (fs no_location_mem !! "/opt/gcam/config.xml")) ∧
  ∃ msg,
    exec demo_externals 1 (GcamComponent_run_component demo_externals) no_location_mem
    = Raised (TypeError msg)
        (with_workdirs (<[1%nat := os_path_dirname demo_externals "/opt/gcam/gcam.exe"]>
                          (workdirs no_location_mem)) no_location_mem).
Proof.
  assert (params_of no_location_mem 1
          = Some (default ∅ (params_of no_location_mem 1))) as H0
    by (vm_compute; reflexivity).
  assert (fs no_location_mem !! "/opt/gcam/config.xml"
          = Some (default [] (fs no_location_mem !! "/opt/gcam/config.xml"))) as H2
    by (vm_compute; reflexivity).
  split; [exact H0|]. split; [exact H2|].
  refine (Gcam_no_database_line demo_externals 1%nat no_location_mem _
            "/opt/gcam/gcam.exe" "/opt/gcam/config.xml" "/opt/gcam/log.xml"
            H0 _ _ _ _ _ H2 _ _).
  - vm_compute; reflexivity.
  - vm_compute; reflexivity.
  - vm_compute; reflexivity.
  - vm_compute; eauto.
  - vm_compute; eauto.
  - repeat constructor.
Defined.


(** ** The hydrology component *)

Ltac exec_inv H :=
  rewrite exec_bind in H;
  lazymatch type of H with
  | match ?e with _ => _ end = _ =>
      let Hw := fresh "Hw" in
      destruct e as [? ?|? ?|? ?] eqn:Hw;
      [cbn beta iota zeta in H|discriminate H|discriminate H]
  end.

Ltac perform_inv H :=
  rewrite exec_bind, exec_perform in H; cbn [interp_op fst snd] in H.

(** A fetch in a body run by itself returns the results of a component
    that is bound to the name and has succeeded, and changes nothing. *)
Lemma exec_fetch_capability_inv E c name m l m' :
  exec E c (fetch_capability name) m = Returned l m' →
  m' = m ∧ ∃ d x, cap_tbl m !! name = Some d ∧ comps m !! d = Some x ∧
                  status x = 1 ∧ l = results x.
Proof.
  unfold fetch_capability. rewrite exec_bind, exec_perform.
  cbn [interp_op fst snd]. unfold resolve.
  destruct (cap_tbl m !! name) as [d|] eqn:Hd; [|done]. cbn.
  destruct (comps m !! d) as [x|] eqn:Hx; [|done].
  case_decide; [done|]. unfold fetch_outcome. case_decide; [|done].
  intros [= <- <-]. eauto 10.
Qed.

(** What the hydrology run returns once matlab has run: its return code
    when all the output files are there, and 1 when one is missing. *)
Lemma hydro_run_returns E c ctx m rv m' :
  exec E c (hydro_run E ctx) m = Returned rv m' →
  (util_allexist E (alloutfiles (h_out ctx)) (fs m') = false → rv = 1) ∧
  launched m' ≠ launched m.
Proof.
  unfold hydro_run. intros H.
  exec_inv H. exec_inv H. exec_inv H. exec_inv H.
  perform_inv H. perform_inv H.
  destruct (subprocess_call E _ _ _) as [f rc] eqn:Hcall.
  cbn [fst snd] in H. perform_inv H. cbn [fs with_launched with_fs] in H.
  apply exec_fetch_capability_inv in Hw as [-> _].
  rewrite exec_perform in Hw0. cbn in Hw0. injection Hw0 as <- <-.
  assert (m2 = m) as ->.
  { unfold subscript in Hw1.
    destruct (deref m a !! "rgnconfig"); cbn in Hw1; congruence. }
  assert (m3 = m) as -> by (destruct a1; cbn in Hw2; congruence).
  destruct (util_allexist E (alloutfiles (h_out ctx)) f) eqn:Hall;
    cbn in H; injection H as <- <-; cbn.
  - split; [congruence|]. intros Heq.
    apply (f_equal length) in Heq. rewrite length_app in Heq. cbn in Heq. lia.
  - split; [done|]. intros Heq.
    apply (f_equal length) in Heq. rewrite length_app in Heq. cbn in Heq. lia.
Qed.

(** X15. The hydrology run succeeds only with its output there.  Whenever the
    body returns, it has come through its preparations; when it returns
    0, all eleven output files exist on the file system it leaves,
    whether it found them and skipped the run (nothing started) or
    started matlab; and when one of them is missing after matlab has run,
    it returns 1 whatever matlab returned. *)
Theorem Hydro_success_means_outputs E c m rv m' :
  exec E c (HydroComponent_run_component E) m = Returned rv m' →
  ∃ ctx m1, exec E c (HydroComponent_prepare E) m = Returned ctx m1 ∧
    (rv = 0 → util_allexist E (alloutfiles (h_out ctx)) (fs m') = true) ∧
    (launched m' ≠ launched m1 →
     util_allexist E (alloutfiles (h_out ctx)) (fs m') = false → rv = 1) ∧
    (launched m' = launched m1 → rv = 0 ∧ fs m' = fs m1).
Proof.
  unfold HydroComponent_run_component. intros H. exec_inv H.
  eexists _, _. split; [done|].
  unfold hydro_decide in H. exec_inv H.
  assert (m1 = m0) as ->.
  { rewrite exec_get_clobber in Hw0. destruct (comps m0 !! c ≫= clobber); by simplify_eq. }
  exec_inv H.
  assert (m1 = m0 ∧ (a1 = true → util_allexist E (alloutfiles (h_out a)) (fs m0) = true))
    as [-> Hall].
  { destruct a0; cbn in Hw1; injection Hw1 as <- <-; done. }
  destruct a1.
  - perform_inv H. cbn in H. injection H as <- <-.
    assert (fs match comps m0 !! c with
               | Some x => dict_store (results x) "changed" (VInt 0) m0
               | None => m0
               end = fs m0 ∧
            launched match comps m0 !! c with
               | Some x => dict_store (results x) "changed" (VInt 0) m0
               | None => m0
               end = launched m0) as [-> Hl] by (by destruct (comps m0 !! c)).
    split; [by intros _; apply Hall|]. split; [by rewrite Hl|]. by intros _.
  - destruct (hydro_run_returns _ _ _ _ _ _ H) as [Hone Hl].
    split.
    + intros ->. destruct (util_allexist E (alloutfiles (h_out a)) (fs m')); [done|].
      by specialize (Hone eq_refl).
    + split; [by intros _|]. done.
Qed.

(** The hydrology section of [hydro_cached_mem] finds all its output. *)
Lemma Hydro_success_means_outputs_witness :
  exec demo_externals 0 (HydroComponent_run_component demo_externals) hydro_cached_mem
  = Returned 0
      (final (exec demo_externals 0 (HydroComponent_run_component demo_externals)
                hydro_cached_mem)) ∧
  ∃ ctx m1,
    exec demo_externals 0 (HydroComponent_prepare demo_externals) hydro_cached_mem
      = Returned ctx m1 ∧
    (0 = 0 → util_allexist demo_externals (alloutfiles (h_out ctx))
               (fs (final (exec demo_externals 0
                             (HydroComponent_run_component demo_externals)
                             hydro_cached_mem))) = true).
Proof.
  assert (exec demo_externals 0 (HydroComponent_run_component demo_externals)
            hydro_cached_mem
          = Returned 0
              (final (exec demo_externals 0
                        (HydroComponent_run_component demo_externals)
                        hydro_cached_mem))) as H by (vm_compute; reflexivity).
  split; [exact H|].
  destruct (Hydro_success_means_outputs demo_externals 0%nat hydro_cached_mem 0 _ H)
    as (ctx & m1 & Hp & H0 & _).
  exists ctx, m1. exact (conj Hp H0).
Defined.

Lemma exec_lacks_final_slash E c s m :
  s ≠ EmptyString →
  ∃ b, exec E c (lacks_final_slash s) m = Returned b m ∧
       (if b : bool then s +:+ "/" else s) = with_slash s.
Proof.
  intros Hs. unfold lacks_final_slash, with_slash.
  destruct (last (String.list_ascii_of_string s)) as [a|] eqn:Hl.
  - exists (negb (Ascii.eqb a "/")). split; [done|]. by destruct (Ascii.eqb a "/").
  - apply last_None in Hl. destruct s; [done|discriminate Hl].
Qed.

Lemma exec_hydro_set_results E c o runid m l r :
  own m c l r →
  exec E c (hydro_set_results o runid) m
  = Returned tt (put_dict l (hydro_results o runid r) m).
Proof.
  intros Hown. unfold hydro_set_results, hydro_results.
  rewrite exec_bind, (exec_set _ _ _ _ _ _ _ Hown). cbn beta iota.
  repeat (rewrite exec_bind;
          erewrite exec_set by (by repeat eapply own_put_dict);
          cbn beta iota; rewrite ?put_dict_twice).
  erewrite exec_set by (by repeat eapply own_put_dict).
  by rewrite put_dict_twice.
Qed.

Lemma exec_in_cap_tbl E c name m :
  exec E c (in_cap_tbl name) m
  = Returned (bool_decide (is_Some (cap_tbl m !! name))) m.
Proof. unfold in_cap_tbl. by rewrite exec_bind, exec_perform. Qed.

Section Hydro.
Context (E : externals) (c : cid) (m : mem) (p r : dict) (l : loc).
Context (workdir inputdir outputdir gcm scenario runid logfile storage : string).
Context (startmonth : Z).
Hypothesis Hp : params_of m c = Some p.
Hypothesis Hown : own m c l r.
Hypothesis Hworkdir : p !! "workdir" = Some (VStr workdir).
Hypothesis Hinputdir : p !! "inputdir" = Some (VStr inputdir).
Hypothesis Houtputdir : p !! "outputdir" = Some (VStr outputdir).
Hypothesis Hgcm : p !! "gcm" = Some (VStr gcm).
Hypothesis Hscenario : p !! "scenario" = Some (VStr scenario).
Hypothesis Hrunid : p !! "runid" = Some (VStr runid).
Hypothesis Hlogfile : p !! "logfile" = Some (VStr logfile).
Hypothesis Hstorage : p !! "init-storage-file" = Some (VStr storage).
Hypothesis Hstartmonth :
  (p !! "startmonth" = None ∧ startmonth = 1) ∨
  (∃ s, p !! "startmonth" = Some (VStr s) ∧ py_int E s = Some startmonth).
Hypothesis Hhist : cap_tbl m !! "historical-hydro" = None.
Hypothesis Hin : util_abspath E inputdir None ≠ EmptyString.
Hypothesis Hout : util_abspath E outputdir None ≠ EmptyString.

(** X16. The hydrology run up to its test for existing output, where no
    historical hydrology is configured.  With its parameters given and
    its three input files there, it comes to the test with the output
    directory made, and with its results holding [/dev/null] for the two
    historical files, the names of its eleven output files, and the run
    id: the names are built from the output directory made absolute, with
    a slash added when it does not end in one, and the [gcm], [scenario]
    and [runid] parameters; the starting month is 1 when none is given. *)
Theorem Hydro_prepares_without_history :
  let fs1 := util_mkdir_if_noexist E (util_abspath E outputdir None) (fs m) in
  let ins := hydro_inputs (with_slash (util_abspath E inputdir None))
               gcm scenario runid in
  let o := hydro_outputs (with_slash (util_abspath E outputdir None))
             gcm scenario runid in
  Forall (λ f, is_Some (fs1 !! f)) ins →
  exec E c (HydroComponent_prepare E) m
  = Returned
      (HydroCtx (util_abspath E workdir None) (util_abspath E logfile None)
         (ins !!! 0%nat) (ins !!! 1%nat) (ins !!! 2%nat)
         (VStr (util_abspath E storage None)) startmonth o)
      (put_dict l
         (hydro_results o (VStr runid)
            (<["hist-qout" := VStr "/dev/null"]>
               (<["hist-fout" := VStr "/dev/null"]> r)))
         (with_fs fs1 m)).
Proof.
  intros fs1 ins o Hins.
  apply Forall_cons in Hins as [Hi0 Hins].
  apply Forall_cons in Hins as [Hi1 Hins].
  apply Forall_cons in Hins as [Hi2 _].
  unfold HydroComponent_prepare.
  rewrite exec_bind, (exec_param _ _ _ _ _ _ Hp Hworkdir). cbn beta iota.
  rewrite exec_bind, exec_abspath. cbn beta iota.
  rewrite exec_bind, (exec_param _ _ _ _ _ _ Hp Hinputdir). cbn beta iota.
  rewrite exec_bind, exec_abspath. cbn beta iota.
  rewrite exec_bind, (exec_param _ _ _ _ _ _ Hp Houtputdir). cbn beta iota.
  rewrite exec_bind, exec_abspath. cbn beta iota.
  rewrite exec_bind, (exec_param _ _ _ _ _ _ Hp Hgcm). cbn beta iota.
  rewrite exec_bind, (exec_param _ _ _ _ _ _ Hp Hscenario). cbn beta iota.
  rewrite exec_bind, (exec_param _ _ _ _ _ _ Hp Hrunid). cbn beta iota.
  rewrite exec_bind, (exec_param _ _ _ _ _ _ Hp Hlogfile). cbn beta iota.
  rewrite exec_bind, exec_abspath. cbn beta iota.
  rewrite exec_bind, exec_perform. cbn [interp_op fst snd]. rewrite Hp.
  change (default ∅ (Some p)) with p. rewrite exec_bind.
  assert (exec E c match p !! "startmonth" with
                   | Some v => to_int E v
                   | None => Ret 1
                   end m = Returned startmonth m) as ->.
  { destruct Hstartmonth as [[-> ->]|(s & -> & Hs)]; [done|]. cbn. by rewrite Hs. }
  rewrite exec_bind, exec_perform. cbn [interp_op fst snd]. fold fs1.
  rewrite exec_bind, exec_in_cap_tbl.
  change (cap_tbl (with_fs fs1 m)) with (cap_tbl m). rewrite Hhist.
  rewrite bool_decide_eq_false_2 by (by intros [? ?]). cbn beta iota.
  rewrite exec_bind.
  assert (params_of (with_fs fs1 m) c = Some p) as Hp1 by exact Hp.
  assert (own (with_fs fs1 m) c l r) as Hown1 by exact Hown.
  rewrite exec_bind, (exec_param _ _ _ _ _ _ Hp1 Hstorage). cbn beta iota.
  rewrite exec_bind, exec_abspath. cbn beta iota.
  rewrite exec_bind, (exec_set _ _ _ _ _ _ _ Hown1). cbn beta iota.
  rewrite exec_bind.
  erewrite exec_set by (by eapply own_put_dict). rewrite put_dict_twice.
  cbn [exec]. rewrite exec_bind.
  destruct (exec_lacks_final_slash E c _
              (put_dict l (<["hist-qout" := VStr "/dev/null"]>
                             (<["hist-fout" := VStr "/dev/null"]> r))
                 (with_fs fs1 m)) Hin) as (b1 & -> & Hb1).
  rewrite exec_bind.
  destruct (exec_lacks_final_slash E c _
              (put_dict l (<["hist-qout" := VStr "/dev/null"]>
                             (<["hist-fout" := VStr "/dev/null"]> r))
                 (with_fs fs1 m)) Hout) as (b2 & -> & Hb2).
  cbn beta iota zeta. rewrite Hb1, Hb2.
  rewrite exec_bind, exec_as_str. cbn beta iota.
  rewrite exec_bind, exec_as_str. cbn beta iota.
  rewrite exec_bind, exec_as_str. cbn beta iota.
  rewrite exec_bind, exec_perform. cbn [interp_op fst snd].
  change (fs (put_dict _ _ (with_fs fs1 m))) with fs1.
  rewrite (bool_decide_eq_true_2 _ Hi0). rewrite exec_bind. cbn [ensure exec].
  rewrite exec_bind, exec_perform. cbn [interp_op fst snd].
  change (fs (put_dict _ _ (with_fs fs1 m))) with fs1.
  rewrite (bool_decide_eq_true_2 _ Hi1). rewrite exec_bind. cbn [ensure exec].
  rewrite exec_bind, exec_perform. cbn [interp_op fst snd].
  change (fs (put_dict _ _ (with_fs fs1 m))) with fs1.
  rewrite (bool_decide_eq_true_2 _ Hi2). rewrite exec_bind. cbn [ensure exec].
  rewrite exec_bind.
  erewrite exec_hydro_set_results by (by eapply own_put_dict).
  by rewrite put_dict_twice.
Qed.
End Hydro.

(** The hydrology section of [hydro_section] alone. *)
Lemma Hydro_prepares_without_history_witness :
  params_of hydro_alone_mem 0 = Some (default ∅ (params_of hydro_alone_mem 0)) ∧
  own hydro_alone_mem 0 0 (default ∅ (results_of hydro_alone_mem 0)) ∧
  cap_tbl hydro_alone_mem !! "historical-hydro" = None ∧
  Forall (λ f, is_Some (util_mkdir_if_noexist demo_externals
                          (util_abspath demo_externals "/out" None)
                          (fs hydro_alone_mem) !! f))
    (hydro_inputs (with_slash (util_abspath demo_externals "/in" None)) "G" "S" "R") ∧
  ∃ ctx m1,
    exec demo_externals 0 (HydroComponent_prepare demo_externals) hydro_alone_mem
    = Returned ctx m1 ∧
    h_out ctx = hydro_outputs "/out/" "G" "S" "R" ∧ h_startmonth ctx = 1.
Proof.
  set (p := default ∅ (params_of hydro_alone_mem 0)).
  assert (params_of hydro_alone_mem 0 = Some p) as Hp by (vm_compute; reflexivity).
  assert (own hydro_alone_mem 0 0 (default ∅ (results_of hydro_alone_mem 0))) as Hown
    by (split; vm_compute; reflexivity).
  assert (cap_tbl hydro_alone_mem !! "historical-hydro" = None) as Hhist
    by (vm_compute; reflexivity).
  assert (Forall (λ f, is_Some (util_mkdir_if_noexist demo_externals
                          (util_abspath demo_externals "/out" None)
                          (fs hydro_alone_mem) !! f))
            (hydro_inputs (with_slash (util_abspath demo_externals "/in" None))
               "G" "S" "R")) as Hins
    by (repeat constructor; vm_compute; eauto).
  assert (p !! "workdir" = Some (VStr "/w")) as H1 by (vm_compute; reflexivity).
  assert (p !! "inputdir" = Some (VStr "/in")) as H2 by (vm_compute; reflexivity).
  assert (p !! "outputdir" = Some (VStr "/out")) as H3 by (vm_compute; reflexivity).
  assert (p !! "gcm" = Some (VStr "G")) as H4 by (vm_compute; reflexivity).
  assert (p !! "scenario" = Some (VStr "S")) as H5 by (vm_compute; reflexivity).
  assert (p !! "runid" = Some (VStr "R")) as H6 by (vm_compute; reflexivity).
  assert (p !! "logfile" = Some (VStr "/log")) as H7 by (vm_compute; reflexivity).
  assert (p !! "init-storage-file" = Some (VStr "/init")) as H8
    by (vm_compute; reflexivity).
  assert (p !! "startmonth" = None) as H9 by (vm_compute; reflexivity).
  assert (util_abspath demo_externals "/in" None ≠ EmptyString) as H10 by discriminate.
  assert (util_abspath demo_externals "/out" None ≠ EmptyString) as H11 by discriminate.
  split; [exact Hp|]. split; [exact Hown|]. split; [exact Hhist|].
  split; [exact Hins|].
  eexists _, _. split.
  - exact (Hydro_prepares_without_history demo_externals 0%nat hydro_alone_mem p _
             0%nat "/w" "/in" "/out" "G" "S" "R" "/log" "/init" 1 Hp Hown
             H1 H2 H3 H4 H5 H6 H7 H8 (or_introl (conj H9 eq_refl)) Hhist H10 H11 Hins).
  - split; reflexivity.
Defined.

(** ** The historical hydrology component *)

Lemma Hist_prepare_keeps E : keeps "changed" (HistoricalHydroComponent_prepare E).
Proof. solve_only. Qed.

Lemma Hist_prepare_quiet E : quiet (HistoricalHydroComponent_prepare E).
Proof. solve_only. Qed.

Lemma hist_run_keeps a3 ctx key : keeps key (hist_run a3 ctx).
Proof. solve_only. Qed.

Lemma hist_run_returns E a3 c ctx m rv m' :
  exec E c (hist_run a3 ctx) m = Returned rv m' →
  (util_allexist E (hist_alloutfiles (hc_out ctx)) (fs m') = false → rv = 1) ∧
  launched m' ≠ launched m.
Proof.
  unfold hist_run. intros H.
  exec_inv H. exec_inv H. exec_inv H. exec_inv H.
  perform_inv H. perform_inv H.
  destruct (subprocess_call E _ _ _) as [f rc] eqn:Hcall.
  cbn [fst snd] in H. perform_inv H. cbn [fs with_launched with_fs] in H.
  apply exec_fetch_capability_inv in Hw as [-> _].
  rewrite exec_perform in Hw0. cbn in Hw0. injection Hw0 as <- <-.
  assert (m2 = m) as ->.
  { unfold subscript in Hw1.
    destruct (deref m a !! "rgnconfig"); cbn in Hw1; congruence. }
  assert (m3 = m) as -> by (destruct a1; cbn in Hw2; congruence).
  destruct (util_allexist E (hist_alloutfiles (hc_out ctx)) f) eqn:Hall;
    cbn in H; injection H as <- <-; cbn.
  - split; [congruence|]. intros Heq.
    apply (f_equal length) in Heq. rewrite length_app in Heq. cbn in Heq. lia.
  - split; [done|]. intros Heq.
    apply (f_equal length) in Heq. rewrite length_app in Heq. cbn in Heq. lia.
Qed.

(** X17. The historical hydrology run and its existing output.  Starting with
    [changed = 1], the run ends with [changed = 0] exactly when it has
    come to its test with [clobber] false and all six of its output files
    there; it then returns 0 and has started nothing.  Whenever it
    returns 0 the six output files exist on the file system it leaves, and
    when one is missing after matlab has run it returns 1. *)
Theorem HistoricalHydro_outputs E a3 c m l r :
  own m c l r → r !! "changed" = Some (VInt 1) →
  let out := exec E c (HistoricalHydroComponent_run_component E a3) m in
  (changed_flag (final out) c = Some (VInt 0) ↔
     ∃ ctx m1, exec E c (HistoricalHydroComponent_prepare E) m = Returned ctx m1 ∧
               comps m !! c ≫= clobber = Some false ∧
               util_allexist E (hist_alloutfiles (hc_out ctx)) (fs m1) = true) ∧
  (changed_flag (final out) c = Some (VInt 0) →
     ∃ m', out = Returned 0 m' ∧ launched m' = launched m) ∧
  (∀ rv m', out = Returned rv m' →
     ∃ ctx m1, exec E c (HistoricalHydroComponent_prepare E) m = Returned ctx m1 ∧
       (rv = 0 → util_allexist E (hist_alloutfiles (hc_out ctx)) (fs m') = true) ∧
       (launched m' ≠ launched m →
        util_allexist E (hist_alloutfiles (hc_out ctx)) (fs m') = false → rv = 1)).
Proof.
  intros Hown Hch. cbn zeta. unfold HistoricalHydroComponent_run_component.
  rewrite exec_bind.
  destruct (exec_keeps E c "changed" _ m l r (Hist_prepare_keeps E) Hown)
    as (r1 & Hown1 & Hch1).
  pose proof (exec_quiet E c _ m (Hist_prepare_quiet E)) as Hq.
  pose proof (exec_clobber E c (HistoricalHydroComponent_prepare E) m) as Hcl.
  rewrite Hch in Hch1.
  destruct (exec E c (HistoricalHydroComponent_prepare E) m) as [ctx m1|e m1|d m1]
    eqn:Hp; cbn [final] in *.
  2,3: rewrite (changed_flag_own _ _ _ _ Hown1), Hch1;
       split; [split; [done|by intros (? & ? & ? & _)]|split; done].
  unfold hist_decide. rewrite exec_bind, exec_get_clobber, Hcl.
  destruct (comps m !! c ≫= clobber) as [[|]|] eqn:Hc; cbn [final].
  - rewrite exec_bind. cbn [exec].
    destruct (exec_keeps E c "changed" _ _ l r1 (hist_run_keeps a3 ctx _) Hown1)
      as (r2 & Hown3 & Hch3).
    rewrite (changed_flag_own _ _ _ _ Hown3), Hch3, Hch1.
    split; [split; [done|by intros (? & ? & ? & ? & _)]|]. split; [done|].
    intros rv m' Hrun. destruct (hist_run_returns _ _ _ _ _ _ _ Hrun) as [Hone Hl].
    eexists _, _. split; [done|]. split; [|done].
    intros ->. destruct (util_allexist E _ (fs m')); [done|].
    by specialize (Hone eq_refl).
  - rewrite exec_bind, exec_perform. cbn [interp_op fst snd].
    destruct (util_allexist E (hist_alloutfiles (hc_out ctx)) (fs m1)) eqn:Hall.
    + rewrite exec_bind, (exec_set E c _ _ _ _ _ Hown1). cbn [exec final].
      rewrite (changed_flag_own _ _ _ _ (own_put_dict _ _ _ _ _ Hown1)).
      rewrite lookup_insert_eq.
      split; [split; [intros _; eauto 6|done]|].
      split; [intros _; eexists; split; [done|exact Hq]|].
      intros rv m' [= <- <-]. eexists _, _. split; [done|]. cbn.
      split; [done|]. intros Hl. by rewrite Hq in Hl.
    + destruct (exec_keeps E c "changed" _ _ l r1 (hist_run_keeps a3 ctx _) Hown1)
        as (r2 & Hown3 & Hch3).
      rewrite (changed_flag_own _ _ _ _ Hown3), Hch3, Hch1.
      split; [split; [done|]|].
      { intros (ctx' & m' & Heq & _ & Hs). simplify_eq. congruence. }
      split; [done|].
      intros rv m' Hrun. destruct (hist_run_returns _ _ _ _ _ _ _ Hrun) as [Hone Hl].
      eexists _, _. split; [done|]. split; [|done].
      intros ->. destruct (util_allexist E _ (fs m')); [done|].
      by specialize (Hone eq_refl).
  - rewrite (changed_flag_own _ _ _ _ Hown1), Hch1.
    split; [split; [done|by intros (? & ? & ? & ? & _)]|]. split; done.
Qed.

(** The historical hydrology section of [hist_cached_mem] finds all its
    output. *)
Lemma HistoricalHydro_outputs_witness :
  own hist_cached_mem 0 0 (default ∅ (results_of hist_cached_mem 0)) ∧
  default ∅ (results_of hist_cached_mem 0) !! "changed" = Some (VInt 1) ∧
  changed_flag
    (final (exec demo_externals 0
              (HistoricalHydroComponent_run_component demo_externals demo_abspath3)
              hist_cached_mem)) 0 = Some (VInt 0) ∧
  ∃ m',
    exec demo_externals 0
      (HistoricalHydroComponent_run_component demo_externals demo_abspath3)
      hist_cached_mem = Returned 0 m' ∧
    launched m' = launched hist_cached_mem.
Proof.
  assert (own hist_cached_mem 0 0 (default ∅ (results_of hist_cached_mem 0))) as H1
    by (split; vm_compute; reflexivity).
  assert (default ∅ (results_of hist_cached_mem 0) !! "changed" = Some (VInt 1))
    as H2 by (vm_compute; reflexivity).
  assert (changed_flag
            (final (exec demo_externals 0
                      (HistoricalHydroComponent_run_component demo_externals
                         demo_abspath3) hist_cached_mem)) 0 = Some (VInt 0)) as H3
    by (vm_compute; reflexivity).
  split; [exact H1|]. split; [exact H2|]. split; [exact H3|].
  exact (proj1 (proj2 (HistoricalHydro_outputs demo_externals demo_abspath3 0%nat
                         hist_cached_mem 0%nat _ H1 H2)) H3).
Defined.

Lemma exec_fetch_capability E c name m d x :
  cap_tbl m !! name = Some d → comps m !! d = Some x → status x = 1 →
  exec E c (fetch_capability name) m = Returned (results x) m.
Proof.
  intros Hd Hx Hs. unfold fetch_capability.
  rewrite exec_bind, exec_perform. cbn [interp_op fst snd]. unfold resolve.
  rewrite Hd. cbn. rewrite Hx. rewrite decide_False by lia.
  unfold fetch_outcome. by rewrite decide_True.
Qed.

Section HydroHistory.
Context (E : externals) (c : cid) (m : mem) (p r : dict) (l : loc).
Context (workdir inputdir outputdir gcm scenario runid logfile : string).
Context (startmonth : Z).
Context (h : cid) (xh : component) (rh : dict) (init hf hq : pyval).
Hypothesis Hp : params_of m c = Some p.
Hypothesis Hown : own m c l r.
Hypothesis Hworkdir : p !! "workdir" = Some (VStr workdir).
Hypothesis Hinputdir : p !! "inputdir" = Some (VStr inputdir).
Hypothesis Houtputdir : p !! "outputdir" = Some (VStr outputdir).
Hypothesis Hgcm : p !! "gcm" = Some (VStr gcm).
Hypothesis Hscenario : p !! "scenario" = Some (VStr scenario).
Hypothesis Hrunid : p !! "runid" = Some (VStr runid).
Hypothesis Hlogfile : p !! "logfile" = Some (VStr logfile).
Hypothesis Hstartmonth :
  (p !! "startmonth" = None ∧ startmonth = 1) ∨
  (∃ s, p !! "startmonth" = Some (VStr s) ∧ py_int E s = Some startmonth).
Hypothesis Hhist : cap_tbl m !! "historical-hydro" = Some h.
Hypothesis Hxh : comps m !! h = Some xh.
Hypothesis Hdone : status xh = 1.
Hypothesis Hrh : dicts m !! results xh = Some rh.
Hypothesis Hinit : rh !! "chstorfile" = Some init.
Hypothesis Hhf : rh !! "foutfile" = Some hf.
Hypothesis Hhq : rh !! "qoutfile" = Some hq.
Hypothesis Hin : util_abspath E inputdir None ≠ EmptyString.
Hypothesis Hout : util_abspath E outputdir None ≠ EmptyString.

(** X18. The hydrology run after a historical run.  Where a component is
    registered for [historical-hydro] and has ended with status 1, the
    hydrology run takes its initial channel storage from that component's
    [chstorfile] result, and copies its [foutfile] and [qoutfile] results
    to its own [hist-fout] and [hist-qout]; no [init-storage-file]
    parameter is needed. *)
Theorem Hydro_prepares_with_history :
  let fs1 := util_mkdir_if_noexist E (util_abspath E outputdir None) (fs m) in
  let ins := hydro_inputs (with_slash (util_abspath E inputdir None))
               gcm scenario runid in
  let o := hydro_outputs (with_slash (util_abspath E outputdir None))
             gcm scenario runid in
  Forall (λ f, is_Some (fs1 !! f)) ins →
  exec E c (HydroComponent_prepare E) m
  = Returned
      (HydroCtx (util_abspath E workdir None) (util_abspath E logfile None)
         (ins !!! 0%nat) (ins !!! 1%nat) (ins !!! 2%nat)
         init startmonth o)
      (put_dict l
         (hydro_results o (VStr runid)
            (<["hist-qout" := hq]> (<["hist-fout" := hf]> r)))
         (with_fs fs1 m)).
Proof.
  intros fs1 ins o Hins.
  apply Forall_cons in Hins as [Hi0 Hins].
  apply Forall_cons in Hins as [Hi1 Hins].
  apply Forall_cons in Hins as [Hi2 _].
  unfold HydroComponent_prepare.
  rewrite exec_bind, (exec_param _ _ _ _ _ _ Hp Hworkdir). cbn beta iota.
  rewrite exec_bind, exec_abspath. cbn beta iota.
  rewrite exec_bind, (exec_param _ _ _ _ _ _ Hp Hinputdir). cbn beta iota.
  rewrite exec_bind, exec_abspath. cbn beta iota.
  rewrite exec_bind, (exec_param _ _ _ _ _ _ Hp Houtputdir). cbn beta iota.
  rewrite exec_bind, exec_abspath. cbn beta iota.
  rewrite exec_bind, (exec_param _ _ _ _ _ _ Hp Hgcm). cbn beta iota.
  rewrite exec_bind, (exec_param _ _ _ _ _ _ Hp Hscenario). cbn beta iota.
  rewrite exec_bind, (exec_param _ _ _ _ _ _ Hp Hrunid). cbn beta iota.
  rewrite exec_bind, (exec_param _ _ _ _ _ _ Hp Hlogfile). cbn beta iota.
  rewrite exec_bind, exec_abspath. cbn beta iota.
  rewrite exec_bind, exec_perform. cbn [interp_op fst snd]. rewrite Hp.
  change (default ∅ (Some p)) with p. rewrite exec_bind.
  assert (exec E c match p !! "startmonth" with
                   | Some v => to_int E v
                   | None => Ret 1
                   end m = Returned startmonth m) as ->.
  { destruct Hstartmonth as [[-> ->]|(s & -> & Hs)]; [done|]. cbn. by rewrite Hs. }
  rewrite exec_bind, exec_perform. cbn [interp_op fst snd]. fold fs1.
  rewrite exec_bind, exec_in_cap_tbl.
  change (cap_tbl (with_fs fs1 m)) with (cap_tbl m). rewrite Hhist.
  rewrite bool_decide_eq_true_2 by eauto. cbn beta iota.
  rewrite exec_bind.
  assert (own (with_fs fs1 m) c l r) as Hown1 by exact Hown.
  rewrite exec_bind.
  rewrite (exec_fetch_capability E c _ (with_fs fs1 m) h xh Hhist Hxh Hdone).
  cbn beta iota.
  rewrite exec_bind, exec_perform. cbn [interp_op fst snd].
  unfold deref. change (dicts (with_fs fs1 m)) with (dicts m). rewrite Hrh.
  change (default ∅ (Some rh)) with rh.
  rewrite exec_bind, (exec_subscript _ _ _ Hinit). cbn beta iota.
  rewrite exec_bind, (exec_subscript _ _ _ Hhf). cbn beta iota.
  rewrite exec_bind, (exec_set _ _ _ _ _ _ _ Hown1). cbn beta iota.
  rewrite exec_bind, (exec_subscript _ _ _ Hhq). cbn beta iota.
  rewrite exec_bind.
  erewrite exec_set by (by eapply own_put_dict). rewrite put_dict_twice.
  cbn [exec]. rewrite exec_bind.
  destruct (exec_lacks_final_slash E c _
              (put_dict l (<["hist-qout" := hq]> (<["hist-fout" := hf]> r))
                 (with_fs fs1 m)) Hin) as (b1 & -> & Hb1).
  rewrite exec_bind.
  destruct (exec_lacks_final_slash E c _
              (put_dict l (<["hist-qout" := hq]> (<["hist-fout" := hf]> r))
                 (with_fs fs1 m)) Hout) as (b2 & -> & Hb2).
  cbn beta iota zeta. rewrite Hb1, Hb2.
  rewrite exec_bind, exec_as_str. cbn beta iota.
  rewrite exec_bind, exec_as_str. cbn beta iota.
  rewrite exec_bind, exec_as_str. cbn beta iota.
  rewrite exec_bind, exec_perform. cbn [interp_op fst snd].
  change (fs (put_dict _ _ (with_fs fs1 m))) with fs1.
  rewrite (bool_decide_eq_true_2 _ Hi0). rewrite exec_bind. cbn [ensure exec].
  rewrite exec_bind, exec_perform. cbn [interp_op fst snd].
  change (fs (put_dict _ _ (with_fs fs1 m))) with fs1.
  rewrite (bool_decide_eq_true_2 _ Hi1). rewrite exec_bind. cbn [ensure exec].
  rewrite exec_bind, exec_perform. cbn [interp_op fst snd].
  change (fs (put_dict _ _ (with_fs fs1 m))) with fs1.
  rewrite (bool_decide_eq_true_2 _ Hi2). rewrite exec_bind. cbn [ensure exec].
  rewrite exec_bind.
  erewrite exec_hydro_set_results by (by eapply own_put_dict).
  by rewrite put_dict_twice.
Qed.
End HydroHistory.

(** The hydrology section after the historical one. *)
Lemma Hydro_prepares_with_history_witness :
  params_of history_done_mem 1 = Some (default ∅ (params_of history_done_mem 1)) ∧
  own history_done_mem 1 2 (default ∅ (results_of history_done_mem 1)) ∧
  cap_tbl history_done_mem !! "historical-hydro" = Some 0%nat ∧
  status_of history_done_mem 0 = Some 1 ∧
  ∃ ctx m1,
    exec demo_externals 1 (HydroComponent_prepare demo_externals) history_done_mem
    = Returned ctx m1 ∧
    h_initstorage ctx = VStr "/out/InitChStor_G_historical_R.mat" ∧
    results_of m1 1 ≫= (.!! "hist-fout")
    = Some (VStr "/out/Avg_ChFlow_235_G_historical_R.mat").
Proof.
  set (p := default ∅ (params_of history_done_mem 1)).
  set (xh := default (Component ComponentBase 0 0 0 (Condition None []) None)
               (comps history_done_mem !! 0%nat)).
  set (rh := default ∅ (dicts history_done_mem !! results xh)).
  assert (params_of history_done_mem 1 = Some p) as Hp by (vm_compute; reflexivity).
  assert (own history_done_mem 1 2 (default ∅ (results_of history_done_mem 1)))
    as Hown by (split; vm_compute; reflexivity).
  assert (cap_tbl history_done_mem !! "historical-hydro" = Some 0%nat) as Hhist
    by (vm_compute; reflexivity).
  assert (status_of history_done_mem 0 = Some 1) as Hst by (vm_compute; reflexivity).
  assert (comps history_done_mem !! 0%nat = Some xh) as Hxh
    by (vm_compute; reflexivity).
  assert (status xh = 1) as Hdone by (vm_compute; reflexivity).
  assert (dicts history_done_mem !! results xh = Some rh) as Hrh
    by (vm_compute; reflexivity).
  assert (rh !! "chstorfile" = Some (VStr "/out/InitChStor_G_historical_R.mat"))
    as Hinit by (vm_compute; reflexivity).
  assert (rh !! "foutfile" = Some (VStr "/out/Avg_ChFlow_235_G_historical_R.mat"))
    as Hhf by (vm_compute; reflexivity).
  assert (rh !! "qoutfile" = Some (VStr "/out/Avg_Runoff_235_G_historical_R.mat"))
    as Hhq by (vm_compute; reflexivity).
  assert (Forall (λ f, is_Some (util_mkdir_if_noexist demo_externals
                          (util_abspath demo_externals "/out" None)
                          (fs history_done_mem) !! f))
            (hydro_inputs (with_slash (util_abspath demo_externals "/in" None))
               "G" "S" "R")) as Hins
    by (repeat constructor; vm_compute; eauto).
  assert (p !! "workdir" = Some (VStr "/w")) as H1 by (vm_compute; reflexivity).
  assert (p !! "inputdir" = Some (VStr "/in")) as H2 by (vm_compute; reflexivity).
  assert (p !! "outputdir" = Some (VStr "/out")) as H3 by (vm_compute; reflexivity).
  assert (p !! "gcm" = Some (VStr "G")) as H4 by (vm_compute; reflexivity).
  assert (p !! "scenario" = Some (VStr "S")) as H5 by (vm_compute; reflexivity).
  assert (p !! "runid" = Some (VStr "R")) as H6 by (vm_compute; reflexivity).
  assert (p !! "logfile" = Some (VStr "/log")) as H7 by (vm_compute; reflexivity).
  assert (p !! "startmonth" = None) as H9 by (vm_compute; reflexivity).
  assert (util_abspath demo_externals "/in" None ≠ EmptyString) as H10
    by discriminate.
  assert (util_abspath demo_externals "/out" None ≠ EmptyString) as H11
    by discriminate.
  split; [exact Hp|]. split; [exact Hown|]. split; [exact Hhist|].
  split; [exact Hst|].
  eexists _, _. split.
  - exact (Hydro_prepares_with_history demo_externals 1%nat history_done_mem p _
             2%nat "/w" "/in" "/out" "G" "S" "R" "/log" 1 0%nat xh rh _ _ _ Hp Hown
             H1 H2 H3 H4 H5 H6 H7 (or_introl (conj H9 eq_refl)) Hhist Hxh Hdone Hrh
             Hinit Hhf Hhq H10 H11 Hins).
  - split; [reflexivity|]. vm_compute. reflexivity.
Defined.
